(** * Loan vs SIP strategizer: the simulation engine of [services/calculator.ts]

    A shallow embedding of [calculateScenario], of the types of [types.ts]
    and of the parts of [App.tsx] that compute on a result, with the
    properties its specification states about them.

    The source computes on JavaScript Numbers.  The function is embedded
    twice, line for line the same, over two models of a Number.

    - Exact arithmetic ([JSNum], the top level).  A Number is an exact
      rational or one of [NaN], [+Infinity], [-Infinity]; operations follow
      ECMAScript on the special values and are exact on finite ones.  This is
      the model for what does not depend on rounding: the control flow, the
      formulas of the budget and of the investment step, and the [NaN] of a
      zero rate.  What it proves about the schedule of a loan (a balance that
      reaches 0 with the last installment, and what follows from it) holds of
      the algorithm in exact arithmetic only, and is marked so.

    - Binary64 ([Binary64]).  A Number is an IEEE 754 binary64 value, every
      operation is the processor's, [tenureYears] is any Number, and a call
      may return, throw or still be running.  This is the model for what
      rounding, overflow or a tenure that is not a whole number of years
      decides. *)

From Stdlib Require Import ZArith QArith Qcanon Qround List Bool Lia Lra Psatz.
From Stdlib Require String.
From Stdlib Require Floats Uint63.
Import ListNotations.
Import String.StringSyntax.
Delimit Scope string_scope with string.

(* ================================================================== *)
(** ** JavaScript Numbers *)
(* ================================================================== *)

Module JSNum.

Inductive num : Type :=
| NaN
| NInf
| Fin (q : Qc)
| PInf.

Definition ofZ (z : Z) : num := Fin (Q2Qc (inject_Z z)).

Definition zero : num := Fin 0%Qc.
Definition one : num := Fin 1%Qc.

Definition isNaN (a : num) : bool :=
  match a with NaN => true | _ => false end.

Definition isFinite (a : num) : bool :=
  match a with Fin _ => true | _ => false end.

(** Sign of a non-NaN number, as a [comparison] with 0. *)
Definition sgn (q : Qc) : comparison := (q ?= 0)%Qc.

(** [a + b] *)
Definition add (a b : num) : num :=
  match a, b with
  | NaN, _ | _, NaN => NaN
  | PInf, NInf | NInf, PInf => NaN
  | PInf, _ | _, PInf => PInf
  | NInf, _ | _, NInf => NInf
  | Fin x, Fin y => Fin (x + y)%Qc
  end.

(** unary [-a] *)
Definition neg (a : num) : num :=
  match a with
  | NaN => NaN
  | NInf => PInf
  | PInf => NInf
  | Fin x => Fin (- x)%Qc
  end.

(** [a - b] *)
Definition sub (a b : num) : num := add a (neg b).

(** An infinity of the sign [c], [NaN] for sign zero. *)
Definition infOfSign (c : comparison) : num :=
  match c with Eq => NaN | Lt => NInf | Gt => PInf end.

(** [a * b]; zero times an infinity is [NaN]. *)
Definition mul (a b : num) : num :=
  match a, b with
  | NaN, _ | _, NaN => NaN
  | Fin x, Fin y => Fin (x * y)%Qc
  | Fin x, PInf | PInf, Fin x => infOfSign (sgn x)
  | Fin x, NInf | NInf, Fin x => infOfSign (CompOpp (sgn x))
  | PInf, PInf | NInf, NInf => PInf
  | PInf, NInf | NInf, PInf => NInf
  end.

(** [a / b]; a finite non-zero number over zero is an infinity, [0 / 0] and
    infinity over infinity are [NaN].  A zero divisor counts as [+0]. *)
Definition div (a b : num) : num :=
  match a, b with
  | NaN, _ | _, NaN => NaN
  | Fin x, Fin y =>
      match sgn y with
      | Eq => infOfSign (sgn x)
      | _ => Fin (x / y)%Qc
      end
  | Fin _, (PInf | NInf) => Fin 0%Qc
  | PInf, Fin y => match sgn y with Lt => NInf | _ => PInf end
  | NInf, Fin y => match sgn y with Lt => PInf | _ => NInf end
  | (PInf | NInf), (PInf | NInf) => NaN
  end.

(** [a < b]; false as soon as one side is [NaN]. *)
Definition lt (a b : num) : bool :=
  match a, b with
  | NaN, _ | _, NaN => false
  | PInf, _ => false
  | _, NInf => false
  | NInf, _ => true
  | _, PInf => true
  | Fin x, Fin y => match (x ?= y)%Qc with Lt => true | _ => false end
  end.

(** [a > b] *)
Definition gt (a b : num) : bool := lt b a.

(** [a <= b]; false as soon as one side is [NaN]. *)
Definition le (a b : num) : bool :=
  match a, b with
  | NaN, _ | _, NaN => false
  | NInf, _ => true
  | _, PInf => true
  | PInf, _ => false
  | _, NInf => false
  | Fin x, Fin y => match (x ?= y)%Qc with Gt => false | _ => true end
  end.

(** [a === b]; false as soon as one side is [NaN]. *)
Definition eqb (a b : num) : bool :=
  match a, b with
  | NInf, NInf | PInf, PInf => true
  | Fin x, Fin y => match (x ?= y)%Qc with Eq => true | _ => false end
  | _, _ => false
  end.

(** [Math.max(a, b)] *)
Definition max (a b : num) : num :=
  match a, b with
  | NaN, _ | _, NaN => NaN
  | _, _ => if lt a b then b else a
  end.

(** [Math.abs(a)] *)
Definition abs (a : num) : num :=
  match a with
  | NaN => NaN
  | NInf | PInf => PInf
  | Fin x => match sgn x with Lt => Fin (- x)%Qc | _ => Fin x end
  end.

(** [x] multiplied [n] times, starting from 1. *)
Fixpoint powNat (x : num) (n : nat) : num :=
  match n with
  | O => one
  | S k => mul x (powNat x k)
  end.

(** [Math.pow(x, z)] for an integer exponent [z]: the source only raises to
    [totalMonths] and to [year - 1].  [Math.pow(x, 0)] is 1 for every [x],
    [NaN] included. *)
Definition pow (x : num) (z : Z) : num :=
  match z with
  | Z0 => one
  | Zpos p => powNat x (Pos.to_nat p)
  | Zneg p => div one (powNat x (Pos.to_nat p))
  end.

(** [Math.ceil(m / d)] for integers [m] and [d <> 0]. *)
Definition ceilDiv (m d : Z) : Z := Qceiling (inject_Z m / inject_Z d)%Q.

End JSNum.

Import JSNum.

Declare Scope num_scope.
Delimit Scope num_scope with num.
Bind Scope num_scope with num.
Infix "+" := add : num_scope.
Infix "-" := sub : num_scope.
Infix "*" := mul : num_scope.
Infix "/" := div : num_scope.
Infix "<?" := lt : num_scope.
Infix ">?" := gt : num_scope.
Infix "<=?" := le : num_scope.

(* ================================================================== *)
(** ** The data model *)
(* ================================================================== *)

(** [LoanInput], [MonthlyData] and [SimulationResult] as [types.ts]
    declares them.  In this model [tenureYears] is a whole number of years,
    the "positive integer" of the specification, so that [month], [year] and
    the tenure figures are integers; [types.ts] types it [number], and
    [Binary64.LoanInput] takes it as one. *)
Record LoanInput : Type := {
  principal : num;
  interestRate : num;
  tenureYears : Z;
  sipReturnRate : num;
  extraEmiPerYear : num;
  stepUpPercentage : num
}.

Module MonthlyData.
Record t : Type := {
  month : Z;
  year : Z;
  loanBalanceRegular : num;
  loanBalanceAggressive : num;
  sipValueRegular : num;
  sipValueAggressive : num;
  cumulativeInterestRegular : num;
  cumulativeInterestAggressive : num;
  totalInvestedRegular : num;
  totalInvestedAggressive : num
}.
End MonthlyData.

Inductive Strategy : Type := Prepay | Invest.

Module Summary.
Record t : Type := {
  regularTotalInterest : num;
  aggressiveTotalInterest : num;
  regularTenureMonths : Z;
  aggressiveTenureMonths : Z;
  interestSaved : num;
  finalWealthRegular : num;
  finalWealthAggressive : num;
  totalAmountInvestedRegular : num;
  totalAmountInvestedAggressive : num;
  winningStrategy : Strategy;
  netWealthDifference : num
}.
End Summary.

Record SimulationResult : Type := {
  monthlyData : list MonthlyData.t;
  summary : Summary.t
}.

(* ================================================================== *)
(** ** [calculateScenario] *)
(* ================================================================== *)

Local Open Scope num_scope.

(** The mutable variables of [calculateScenario], declared before its loop. *)
Record LoopState : Type := {
  balanceRegular : num;
  balanceAggressive : num;
  sipValueRegular : num;
  sipValueAggressive : num;
  totalInvestedRegular : num;
  totalInvestedAggressive : num;
  totalInterestRegular : num;
  totalInterestAggressive : num;
  aggressiveClosedMonth : Z;
  regularClosedMonth : Z;
  isAggressiveClosed : bool;
  isRegularClosed : bool;
  data : list MonthlyData.t
}.

(** Assignments to groups of variables; every other variable keeps its value. *)
Definition withRegularLoan (st : LoopState)
    (balance totalInterest : num) (closed : bool) (closedMonth : Z) : LoopState :=
  {| balanceRegular := balance;
     balanceAggressive := balanceAggressive st;
     sipValueRegular := sipValueRegular st;
     sipValueAggressive := sipValueAggressive st;
     totalInvestedRegular := totalInvestedRegular st;
     totalInvestedAggressive := totalInvestedAggressive st;
     totalInterestRegular := totalInterest;
     totalInterestAggressive := totalInterestAggressive st;
     aggressiveClosedMonth := aggressiveClosedMonth st;
     regularClosedMonth := closedMonth;
     isAggressiveClosed := isAggressiveClosed st;
     isRegularClosed := closed;
     data := data st |}.

Definition withRegularSip (st : LoopState) (sipValue totalInvested : num) : LoopState :=
  {| balanceRegular := balanceRegular st;
     balanceAggressive := balanceAggressive st;
     sipValueRegular := sipValue;
     sipValueAggressive := sipValueAggressive st;
     totalInvestedRegular := totalInvested;
     totalInvestedAggressive := totalInvestedAggressive st;
     totalInterestRegular := totalInterestRegular st;
     totalInterestAggressive := totalInterestAggressive st;
     aggressiveClosedMonth := aggressiveClosedMonth st;
     regularClosedMonth := regularClosedMonth st;
     isAggressiveClosed := isAggressiveClosed st;
     isRegularClosed := isRegularClosed st;
     data := data st |}.

Definition withAggressiveLoan (st : LoopState)
    (balance totalInterest : num) (closed : bool) (closedMonth : Z) : LoopState :=
  {| balanceRegular := balanceRegular st;
     balanceAggressive := balance;
     sipValueRegular := sipValueRegular st;
     sipValueAggressive := sipValueAggressive st;
     totalInvestedRegular := totalInvestedRegular st;
     totalInvestedAggressive := totalInvestedAggressive st;
     totalInterestRegular := totalInterestRegular st;
     totalInterestAggressive := totalInterest;
     aggressiveClosedMonth := closedMonth;
     regularClosedMonth := regularClosedMonth st;
     isAggressiveClosed := closed;
     isRegularClosed := isRegularClosed st;
     data := data st |}.

Definition withAggressiveSip (st : LoopState) (sipValue totalInvested : num) : LoopState :=
  {| balanceRegular := balanceRegular st;
     balanceAggressive := balanceAggressive st;
     sipValueRegular := sipValueRegular st;
     sipValueAggressive := sipValue;
     totalInvestedRegular := totalInvestedRegular st;
     totalInvestedAggressive := totalInvested;
     totalInterestRegular := totalInterestRegular st;
     totalInterestAggressive := totalInterestAggressive st;
     aggressiveClosedMonth := aggressiveClosedMonth st;
     regularClosedMonth := regularClosedMonth st;
     isAggressiveClosed := isAggressiveClosed st;
     isRegularClosed := isRegularClosed st;
     data := data st |}.

Definition withData (st : LoopState) (d : list MonthlyData.t) : LoopState :=
  {| balanceRegular := balanceRegular st;
     balanceAggressive := balanceAggressive st;
     sipValueRegular := sipValueRegular st;
     sipValueAggressive := sipValueAggressive st;
     totalInvestedRegular := totalInvestedRegular st;
     totalInvestedAggressive := totalInvestedAggressive st;
     totalInterestRegular := totalInterestRegular st;
     totalInterestAggressive := totalInterestAggressive st;
     aggressiveClosedMonth := aggressiveClosedMonth st;
     regularClosedMonth := regularClosedMonth st;
     isAggressiveClosed := isAggressiveClosed st;
     isRegularClosed := isRegularClosed st;
     data := d |}.

Section Scenario.

Variable input : LoanInput.

(** Lines 6-11: the constants derived from the input. *)
Definition monthlyRate : num := interestRate input / ofZ 12 / ofZ 100.
Definition totalMonths : Z := tenureYears input * 12.
Definition sipMonthlyRate : num := sipReturnRate input / ofZ 12 / ofZ 100.

Definition baseEmi : num :=
  (principal input * monthlyRate * pow (one + monthlyRate) totalMonths)
  / (pow (one + monthlyRate) totalMonths - one).

(** Lines 14-31: the state before the first month. *)
Definition initialState : LoopState :=
  {| balanceRegular := principal input;
     balanceAggressive := principal input;
     sipValueRegular := zero;
     sipValueAggressive := zero;
     totalInvestedRegular := zero;
     totalInvestedAggressive := zero;
     totalInterestRegular := zero;
     totalInterestAggressive := zero;
     aggressiveClosedMonth := totalMonths;
     regularClosedMonth := totalMonths;
     isAggressiveClosed := false;
     isRegularClosed := false;
     data := [] |}.

(** Line 34: [Math.ceil(month / 12)]. *)
Definition yearOf (month : Z) : Z := ceilDiv month 12.

(** Lines 41-45: the stepped-up capacity of the month's year. *)
Definition currentMonthlyBudget (month : Z) : num :=
  if (1 <? yearOf month)%Z then
    let increaseFactor := one + stepUpPercentage input / ofZ 100 in
    baseEmi * pow increaseFactor (yearOf month - 1)
  else baseEmi.

(** Lines 48-51: the lump sum of a year-end month. *)
Definition extraPaymentBudget (month : Z) : num :=
  if (extraEmiPerYear input >? zero) && (Z.rem month 12 =? 0)%Z then
    baseEmi * extraEmiPerYear input
  else zero.

(** Line 53. *)
Definition totalBudgetThisMonth (month : Z) : num :=
  currentMonthlyBudget month + extraPaymentBudget month.

(** Lines 59-71: Strategy A, loan part. *)
Definition regularLoanPart (month : Z) (st : LoopState) : LoopState :=
  if negb (isRegularClosed st) then
    let interest := balanceRegular st * monthlyRate in
    let principalComp := baseEmi - interest in
    if balanceRegular st - principalComp <? zero then
      withRegularLoan st
        (balanceRegular st - balanceRegular st)
        (totalInterestRegular st + interest)
        true month
    else
      withRegularLoan st
        (balanceRegular st - principalComp)
        (totalInterestRegular st + interest)
        (isRegularClosed st) (regularClosedMonth st)
  else st.

(** Line 76: read after the loan part has run, so [isRegularClosed] is already
    set in the month the loan closes. *)
Definition surplusRegular (month : Z) (st : LoopState) : num :=
  totalBudgetThisMonth month - (if isRegularClosed st then zero else baseEmi).

(** Lines 81-86 and 124-129: one month of the investment, with the amount
    offered to it. *)
Definition sipGrowth (sipValue totalInvested amount : num) : num * num :=
  if amount >? zero then
    ((sipValue + amount) * (one + sipMonthlyRate), totalInvested + amount)
  else
    (sipValue * (one + sipMonthlyRate), totalInvested).

(** Lines 76-86: Strategy A, investment part. *)
Definition regularInvestmentPart (month : Z) (st : LoopState) : LoopState :=
  let '(sipValue, totalInvested) :=
    sipGrowth (sipValueRegular st) (totalInvestedRegular st) (surplusRegular month st) in
  withRegularSip st sipValue totalInvested.

(** Lines 92-121: Strategy B, loan part; the second component is
    [amountForSipAggressive]. *)
Definition aggressiveLoanPart (month : Z) (st : LoopState) : LoopState * num :=
  if negb (isAggressiveClosed st) then
    let amountForLoanAggressive := totalBudgetThisMonth month in
    let interest := balanceAggressive st * monthlyRate in
    let principalComp := amountForLoanAggressive - interest in
    if balanceAggressive st - principalComp <? zero then
      let actualNeeded := balanceAggressive st + interest in
      (withAggressiveLoan st
         (balanceAggressive st - balanceAggressive st)
         (totalInterestAggressive st + interest)
         true month,
       totalBudgetThisMonth month - actualNeeded)
    else
      (withAggressiveLoan st
         (balanceAggressive st - principalComp)
         (totalInterestAggressive st + interest)
         (isAggressiveClosed st) (aggressiveClosedMonth st),
       zero)
  else (st, totalBudgetThisMonth month).

(** Lines 124-129: Strategy B, investment part. *)
Definition aggressiveInvestmentPart (amountForSipAggressive : num) (st : LoopState)
    : LoopState :=
  let '(sipValue, totalInvested) :=
    sipGrowth (sipValueAggressive st) (totalInvestedAggressive st) amountForSipAggressive in
  withAggressiveSip st sipValue totalInvested.

(** Lines 131-142: the month's snapshot. *)
Definition snapshot (month : Z) (st : LoopState) : MonthlyData.t :=
  {| MonthlyData.month := month;
     MonthlyData.year := ceilDiv month 12;
     MonthlyData.loanBalanceRegular := max zero (balanceRegular st);
     MonthlyData.loanBalanceAggressive := max zero (balanceAggressive st);
     MonthlyData.sipValueRegular := sipValueRegular st;
     MonthlyData.sipValueAggressive := sipValueAggressive st;
     MonthlyData.cumulativeInterestRegular := totalInterestRegular st;
     MonthlyData.cumulativeInterestAggressive := totalInterestAggressive st;
     MonthlyData.totalInvestedRegular := totalInvestedRegular st;
     MonthlyData.totalInvestedAggressive := totalInvestedAggressive st |}.

(** Lines 34-142: the body of the loop. *)
Definition loopBody (st : LoopState) (month : Z) : LoopState :=
  let st1 := regularLoanPart month st in
  let st2 := regularInvestmentPart month st1 in
  let '(st3, amountForSipAggressive) := aggressiveLoanPart month st2 in
  let st4 := aggressiveInvestmentPart amountForSipAggressive st3 in
  withData st4 (data st4 ++ [snapshot month st4]).

(** The values [month] takes in [for (month = 1; month <= n; month++)]. *)
Definition monthsUpTo (n : Z) : list Z :=
  map Z.of_nat (seq 1 (Z.to_nat n)).

(** Line 33: the loop, from any state. *)
Definition runMonths (st : LoopState) (months : list Z) : LoopState :=
  fold_left loopBody months st.

Definition finalState : LoopState := runMonths initialState (monthsUpTo totalMonths).

(** Lines 151-173. *)
Definition summaryOf (st : LoopState) : Summary.t :=
  let finalWealthRegular := sipValueRegular st - max zero (balanceRegular st) in
  let finalWealthAggressive := sipValueAggressive st - max zero (balanceAggressive st) in
  let netWealthDifference := abs (finalWealthAggressive - finalWealthRegular) in
  let winningStrategy :=
    if finalWealthAggressive >? finalWealthRegular then Prepay else Invest in
  {| Summary.regularTotalInterest := totalInterestRegular st;
     Summary.aggressiveTotalInterest := totalInterestAggressive st;
     Summary.regularTenureMonths := regularClosedMonth st;
     Summary.aggressiveTenureMonths := aggressiveClosedMonth st;
     Summary.interestSaved := totalInterestRegular st - totalInterestAggressive st;
     Summary.finalWealthRegular := finalWealthRegular;
     Summary.finalWealthAggressive := finalWealthAggressive;
     Summary.totalAmountInvestedRegular := totalInvestedRegular st;
     Summary.totalAmountInvestedAggressive := totalInvestedAggressive st;
     Summary.winningStrategy := winningStrategy;
     Summary.netWealthDifference := netWealthDifference |}.

Definition calculateScenario : SimulationResult :=
  {| monthlyData := data finalState;
     summary := summaryOf finalState |}.

End Scenario.

(** The constraints the specification puts on a [LoanInput]. *)
Definition validInput (input : LoanInput) : bool :=
  isFinite (principal input) && (principal input >? zero)
  && isFinite (interestRate input) && (zero <=? interestRate input)
  && (0 <? tenureYears input)%Z
  && isFinite (sipReturnRate input) && (zero <=? sipReturnRate input)
  && isFinite (extraEmiPerYear input) && (zero <=? extraEmiPerYear input)
  && isFinite (stepUpPercentage input) && (zero <=? stepUpPercentage input).

Definition mkInput (p r : num) (t : Z) (s e u : num) : LoanInput :=
  {| principal := p; interestRate := r; tenureYears := t;
     sipReturnRate := s; extraEmiPerYear := e; stepUpPercentage := u |}.

(** Reading a result back as fractions, for concrete runs. *)
Definition view (a : num) : option Q :=
  match a with Fin q => Some (this q) | _ => None end.

(** The variables of each track, read together. *)
Definition regularLoan (st : LoopState) : num * num * bool * Z :=
  (balanceRegular st, totalInterestRegular st, isRegularClosed st, regularClosedMonth st).
Definition regularSip (st : LoopState) : num * num :=
  (sipValueRegular st, totalInvestedRegular st).
Definition aggressiveLoan (st : LoopState) : num * num * bool * Z :=
  (balanceAggressive st, totalInterestAggressive st, isAggressiveClosed st,
   aggressiveClosedMonth st).
Definition aggressiveSip (st : LoopState) : num * num :=
  (sipValueAggressive st, totalInvestedAggressive st).

(* ================================================================== *)
(** ** Concrete scenarios *)
(* ================================================================== *)

(** An input that breaks all four constraints of the specification. *)
Definition invalidInput : LoanInput :=
  mkInput (ofZ (-1)) (ofZ (-1)) 0 (ofZ (-1)) zero zero.

(** The zero-interest example of the specification: 1,200,000 over 10 years
    at 0 %, for which it expects an installment of 10,000. *)
Definition zeroRateInput : LoanInput :=
  mkInput (ofZ 1200000) (ofZ 0) 10 (ofZ 12) (ofZ 0) (ofZ 0).

(** 1,200 over one year at 12 %, invested at 12 %, no extra capacity. *)
Definition flatYearInput : LoanInput :=
  mkInput (ofZ 1200) (ofZ 12) 1 (ofZ 12) (ofZ 0) (ofZ 0).

(** 1,200 over two years at 12 %, with a 50 % step-up and one extra
    installment a year. *)
Definition stepUpInput : LoanInput :=
  mkInput (ofZ 1200) (ofZ 12) 2 (ofZ 12) (ofZ 1) (ofZ 50).

(** What one month may do to a loan track, read as
    [(balance, interest, closed, closedMonth)] before and after month [m]:
    the balance does not grow and stays at or above 0; a closed track stays
    closed with its balance at 0 and its interest and closing month
    untouched; a track that closes this month has balance 0 and closing
    month [m]. *)
Definition loanTrackStep (m : Z) (before after : num * num * bool * Z) : Prop :=
  let '(b, i, c, cm) := before in
  let '(b', i', c', cm') := after in
  (b' <=? b) = true
  /\ (zero <=? b') = true
  /\ (i <=? i') = true
  /\ (c = true -> c' = true /\ b = zero /\ b' = zero /\ i' = i /\ cm' = cm)
  /\ (c = false -> c' = true -> b' = zero /\ cm' = m).

(** A loan track with a finite balance [b >= 0] and finite interest [i], whose
    balance is 0 once it is closed. *)
Definition finiteTrack (t : num * num * bool * Z) (b i : Qc) : Prop :=
  let '(bn, inn, c, _) := t in
  bn = Fin b /\ inn = Fin i /\ (0 <= b)%Qc /\ (c = true -> b = 0%Qc).

(** The balance after a month in which [pay] is offered against [b] at rate
    [r]: what is left, or 0 if that would overpay. *)
Definition nextBalance (b r pay b' : Qc) : Prop :=
  (b' = 0%Qc /\ (b * (1 + r) - pay <= 0)%Qc)
  \/ (b' = (b * (1 + r) - pay)%Qc /\ (0 <= b * (1 + r) - pay)%Qc).

(** Both loan tracks are finite, and the aggressive one has neither more
    balance nor more interest than the regular one. *)
Definition tracksOrdered (P : Qc) (st : LoopState) : Prop :=
  exists bR bA iR iA : Qc,
    finiteTrack (regularLoan st) bR iR
    /\ finiteTrack (aggressiveLoan st) bA iA
    /\ (bA <= bR)%Qc /\ (bR <= P)%Qc /\ (iA <= iR)%Qc.

(** An input whose Numbers are all finite. *)
Definition finiteInput (P R : Qc) (T : Z) (S X U : Qc) : LoanInput :=
  mkInput (Fin P) (Fin R) T (Fin S) (Fin X) (Fin U).

(** The monthly rate of an annual percentage. *)
Definition rateOf (R : Qc) : Qc := (R / Q2Qc (inject_Z 12) / Q2Qc (inject_Z 100))%Qc.

(** The closed form of the installment. *)
Definition installmentOf (P r : Qc) (n : nat) : Qc :=
  (P * r * (1 + r) ^ n / ((1 + r) ^ n - 1))%Qc.

(** The variables after the first [k] months of the loop. *)
Definition stateAfter (input : LoanInput) (k : Z) : LoopState :=
  runMonths input (initialState input) (monthsUpTo k).

(** The two strategies hold the same loan and the same investment. *)
Definition tracksEqual (st : LoopState) : Prop :=
  regularLoan st = aggressiveLoan st /\ regularSip st = aggressiveSip st.

(** A snapshot in which the two strategies show the same figures. *)
Definition strategiesAgree (d : MonthlyData.t) : Prop :=
  MonthlyData.loanBalanceRegular d = MonthlyData.loanBalanceAggressive d
  /\ MonthlyData.sipValueRegular d = MonthlyData.sipValueAggressive d
  /\ MonthlyData.cumulativeInterestRegular d = MonthlyData.cumulativeInterestAggressive d
  /\ MonthlyData.totalInvestedRegular d = MonthlyData.totalInvestedAggressive d.

(** The regular loan is open with [j] installments to go: its balance is
    what [j] installments of [E] repay at rate [r]. *)
Definition onSchedule (r E : Qc) (j : nat) (st : LoopState) : Prop :=
  isRegularClosed st = false
  /\ exists b i : Qc,
       balanceRegular st = Fin b /\ totalInterestRegular st = Fin i
       /\ (b * r * (1 + r) ^ j = E * ((1 + r) ^ j - 1))%Qc.

(** [l] never rises, starting from [a]: each element is [<=] the one before. *)
Fixpoint nonIncreasingFrom (a : num) (l : list num) : bool :=
  match l with
  | [] => true
  | b :: t => (b <=? a) && nonIncreasingFrom b t
  end.





(** 1,200 over one year at 12 %, with one extra installment at the end of
    the year: both strategies invest in month 12. *)
Definition bonusYearInput : LoanInput :=
  mkInput (ofZ 1200) (ofZ 12) 1 (ofZ 12) (ofZ 1) (ofZ 0).

(* ================================================================== *)
(** ** The engine on binary64 Numbers *)
(* ================================================================== *)

(** The same function once more, with every Number an IEEE 754 binary64
    value and every operation rounded as the processor rounds it.  This is
    the model for what depends on rounding, on overflow or on a tenure that
    is not a whole number of years. *)

Module Binary64.

Import Floats.
Local Open Scope float_scope.

(** The Number of an integer below 2^63 in absolute value, rounded to
    nearest; it is the integer itself below 2^53. *)
Definition Z2F (z : Z) : float :=
  match z with
  | Z0 => 0
  | Zpos _ => of_uint63 (Uint63.of_Z z)
  | Zneg p => - of_uint63 (Uint63.of_Z (Zpos p))
  end.

(** [Math.max(a, b)]: [NaN] as soon as one side is, and [+0] above [-0]. *)
Definition Math_max (a b : float) : float :=
  if is_nan a || is_nan b then nan
  else if a <? b then b
  else if b <? a then a
  else if get_sign a then b else a.

(** [Math.abs(a)] *)
Definition Math_abs (a : float) : float := abs a.

(** [a > b] *)
Definition gtb (a b : float) : bool := b <? a.

(** [Math.ceil(month / 12)] for a whole [month]. *)
Definition yearOf (month : Z) : Z := ((month + 11) / 12)%Z.

(** [LoanInput], [MonthlyData] and [SimulationResult] of [types.ts]: every
    field is a [number].  [month] and [year] only ever hold whole numbers
    below 2^32 (the loop counts them, and an array holds fewer snapshots than
    that), which binary64 represents exactly: they are kept as integers. *)
Record LoanInput : Type := {
  principal : float;
  interestRate : float;
  tenureYears : float;
  sipReturnRate : float;
  extraEmiPerYear : float;
  stepUpPercentage : float
}.

Module MonthlyData.
Record t : Type := {
  month : Z;
  year : Z;
  loanBalanceRegular : float;
  loanBalanceAggressive : float;
  sipValueRegular : float;
  sipValueAggressive : float;
  cumulativeInterestRegular : float;
  cumulativeInterestAggressive : float;
  totalInvestedRegular : float;
  totalInvestedAggressive : float
}.
End MonthlyData.

Module Summary.
Record t : Type := {
  regularTotalInterest : float;
  aggressiveTotalInterest : float;
  regularTenureMonths : float;
  aggressiveTenureMonths : float;
  interestSaved : float;
  finalWealthRegular : float;
  finalWealthAggressive : float;
  totalAmountInvestedRegular : float;
  totalAmountInvestedAggressive : float;
  winningStrategy : Strategy;
  netWealthDifference : float
}.
End Summary.

Record SimulationResult : Type := {
  monthlyData : list MonthlyData.t;
  summary : Summary.t
}.

(** The mutable variables of [calculateScenario], declared before its loop. *)
Record LoopState : Type := {
  balanceRegular : float;
  balanceAggressive : float;
  sipValueRegular : float;
  sipValueAggressive : float;
  totalInvestedRegular : float;
  totalInvestedAggressive : float;
  totalInterestRegular : float;
  totalInterestAggressive : float;
  aggressiveClosedMonth : float;
  regularClosedMonth : float;
  isAggressiveClosed : bool;
  isRegularClosed : bool;
  data : list MonthlyData.t
}.

(** Assignments to groups of variables; every other variable keeps its value. *)
Definition withRegularLoan (st : LoopState)
    (balance totalInterest : float) (closed : bool) (closedMonth : float) : LoopState :=
  {| balanceRegular := balance;
     balanceAggressive := balanceAggressive st;
     sipValueRegular := sipValueRegular st;
     sipValueAggressive := sipValueAggressive st;
     totalInvestedRegular := totalInvestedRegular st;
     totalInvestedAggressive := totalInvestedAggressive st;
     totalInterestRegular := totalInterest;
     totalInterestAggressive := totalInterestAggressive st;
     aggressiveClosedMonth := aggressiveClosedMonth st;
     regularClosedMonth := closedMonth;
     isAggressiveClosed := isAggressiveClosed st;
     isRegularClosed := closed;
     data := data st |}.

Definition withRegularSip (st : LoopState) (sipValue totalInvested : float) : LoopState :=
  {| balanceRegular := balanceRegular st;
     balanceAggressive := balanceAggressive st;
     sipValueRegular := sipValue;
     sipValueAggressive := sipValueAggressive st;
     totalInvestedRegular := totalInvested;
     totalInvestedAggressive := totalInvestedAggressive st;
     totalInterestRegular := totalInterestRegular st;
     totalInterestAggressive := totalInterestAggressive st;
     aggressiveClosedMonth := aggressiveClosedMonth st;
     regularClosedMonth := regularClosedMonth st;
     isAggressiveClosed := isAggressiveClosed st;
     isRegularClosed := isRegularClosed st;
     data := data st |}.

Definition withAggressiveLoan (st : LoopState)
    (balance totalInterest : float) (closed : bool) (closedMonth : float) : LoopState :=
  {| balanceRegular := balanceRegular st;
     balanceAggressive := balance;
     sipValueRegular := sipValueRegular st;
     sipValueAggressive := sipValueAggressive st;
     totalInvestedRegular := totalInvestedRegular st;
     totalInvestedAggressive := totalInvestedAggressive st;
     totalInterestRegular := totalInterestRegular st;
     totalInterestAggressive := totalInterest;
     aggressiveClosedMonth := closedMonth;
     regularClosedMonth := regularClosedMonth st;
     isAggressiveClosed := closed;
     isRegularClosed := isRegularClosed st;
     data := data st |}.

Definition withAggressiveSip (st : LoopState) (sipValue totalInvested : float) : LoopState :=
  {| balanceRegular := balanceRegular st;
     balanceAggressive := balanceAggressive st;
     sipValueRegular := sipValueRegular st;
     sipValueAggressive := sipValue;
     totalInvestedRegular := totalInvestedRegular st;
     totalInvestedAggressive := totalInvested;
     totalInterestRegular := totalInterestRegular st;
     totalInterestAggressive := totalInterestAggressive st;
     aggressiveClosedMonth := aggressiveClosedMonth st;
     regularClosedMonth := regularClosedMonth st;
     isAggressiveClosed := isAggressiveClosed st;
     isRegularClosed := isRegularClosed st;
     data := data st |}.

Definition withData (st : LoopState) (d : list MonthlyData.t) : LoopState :=
  {| balanceRegular := balanceRegular st;
     balanceAggressive := balanceAggressive st;
     sipValueRegular := sipValueRegular st;
     sipValueAggressive := sipValueAggressive st;
     totalInvestedRegular := totalInvestedRegular st;
     totalInvestedAggressive := totalInvestedAggressive st;
     totalInterestRegular := totalInterestRegular st;
     totalInterestAggressive := totalInterestAggressive st;
     aggressiveClosedMonth := aggressiveClosedMonth st;
     regularClosedMonth := regularClosedMonth st;
     isAggressiveClosed := isAggressiveClosed st;
     isRegularClosed := isRegularClosed st;
     data := d |}.

(** How a call ends: it returns a value, or [data.push] throws its
    [RangeError] because the array is full, or the call is still running
    when the steps allowed to it are used up. *)
Inductive Completion (A : Type) : Type :=
| Returns (v : A)
| ThrowsRangeError
| OutOfFuel.
Arguments Returns {A} v.
Arguments ThrowsRangeError {A}.
Arguments OutOfFuel {A}.

(** The largest length of an array, 2^32 - 1. *)
Definition maxArrayLength : Z := 4294967295.

Section Scenario.

(** [Math.pow]: ECMAScript leaves its result to the engine
    ("implementation-approximated"), so the function is a parameter. *)
Variable Math_pow : float -> float -> float.

Variable input : LoanInput.

(** Lines 6-11: the constants derived from the input. *)
Definition monthlyRate : float := interestRate input / 12 / 100.
Definition totalMonths : float := tenureYears input * 12.
Definition sipMonthlyRate : float := sipReturnRate input / 12 / 100.

Definition baseEmi : float :=
  (principal input * monthlyRate * Math_pow (1 + monthlyRate) totalMonths)
  / (Math_pow (1 + monthlyRate) totalMonths - 1).

(** Lines 14-31: the state before the first month. *)
Definition initialState : LoopState :=
  {| balanceRegular := principal input;
     balanceAggressive := principal input;
     sipValueRegular := 0;
     sipValueAggressive := 0;
     totalInvestedRegular := 0;
     totalInvestedAggressive := 0;
     totalInterestRegular := 0;
     totalInterestAggressive := 0;
     aggressiveClosedMonth := totalMonths;
     regularClosedMonth := totalMonths;
     isAggressiveClosed := false;
     isRegularClosed := false;
     data := [] |}.

(** Lines 41-45: the stepped-up capacity of the month's year. *)
Definition currentMonthlyBudget (month : Z) : float :=
  if (1 <? yearOf month)%Z then
    let increaseFactor := 1 + stepUpPercentage input / 100 in
    baseEmi * Math_pow increaseFactor (Z2F (yearOf month - 1))
  else baseEmi.

(** Lines 48-51: the lump sum of a year-end month. *)
Definition extraPaymentBudget (month : Z) : float :=
  if (0 <? extraEmiPerYear input) && (Z.rem month 12 =? 0)%Z then
    baseEmi * extraEmiPerYear input
  else 0.

(** Line 53. *)
Definition totalBudgetThisMonth (month : Z) : float :=
  currentMonthlyBudget month + extraPaymentBudget month.

(** Lines 59-71: Strategy A, loan part. *)
Definition regularLoanPart (month : Z) (st : LoopState) : LoopState :=
  if negb (isRegularClosed st) then
    let interest := balanceRegular st * monthlyRate in
    let principalComp := baseEmi - interest in
    if balanceRegular st - principalComp <? 0 then
      withRegularLoan st
        (balanceRegular st - balanceRegular st)
        (totalInterestRegular st + interest)
        true (Z2F month)
    else
      withRegularLoan st
        (balanceRegular st - principalComp)
        (totalInterestRegular st + interest)
        (isRegularClosed st) (regularClosedMonth st)
  else st.

(** Line 76: read after the loan part has run, so [isRegularClosed] is already
    set in the month the loan closes. *)
Definition surplusRegular (month : Z) (st : LoopState) : float :=
  totalBudgetThisMonth month - (if isRegularClosed st then 0 else baseEmi).

(** Lines 81-86 and 124-129: one month of the investment, with the amount
    offered to it. *)
Definition sipGrowth (sipValue totalInvested amount : float) : float * float :=
  if 0 <? amount then
    ((sipValue + amount) * (1 + sipMonthlyRate), totalInvested + amount)
  else
    (sipValue * (1 + sipMonthlyRate), totalInvested).

(** Lines 76-86: Strategy A, investment part. *)
Definition regularInvestmentPart (month : Z) (st : LoopState) : LoopState :=
  let '(sipValue, totalInvested) :=
    sipGrowth (sipValueRegular st) (totalInvestedRegular st) (surplusRegular month st) in
  withRegularSip st sipValue totalInvested.

(** Lines 92-121: Strategy B, loan part; the second component is
    [amountForSipAggressive]. *)
Definition aggressiveLoanPart (month : Z) (st : LoopState) : LoopState * float :=
  if negb (isAggressiveClosed st) then
    let amountForLoanAggressive := totalBudgetThisMonth month in
    let interest := balanceAggressive st * monthlyRate in
    let principalComp := amountForLoanAggressive - interest in
    if balanceAggressive st - principalComp <? 0 then
      let actualNeeded := balanceAggressive st + interest in
      (withAggressiveLoan st
         (balanceAggressive st - balanceAggressive st)
         (totalInterestAggressive st + interest)
         true (Z2F month),
       totalBudgetThisMonth month - actualNeeded)
    else
      (withAggressiveLoan st
         (balanceAggressive st - principalComp)
         (totalInterestAggressive st + interest)
         (isAggressiveClosed st) (aggressiveClosedMonth st),
       0)
  else (st, totalBudgetThisMonth month).

(** Lines 124-129: Strategy B, investment part. *)
Definition aggressiveInvestmentPart (amountForSipAggressive : float) (st : LoopState)
    : LoopState :=
  let '(sipValue, totalInvested) :=
    sipGrowth (sipValueAggressive st) (totalInvestedAggressive st) amountForSipAggressive in
  withAggressiveSip st sipValue totalInvested.

(** Lines 131-142: the month's snapshot. *)
Definition snapshot (month : Z) (st : LoopState) : MonthlyData.t :=
  {| MonthlyData.month := month;
     MonthlyData.year := yearOf month;
     MonthlyData.loanBalanceRegular := Math_max 0 (balanceRegular st);
     MonthlyData.loanBalanceAggressive := Math_max 0 (balanceAggressive st);
     MonthlyData.sipValueRegular := sipValueRegular st;
     MonthlyData.sipValueAggressive := sipValueAggressive st;
     MonthlyData.cumulativeInterestRegular := totalInterestRegular st;
     MonthlyData.cumulativeInterestAggressive := totalInterestAggressive st;
     MonthlyData.totalInvestedRegular := totalInvestedRegular st;
     MonthlyData.totalInvestedAggressive := totalInvestedAggressive st |}.

(** Lines 34-142: the body of the loop, up to the [push]. *)
Definition loopBody (st : LoopState) (month : Z) : LoopState :=
  let st1 := regularLoanPart month st in
  let st2 := regularInvestmentPart month st1 in
  let '(st3, amountForSipAggressive) := aggressiveLoanPart month st2 in
  let st4 := aggressiveInvestmentPart amountForSipAggressive st3 in
  withData st4 (data st4 ++ [snapshot month st4]).

(** Line 33: the loop, from month [month] and state [st].  Each turn tests
    [month <= totalMonths], runs the body and pushes the snapshot, which
    throws on an array of [maxArrayLength] elements. *)
Fixpoint runLoop (fuel : nat) (month : Z) (st : LoopState) : Completion LoopState :=
  match fuel with
  | O => OutOfFuel
  | S fuel' =>
      if Z2F month <=? totalMonths then
        if (Z.of_nat (length (data st)) <? maxArrayLength)%Z then
          runLoop fuel' (month + 1)%Z (loopBody st month)
        else ThrowsRangeError
      else Returns st
  end.

(** Lines 151-173. *)
Definition summaryOf (st : LoopState) : Summary.t :=
  let finalWealthRegular := sipValueRegular st - Math_max 0 (balanceRegular st) in
  let finalWealthAggressive := sipValueAggressive st - Math_max 0 (balanceAggressive st) in
  let netWealthDifference := Math_abs (finalWealthAggressive - finalWealthRegular) in
  let winningStrategy :=
    if gtb finalWealthAggressive finalWealthRegular then Prepay else Invest in
  {| Summary.regularTotalInterest := totalInterestRegular st;
     Summary.aggressiveTotalInterest := totalInterestAggressive st;
     Summary.regularTenureMonths := regularClosedMonth st;
     Summary.aggressiveTenureMonths := aggressiveClosedMonth st;
     Summary.interestSaved := totalInterestRegular st - totalInterestAggressive st;
     Summary.finalWealthRegular := finalWealthRegular;
     Summary.finalWealthAggressive := finalWealthAggressive;
     Summary.totalAmountInvestedRegular := totalInvestedRegular st;
     Summary.totalAmountInvestedAggressive := totalInvestedAggressive st;
     Summary.winningStrategy := winningStrategy;
     Summary.netWealthDifference := netWealthDifference |}.

Definition resultOf (st : LoopState) : SimulationResult :=
  {| monthlyData := data st; summary := summaryOf st |}.

(** The call, allowed [fuel] turns of the loop. *)
Definition calculateScenario (fuel : nat) : Completion SimulationResult :=
  match runLoop fuel 1 initialState with
  | Returns st => Returns (resultOf st)
  | ThrowsRangeError => ThrowsRangeError
  | OutOfFuel => OutOfFuel
  end.

(** The months [first], [first + 1], ... , [count] of them. *)
Definition monthsFrom (first : Z) (count : nat) : list Z :=
  map (fun i => (first + Z.of_nat i)%Z) (seq 0 count).

(** The variables after the loop body has run for the months of a list. *)
Definition runMonths (st : LoopState) (months : list Z) : LoopState :=
  fold_left loopBody months st.

(** The variables after the first [k] months. *)
Definition stateAfter (k : nat) : LoopState :=
  runMonths initialState (monthsFrom 1 k).

(** A recorded closing month is the initial [totalMonths] or one of the
    first [k] months. *)
Definition closedMonthRecorded (k : nat) (closedMonth : float) : Prop :=
  closedMonth = totalMonths
  \/ exists m : Z, (1 <= m <= Z.of_nat k)%Z /\ closedMonth = Z2F m.

End Scenario.

(** The constraints the specification puts on a [LoanInput]. *)
Definition validInput (input : LoanInput) : bool :=
  is_finite (principal input) && (0 <? principal input)
  && is_finite (interestRate input) && (0 <=? interestRate input)
  && is_finite (tenureYears input) && (0 <? tenureYears input)
  && is_finite (sipReturnRate input) && (0 <=? sipReturnRate input)
  && is_finite (extraEmiPerYear input) && (0 <=? extraEmiPerYear input)
  && is_finite (stepUpPercentage input) && (0 <=? stepUpPercentage input).


(** The variables of each track, read together. *)
Definition regularLoan (st : LoopState) : float * float * bool * float :=
  (balanceRegular st, totalInterestRegular st, isRegularClosed st, regularClosedMonth st).
Definition regularSip (st : LoopState) : float * float :=
  (sipValueRegular st, totalInvestedRegular st).
Definition aggressiveLoan (st : LoopState) : float * float * bool * float :=
  (balanceAggressive st, totalInterestAggressive st, isAggressiveClosed st,
   aggressiveClosedMonth st).
Definition aggressiveSip (st : LoopState) : float * float :=
  (sipValueAggressive st, totalInvestedAggressive st).

Definition mkInput (p r t s e u : float) : LoanInput :=
  {| principal := p; interestRate := r; tenureYears := t;
     sipReturnRate := s; extraEmiPerYear := e; stepUpPercentage := u |}.

(** A Number that is not negative: 0, a positive number or [NaN]. *)
Definition notNegative (x : float) : Prop := (x <? 0) = false.

(** The same, read on the sign and class of the number. *)
Definition notNegativeSF (p : spec_float) : Prop :=
  match p with
  | S754_infinity true | S754_finite true _ _ => False
  | _ => True
  end.

(** Neither loan owes a negative balance or has paid negative interest, and
    neither investment holds or has received a negative amount. *)
Definition figuresNotNegative (st : LoopState) : Prop :=
  notNegative (balanceRegular st) /\ notNegative (totalInterestRegular st)
  /\ notNegative (sipValueRegular st) /\ notNegative (totalInvestedRegular st)
  /\ notNegative (balanceAggressive st) /\ notNegative (totalInterestAggressive st)
  /\ notNegative (sipValueAggressive st) /\ notNegative (totalInvestedAggressive st).

(** The same of the figures of a snapshot. *)
Definition snapshotNotNegative (d : MonthlyData.t) : Prop :=
  notNegative (MonthlyData.loanBalanceRegular d)
  /\ notNegative (MonthlyData.cumulativeInterestRegular d)
  /\ notNegative (MonthlyData.sipValueRegular d)
  /\ notNegative (MonthlyData.totalInvestedRegular d)
  /\ notNegative (MonthlyData.loanBalanceAggressive d)
  /\ notNegative (MonthlyData.cumulativeInterestAggressive d)
  /\ notNegative (MonthlyData.sipValueAggressive d)
  /\ notNegative (MonthlyData.totalInvestedAggressive d).

(** *** A [Math.pow] for concrete runs *)

(** The integer a Number is, if it is one. *)
Definition toInteger (y : float) : option Z :=
  match Prim2SF y with
  | S754_zero _ => Some 0%Z
  | S754_finite s m (Zneg p) =>
      if (Zpos m mod 2 ^ Zpos p =? 0)%Z
      then Some (cond_Zopp s (Zpos m / 2 ^ Zpos p))%Z
      else None
  | S754_finite s m e => Some (cond_Zopp s (Zpos m * 2 ^ e))%Z
  | _ => None
  end.

(** [m * 2^e], rounded to nearest, ties to even. *)
Definition roundToNearest (m e : Z) : float :=
  SF2Prim (binary_normalize prec emax m e false).

(** [1 / (m * 2^e)] for [m <> 0], rounded to nearest: the quotient is taken
    with 64 bits and one more that records a remainder. *)
Definition roundInverse (m e : Z) : float :=
  let k := (Z.log2 (Z.abs m) + 64)%Z in
  let q := (Z.shiftl 1 k / Z.abs m)%Z in
  let sticky := if (Z.shiftl 1 k mod Z.abs m =? 0)%Z then 0%Z else 1%Z in
  roundToNearest (Z.sgn m * (2 * q + sticky)) (- k - 1 - e).

(** A signed zero or infinity: the sign is negative when [negative] holds. *)
Definition signedZero (negative : bool) : float := if negative then neg_zero else 0.
Definition signedInfinity (negative : bool) : float :=
  if negative then neg_infinity else infinity.

(** [Math.pow(x, y)] where [y] is a whole number: the ECMAScript special
    cases, and otherwise the exact power rounded once to nearest, which is
    what a [Math.pow] accurate to the last bit returns.  Where [y] is not a
    whole number this instance gives [NaN]; no run below takes it there. *)
Definition powInt (x y : float) : float :=
  if is_nan y then nan
  else match toInteger y with
  | None => nan
  | Some Z0 => 1
  | Some n =>
      match Prim2SF x with
      | S754_nan => nan
      | S754_finite s m e =>
          let power := (cond_Zopp s (Zpos m) ^ Z.abs n)%Z in
          if (0 <? n)%Z then roundToNearest power (e * Z.abs n)
          else roundInverse power (e * Z.abs n)
      | S754_zero s =>
          if (0 <? n)%Z then signedZero (s && Z.odd n)
          else signedInfinity (s && Z.odd n)
      | S754_infinity s =>
          if (0 <? n)%Z then signedInfinity (s && Z.odd n)
          else signedZero (s && Z.odd n)
      end
  end.

(** *** Concrete scenarios *)

(** 1,000 over one year at 10 %, invested at 12 %, no extra capacity. *)
Definition flatYearInput : LoanInput := mkInput 1000 10 1 12 0 0.

(** A negative loan at negative rates: three of the four conditions under
    which the specification asks for a rejection. *)
Definition invalidInput : LoanInput := mkInput (-1000) (-10) 1 (-12) 0 0.


(** The variables of the flat year after its first eleven months. *)
Definition flatYearMonth11 : LoopState := stateAfter powInt flatYearInput 11.

(** A sixteenth of a year, less than one month: [tenureYears * 12] is
    0.75. *)
Definition partMonthInput : LoanInput := mkInput 1000 10 0x1p-4 12 0 0.

(** A year and a half: [tenureYears * 12] is 18. *)
Definition yearAndHalfInput : LoanInput := mkInput 1000 10 0x1.8p+0 12 0 0.

(** A loan that is never due. *)
Definition endlessInput : LoanInput := mkInput 1000 10 infinity 12 0 0.

(** 120,000 over one year at 0 %. *)
Definition zeroRateYearInput : LoanInput := mkInput 120000 0 1 12 0 0.

(** The variables of the flat year at its end, both loans closed. *)
Definition flatYearMonth12 : LoopState := stateAfter powInt flatYearInput 12.

End Binary64.

(* ================================================================== *)
(** ** The page that shows a result: [App.tsx] *)
(* ================================================================== *)

(** A [Record<number, MonthlyData>] with integer keys, as the list of its
    properties in the order [Object.values] visits them: the keys that are
    array indices (0 .. 2^32 - 2) in ascending order first, then the others in
    the order they were created. *)
Definition isArrayIndex (k : Z) : bool := (0 <=? k)%Z && (k <? 4294967295)%Z.

Definition hasKey (k : Z) (o : list (Z * Binary64.MonthlyData.t)) : bool :=
  existsb (fun e => (fst e =? k)%Z) o.

(** Assigning to a key the object has keeps the key's place. *)
Fixpoint replaceKey (k : Z) (v : Binary64.MonthlyData.t)
    (o : list (Z * Binary64.MonthlyData.t)) : list (Z * Binary64.MonthlyData.t) :=
  match o with
  | [] => []
  | (k', v') :: rest =>
      if (k' =? k)%Z then (k, v) :: rest else (k', v') :: replaceKey k v rest
  end.

(** A new array-index key goes after the smaller array-index keys. *)
Fixpoint insertIndexKey (k : Z) (v : Binary64.MonthlyData.t)
    (o : list (Z * Binary64.MonthlyData.t)) : list (Z * Binary64.MonthlyData.t) :=
  match o with
  | [] => [(k, v)]
  | (k', v') :: rest =>
      if isArrayIndex k' && (k' <? k)%Z then (k', v') :: insertIndexKey k v rest
      else (k, v) :: o
  end.

(** [o[k] = v] *)
Definition objSet (k : Z) (v : Binary64.MonthlyData.t)
    (o : list (Z * Binary64.MonthlyData.t)) : list (Z * Binary64.MonthlyData.t) :=
  if hasKey k o then replaceKey k v o
  else if isArrayIndex k then insertIndexKey k v o
  else o ++ [(k, v)].

(** [Object.values(o)] *)
Definition objValues (o : list (Z * Binary64.MonthlyData.t))
    : list Binary64.MonthlyData.t :=
  map snd o.

(** [rows.sort((a, b) => a.year - b.year)]: the sort is stable, so a row goes
    before the first row of a later year. *)
Fixpoint insertByYear (d : Binary64.MonthlyData.t) (l : list Binary64.MonthlyData.t)
    : list Binary64.MonthlyData.t :=
  match l with
  | [] => [d]
  | e :: rest =>
      if (Binary64.MonthlyData.year e <=? Binary64.MonthlyData.year d)%Z
      then e :: insertByYear d rest
      else d :: l
  end.

Definition sortByYear (l : list Binary64.MonthlyData.t) : list Binary64.MonthlyData.t :=
  fold_left (fun sorted d => insertByYear d sorted) l [].

(** Lines 133-136: the grouping of the snapshots by year. *)
Definition groupByYear (rows : list Binary64.MonthlyData.t)
    : list (Z * Binary64.MonthlyData.t) :=
  fold_left (fun acc curr => objSet (Binary64.MonthlyData.year curr) curr acc) rows [].

(** Lines 131-138: the rows of the yearly table; [None] is the [null] result
    the page starts with. *)
Definition yearlyBreakdown (result : option Binary64.SimulationResult)
    : list Binary64.MonthlyData.t :=
  match result with
  | None => []
  | Some r => sortByYear (objValues (groupByYear (Binary64.monthlyData r)))
  end.

(** The number of years a run of [n] months reaches into, and the last
    month it has in year [y]. *)
Definition yearsOf (n : nat) : nat := Z.to_nat (Binary64.yearOf (Z.of_nat n)).
Definition yearEndMonth (n : nat) (y : Z) : Z := Z.min (12 * y) (Z.of_nat n).

(** The year-end properties of a run of [n] months whose month [m] has the
    row [row m], keyed by year. *)
Definition yearEnds (row : Z -> Binary64.MonthlyData.t) (n : nat)
    : list (Z * Binary64.MonthlyData.t) :=
  map (fun y => (y, row (yearEndMonth n y))) (Binary64.monthsFrom 1 (yearsOf n)).

(** *** The input fields *)

(** A JavaScript string, as the list of its UTF-16 code units. *)
Definition JsString : Type := list Z.

(** [\d]: the code units of "0" .. "9". *)
Definition isDigit (c : Z) : bool := (48 <=? c)%Z && (c <=? 57)%Z.

(** The code unit of ".". *)
Definition isDot (c : Z) : bool := (c =? 46)%Z.

Fixpoint takeDigits (s : JsString) : JsString :=
  match s with
  | c :: rest => if isDigit c then c :: takeDigits rest else []
  | [] => []
  end.

Fixpoint dropDigits (s : JsString) : JsString :=
  match s with
  | c :: rest => if isDigit c then dropDigits rest else s
  | [] => []
  end.

(** Line 42: [/^\d*\.?\d*$/.test(s)]: digits, at most one dot, digits. *)
Definition matchesDecimal (s : JsString) : bool :=
  match dropDigits s with
  | [] => true
  | c :: rest => isDot c && forallb isDigit rest
  end.

(** The number a string of decimal digits denotes; 0 for no digit. *)
Definition digitsValue (ds : JsString) : Z :=
  fold_left (fun acc c => (10 * acc + (c - 48))%Z) ds 0%Z.

(** Line 48: [parseFloat(s)] on a string the pattern of line 42 accepts, the
    only strings it is called on: [NaN] when there is no digit at all,
    otherwise the decimal number written, taken exactly.  The rounding of
    that number to binary64, and the [Infinity] of one too large for it, are
    left out; neither result is [NaN] or negative. *)
Definition parseFloatDecimal (s : JsString) : num :=
  let whole := takeDigits s in
  let fraction :=
    match dropDigits s with
    | [] => []
    | _ :: rest => takeDigits rest
    end in
  match whole, fraction with
  | [], [] => NaN
  | _, _ =>
      Fin (Q2Qc (inject_Z (digitsValue whole))
           + Q2Qc (inject_Z (digitsValue fraction))
             / Q2Qc (inject_Z (10 ^ Z.of_nat (length fraction))))%Qc
  end.

(** What a change of an input field does: the text it displays from now on,
    if it changes, and the value it reports through [onChange], if any. *)
Record FieldChange : Type := {
  displayed : option JsString;
  reported : option num
}.

(** Lines 31-52: [handleChange] of a field with lower bound [min], on the
    text [rawVal] of the field. *)
Definition handleChange (min : num) (rawVal : JsString) : FieldChange :=
  match rawVal with
  | [] => {| displayed := Some []; reported := Some zero |}
  | _ =>
      if negb (matchesDecimal rawVal) then {| displayed := None; reported := None |}
      else
        let numVal := parseFloatDecimal rawVal in
        {| displayed := Some rawVal;
           reported :=
             if negb (isNaN numVal) && (min <=? numVal) then Some numVal else None |}
  end.

(** The code units of "12.5", of "-5" and of ".". *)
Definition text_12_5 : JsString := [49; 50; 46; 53]%Z.
Definition text_minus_5 : JsString := [45; 53]%Z.
Definition text_dot : JsString := [46]%Z.

(* ================================================================== *)
(** ** Properties *)
(* ================================================================== *)

(** *** Arithmetic of Numbers *)

(** The special values behave as in JavaScript. *)
Example zero_over_zero : zero / zero = NaN.
Proof. reflexivity. Qed.

Example one_over_zero : one / zero = PInf.
Proof. reflexivity. Qed.

Example max_of_NaN : max zero NaN = NaN.
Proof. reflexivity. Qed.

Example NaN_not_le_NaN : (NaN <=? NaN) = false.
Proof. reflexivity. Qed.

Example pow_NaN_zero : pow NaN 0 = one.
Proof. reflexivity. Qed.

(** 1,200 at 1 % a month over 12 months: an installment of about 106.62. *)
Example flatYear_installment :
  (ofZ 106 <? baseEmi flatYearInput) && (baseEmi flatYearInput <? ofZ 107) = true.
Proof. vm_compute. reflexivity. Qed.

Lemma sub_NaN_r a : a - NaN = NaN.
Proof. destruct a; reflexivity. Qed.
Lemma mul_one_r a : a * one = a.
Proof. destruct a; try reflexivity. cbn. f_equal. ring. Qed.
Lemma add_zero_r a : a + zero = a.
Proof. destruct a; try reflexivity. cbn. f_equal. ring. Qed.
Lemma lt_irrefl a : (a <? a) = false.
Proof.
  destruct a; try reflexivity. cbn.
  destruct (q ?= q)%Qc eqn:E; try reflexivity.
  apply Qclt_alt in E. now apply Qclt_not_eq in E.
Qed.
Lemma powNat_Fin q n : powNat (Fin q) n = Fin (q ^ n)%Qc.
Proof. induction n; cbn; [reflexivity|]. rewrite IHn. reflexivity. Qed.

Lemma ceilDiv_12_bounds m : (12 * (ceilDiv m 12 - 1) < m <= 12 * ceilDiv m 12)%Z.
Proof.
  unfold ceilDiv.
  pose proof (Qle_ceiling (inject_Z m / inject_Z 12)%Q) as Hle.
  pose proof (Qceiling_lt (inject_Z m / inject_Z 12)%Q) as Hlt.
  set (c := Qceiling (inject_Z m / inject_Z 12)%Q) in *.
  clearbody c.
  unfold Qle, Qlt, Qdiv, Qmult, Qinv, inject_Z in Hle, Hlt; cbn in Hle, Hlt. lia.
Qed.

Lemma yearOf_first m : (1 <= m <= 12)%Z -> ceilDiv m 12 = 1%Z.
Proof. intros H. pose proof (ceilDiv_12_bounds m). lia. Qed.

Lemma pow_Fin_pos q z : (0 <= z)%Z -> pow (Fin q) z = Fin (q ^ Z.to_nat z)%Qc.
Proof.
  intros Hz. destruct z as [|p|p]; cbn; [reflexivity| |lia].
  apply powNat_Fin.
Qed.

(** *** The loop body, track by track *)

Section BodyFacts.
Variable input : LoanInput.

Lemma regularLoanPart_frame m st :
  regularSip (regularLoanPart input m st) = regularSip st
  /\ aggressiveLoan (regularLoanPart input m st) = aggressiveLoan st
  /\ aggressiveSip (regularLoanPart input m st) = aggressiveSip st
  /\ data (regularLoanPart input m st) = data st.
Proof.
  unfold regularLoanPart.
  destruct (negb (isRegularClosed st)); [|now repeat split].
  destruct (_ <? _); now repeat split.
Qed.

Lemma regularInvestmentPart_frame m st :
  regularLoan (regularInvestmentPart input m st) = regularLoan st
  /\ aggressiveLoan (regularInvestmentPart input m st) = aggressiveLoan st
  /\ aggressiveSip (regularInvestmentPart input m st) = aggressiveSip st
  /\ data (regularInvestmentPart input m st) = data st.
Proof.
  unfold regularInvestmentPart. destruct (sipGrowth _ _ _ _). now repeat split.
Qed.

Lemma regularInvestmentPart_sip m st :
  regularSip (regularInvestmentPart input m st)
  = sipGrowth input (sipValueRegular st) (totalInvestedRegular st) (surplusRegular input m st).
Proof.
  unfold regularInvestmentPart. now destruct (sipGrowth _ _ _ _).
Qed.

Lemma aggressiveLoanPart_frame m st :
  regularLoan (fst (aggressiveLoanPart input m st)) = regularLoan st
  /\ regularSip (fst (aggressiveLoanPart input m st)) = regularSip st
  /\ aggressiveSip (fst (aggressiveLoanPart input m st)) = aggressiveSip st
  /\ data (fst (aggressiveLoanPart input m st)) = data st.
Proof.
  unfold aggressiveLoanPart.
  destruct (negb (isAggressiveClosed st)); [|now repeat split].
  destruct (_ <? _); now repeat split.
Qed.

(** The aggressive loan part reads the aggressive loan variables only. *)
Lemma aggressiveLoanPart_reads m st st' :
  aggressiveLoan st = aggressiveLoan st' ->
  aggressiveLoan (fst (aggressiveLoanPart input m st))
  = aggressiveLoan (fst (aggressiveLoanPart input m st'))
  /\ snd (aggressiveLoanPart input m st) = snd (aggressiveLoanPart input m st').
Proof.
  unfold aggressiveLoan, aggressiveLoanPart. intros H. injection H as Hb Hi Hc Hm.
  rewrite Hb, Hi, Hc, Hm.
  destruct (negb (isAggressiveClosed st')); [|now split; cbn; congruence].
  destruct (_ <? _); now split.
Qed.

Lemma aggressiveInvestmentPart_frame a st :
  regularLoan (aggressiveInvestmentPart input a st) = regularLoan st
  /\ regularSip (aggressiveInvestmentPart input a st) = regularSip st
  /\ aggressiveLoan (aggressiveInvestmentPart input a st) = aggressiveLoan st
  /\ data (aggressiveInvestmentPart input a st) = data st.
Proof.
  unfold aggressiveInvestmentPart. destruct (sipGrowth _ _ _ _). now repeat split.
Qed.

Lemma aggressiveInvestmentPart_sip a st :
  aggressiveSip (aggressiveInvestmentPart input a st)
  = sipGrowth input (sipValueAggressive st) (totalInvestedAggressive st) a.
Proof.
  unfold aggressiveInvestmentPart. now destruct (sipGrowth _ _ _ _).
Qed.

Lemma loopBody_regularLoan st m :
  regularLoan (loopBody input st m) = regularLoan (regularLoanPart input m st).
Proof.
  unfold loopBody.
  destruct (aggressiveLoanPart input m _) as [st3 a] eqn:E.
  change (regularLoan (aggressiveInvestmentPart input a st3) = regularLoan (regularLoanPart input m st)).
  rewrite (proj1 (aggressiveInvestmentPart_frame a st3)).
  replace st3 with (fst (aggressiveLoanPart input m (regularInvestmentPart input m (regularLoanPart input m st))))
    by now rewrite E.
  rewrite (proj1 (aggressiveLoanPart_frame _ _)).
  apply regularInvestmentPart_frame.
Qed.

Lemma loopBody_regularSip st m :
  regularSip (loopBody input st m)
  = sipGrowth input (sipValueRegular st) (totalInvestedRegular st)
      (surplusRegular input m (regularLoanPart input m st)).
Proof.
  unfold loopBody.
  destruct (aggressiveLoanPart input m _) as [st3 a] eqn:E.
  change (regularSip (aggressiveInvestmentPart input a st3) = 
     sipGrowth input (sipValueRegular st) (totalInvestedRegular st)
      (surplusRegular input m (regularLoanPart input m st))).
  rewrite (proj1 (proj2 (aggressiveInvestmentPart_frame a st3))).
  replace st3 with (fst (aggressiveLoanPart input m (regularInvestmentPart input m (regularLoanPart input m st))))
    by now rewrite E.
  rewrite (proj1 (proj2 (aggressiveLoanPart_frame _ _))).
  rewrite regularInvestmentPart_sip.
  pose proof (proj1 (regularLoanPart_frame m st)) as H. unfold regularSip in H.
  injection H as -> ->. reflexivity.
Qed.

Lemma aggressiveLoan_before m st :
  aggressiveLoan (regularInvestmentPart input m (regularLoanPart input m st)) = aggressiveLoan st.
Proof.
  rewrite (proj1 (proj2 (regularInvestmentPart_frame _ _))).
  apply regularLoanPart_frame.
Qed.

Lemma loopBody_aggressiveLoan st m :
  aggressiveLoan (loopBody input st m) = aggressiveLoan (fst (aggressiveLoanPart input m st)).
Proof.
  unfold loopBody.
  destruct (aggressiveLoanPart input m _) as [st3 a] eqn:E.
  change (aggressiveLoan (aggressiveInvestmentPart input a st3)
          = aggressiveLoan (fst (aggressiveLoanPart input m st))).
  rewrite (proj1 (proj2 (proj2 (aggressiveInvestmentPart_frame a st3)))).
  replace st3 with (fst (aggressiveLoanPart input m (regularInvestmentPart input m (regularLoanPart input m st))))
    by now rewrite E.
  apply aggressiveLoanPart_reads, aggressiveLoan_before.
Qed.

Lemma loopBody_aggressiveSip st m :
  aggressiveSip (loopBody input st m)
  = sipGrowth input (sipValueAggressive st) (totalInvestedAggressive st)
      (snd (aggressiveLoanPart input m st)).
Proof.
  unfold loopBody.
  destruct (aggressiveLoanPart input m _) as [st3 a] eqn:E.
  change (aggressiveSip (aggressiveInvestmentPart input a st3)
          = sipGrowth input (sipValueAggressive st) (totalInvestedAggressive st)
      (snd (aggressiveLoanPart input m st))).
  rewrite aggressiveInvestmentPart_sip.
  assert (Ha : a = snd (aggressiveLoanPart input m st)).
  { rewrite <- (proj2 (aggressiveLoanPart_reads m _ _ (aggressiveLoan_before m st))).
    now rewrite E. }
  assert (Hs : aggressiveSip st3 = aggressiveSip st).
  { replace st3 with (fst (aggressiveLoanPart input m (regularInvestmentPart input m (regularLoanPart input m st))))
      by now rewrite E.
    rewrite (proj1 (proj2 (proj2 (aggressiveLoanPart_frame _ _)))).
    rewrite (proj1 (proj2 (proj2 (regularInvestmentPart_frame _ _)))).
    apply regularLoanPart_frame. }
  unfold aggressiveSip in Hs. injection Hs as -> ->. now rewrite Ha.
Qed.

Lemma loopBody_data st m :
  data (loopBody input st m) = data st ++ [snapshot m (loopBody input st m)].
Proof.
  unfold loopBody.
  destruct (aggressiveLoanPart input m _) as [st3 a] eqn:E.
  cbn [data withData]. f_equal.
  rewrite (proj2 (proj2 (proj2 (aggressiveInvestmentPart_frame a st3)))).
  replace st3 with (fst (aggressiveLoanPart input m (regularInvestmentPart input m (regularLoanPart input m st))))
    by now rewrite E.
  rewrite (proj2 (proj2 (proj2 (aggressiveLoanPart_frame _ _)))).
  rewrite (proj2 (proj2 (proj2 (regularInvestmentPart_frame _ _)))).
  apply regularLoanPart_frame.
Qed.

End BodyFacts.

(** *** Comparisons of finite numbers *)

Ltac qc2q :=
  unfold Qclt, Qcle, Qcminus, Qcopp, Qcdiv, Qcinv, Qcplus, Qcmult, Q2Qc in *;
  cbn [this] in *;
  repeat (rewrite ?Qred_correct in * ).

Lemma lt_Fin x y : (Fin x <? Fin y) = true <-> (x < y)%Qc.
Proof.
  cbn. rewrite Qclt_alt. destruct (x ?= y)%Qc; split; congruence.
Qed.

Lemma lt_Fin_false x y : (Fin x <? Fin y) = false <-> (y <= x)%Qc.
Proof.
  cbn. rewrite Qcle_alt. unfold Qccompare.
  rewrite <- (Qcompare_antisym x y).
  destruct (Qcompare x y); cbn; split; congruence.
Qed.

Lemma le_Fin x y : (Fin x <=? Fin y) = true <-> (x <= y)%Qc.
Proof.
  cbn. rewrite Qcle_alt. destruct (x ?= y)%Qc; split; congruence.
Qed.

Lemma gt_Fin x y : (Fin x >? Fin y) = true <-> (y < x)%Qc.
Proof. apply lt_Fin. Qed.

Lemma abs_not_negative a : (abs a <? zero) = false.
Proof.
  destruct a; try reflexivity. unfold abs, sgn, zero.
  destruct (q ?= 0)%Qc eqn:E; apply lt_Fin_false.
  - apply Qceq_alt in E. subst. apply Qcle_refl.
  - apply Qclt_alt in E. qc2q. lra.
  - apply Qcgt_alt in E. qc2q. lra.
Qed.

Lemma eqb_not_gt a b : eqb a b = true -> (a >? b) = false.
Proof.
  destruct a, b; try discriminate; try reflexivity.
  cbn. destruct (q ?= q0)%Qc eqn:E; try discriminate. intros _.
  apply Qceq_alt in E. subst. 
  destruct (q0 ?= q0)%Qc eqn:E; try reflexivity.
  apply Qclt_alt in E. now apply Qclt_not_eq in E.
Qed.

(** *** The verdict *)

(** C4: the winner is "Prepay" exactly when [finalWealthAggressive] is
    strictly greater than [finalWealthRegular]; equal final wealths give
    "Invest"; [netWealthDifference] is the absolute value of the difference,
    hence never negative.  This holds for every input, valid or not. *)
Theorem winningStrategy_strict_comparison (input : LoanInput) :
  let s := summary (calculateScenario input) in
  let fwR := Summary.finalWealthRegular s in
  let fwA := Summary.finalWealthAggressive s in
  (Summary.winningStrategy s = Prepay <-> (fwA >? fwR) = true)
  /\ (fwA = fwR -> Summary.winningStrategy s = Invest)
  /\ (eqb fwA fwR = true -> Summary.winningStrategy s = Invest)
  /\ Summary.netWealthDifference s = abs (fwA - fwR)
  /\ (Summary.netWealthDifference s <? zero) = false.
Proof.
  cbn -[sub gt abs max lt].
  set (fwR := sipValueRegular _ - max zero _).
  set (fwA := sipValueAggressive _ - max zero _).
  repeat split.
  - destruct (fwA >? fwR); [reflexivity|discriminate].
  - intros ->. reflexivity.
  - intros ->. unfold gt. now rewrite lt_irrefl.
  - intros H. now rewrite (eqb_not_gt _ _ H).
  - apply abs_not_negative.
Qed.

(** *** The loop as a whole *)

Section LoopFacts.
Variable input : LoanInput.

Lemma runMonths_cons st m ms :
  runMonths input st (m :: ms) = runMonths input (loopBody input st m) ms.
Proof. reflexivity. Qed.

Lemma runMonths_app st ms m :
  runMonths input st (ms ++ [m]) = loopBody input (runMonths input st ms) m.
Proof. unfold runMonths. now rewrite fold_left_app. Qed.

Lemma runMonths_months st ms :
  map MonthlyData.month (data (runMonths input st ms))
  = map MonthlyData.month (data st) ++ ms.
Proof.
  revert st. induction ms as [|m ms IH]; intros st.
  - cbn. now rewrite app_nil_r.
  - rewrite runMonths_cons, IH, loopBody_data, map_app, <- app_assoc. reflexivity.
Qed.

Lemma isRegularClosed_loopBody st m :
  isRegularClosed (loopBody input st m) = isRegularClosed (regularLoanPart input m st).
Proof.
  pose proof (loopBody_regularLoan input st m) as H. unfold regularLoan in H.
  now injection H.
Qed.

Lemma regularClosedMonth_loopBody st m :
  regularClosedMonth (loopBody input st m) = regularClosedMonth (regularLoanPart input m st).
Proof.
  pose proof (loopBody_regularLoan input st m) as H. unfold regularLoan in H.
  now injection H.
Qed.

Lemma isAggressiveClosed_loopBody st m :
  isAggressiveClosed (loopBody input st m)
  = isAggressiveClosed (fst (aggressiveLoanPart input m st)).
Proof.
  pose proof (loopBody_aggressiveLoan input st m) as H. unfold aggressiveLoan in H.
  now injection H.
Qed.

Lemma aggressiveClosedMonth_loopBody st m :
  aggressiveClosedMonth (loopBody input st m)
  = aggressiveClosedMonth (fst (aggressiveLoanPart input m st)).
Proof.
  pose proof (loopBody_aggressiveLoan input st m) as H. unfold aggressiveLoan in H.
  now injection H.
Qed.

(** A track that is still open after a month was open before it, and its
    closing month has not been written. *)
Lemma regularLoanPart_open m st :
  isRegularClosed (regularLoanPart input m st) = false ->
  isRegularClosed st = false
  /\ regularClosedMonth (regularLoanPart input m st) = regularClosedMonth st.
Proof.
  unfold regularLoanPart. destruct (isRegularClosed st) eqn:Hc; cbn [negb].
  - intros H. rewrite Hc in H. discriminate.
  - destruct (_ <? _); cbn; [discriminate|]. auto.
Qed.

Lemma aggressiveLoanPart_open m st :
  isAggressiveClosed (fst (aggressiveLoanPart input m st)) = false ->
  isAggressiveClosed st = false
  /\ aggressiveClosedMonth (fst (aggressiveLoanPart input m st)) = aggressiveClosedMonth st.
Proof.
  unfold aggressiveLoanPart. destruct (isAggressiveClosed st) eqn:Hc; cbn [negb].
  - cbn. intros H. rewrite Hc in H. discriminate.
  - destruct (_ <? _); cbn; [discriminate|]. auto.
Qed.

Lemma runMonths_regular_open st ms :
  isRegularClosed (runMonths input st ms) = false ->
  isRegularClosed st = false
  /\ regularClosedMonth (runMonths input st ms) = regularClosedMonth st.
Proof.
  revert st. induction ms as [|m ms IH]; intros st H; [cbn in *; auto|].
  rewrite runMonths_cons in *. destruct (IH _ H) as [H1 H2].
  rewrite isRegularClosed_loopBody in H1. rewrite regularClosedMonth_loopBody in H2.
  destruct (regularLoanPart_open _ _ H1) as [H3 H4]. split; congruence.
Qed.

Lemma runMonths_aggressive_open st ms :
  isAggressiveClosed (runMonths input st ms) = false ->
  isAggressiveClosed st = false
  /\ aggressiveClosedMonth (runMonths input st ms) = aggressiveClosedMonth st.
Proof.
  revert st. induction ms as [|m ms IH]; intros st H; [cbn in *; auto|].
  rewrite runMonths_cons in *. destruct (IH _ H) as [H1 H2].
  rewrite isAggressiveClosed_loopBody in H1. rewrite aggressiveClosedMonth_loopBody in H2.
  destruct (aggressiveLoanPart_open _ _ H1) as [H3 H4]. split; congruence.
Qed.

End LoopFacts.

(** *** Tenure months *)

(** C10: a track whose clamp branch never fired still has its closed flag
    unset when the loop ends (the flag is set in that branch only and never
    reset), and the summary then reports its tenure months as
    [tenureYears * 12], the value the variable was initialised with. *)
Theorem tenureMonths_default_when_never_closed (input : LoanInput) :
  (isRegularClosed (finalState input) = false ->
   Summary.regularTenureMonths (summary (calculateScenario input))
   = (tenureYears input * 12)%Z)
  /\ (isAggressiveClosed (finalState input) = false ->
      Summary.aggressiveTenureMonths (summary (calculateScenario input))
      = (tenureYears input * 12)%Z).
Proof.
  cbn [summary calculateScenario summaryOf Summary.regularTenureMonths
       Summary.aggressiveTenureMonths].
  unfold finalState. split; intros H.
  - destruct (runMonths_regular_open input _ _ H) as [_ Hm]. now rewrite Hm.
  - destruct (runMonths_aggressive_open input _ _ H) as [_ Hm]. now rewrite Hm.
Qed.

(** *** The installment at a zero rate *)

Section ZeroRate.
Variable input : LoanInput.
Hypothesis Hrate : interestRate input = zero.

Lemma monthlyRate_zero_rate : monthlyRate input = zero.
Proof.
  unfold monthlyRate. rewrite Hrate. cbn. unfold zero. f_equal.
  apply Qc_is_canon. reflexivity.
Qed.

Lemma pow_one z : pow one z = one.
Proof.
  assert (H : forall n, powNat one n = one).
  { intros n. unfold one. rewrite powNat_Fin. f_equal. apply Qcpower_1. }
  destruct z; cbn; [reflexivity|apply H|]. rewrite H. cbn. unfold one.
  first [reflexivity | f_equal; apply Qc_is_canon; reflexivity].
Qed.

Lemma baseEmi_zero_rate :
  isFinite (principal input) = true -> baseEmi input = NaN.
Proof.
  intros Hp. unfold baseEmi. rewrite monthlyRate_zero_rate.
  replace (one + zero) with one by (symmetry; apply add_zero_r).
  rewrite pow_one.
  destruct (principal input) as [| |p|]; try discriminate.
  cbn. replace (p * 0 * 1)%Qc with 0%Qc by ring. reflexivity.
Qed.

Hypothesis Hp : isFinite (principal input) = true.

(** With a [NaN] installment the regular track never closes and its balance
    is [NaN] after the first month. *)
Lemma regularLoanPart_zero_rate m st :
  isRegularClosed st = false ->
  isRegularClosed (regularLoanPart input m st) = false
  /\ balanceRegular (regularLoanPart input m st) = NaN.
Proof.
  intros Hc. unfold regularLoanPart. rewrite Hc, (baseEmi_zero_rate Hp). cbn [negb].
  replace (NaN - _) with NaN by reflexivity.
  rewrite sub_NaN_r. cbn. auto.
Qed.

Lemma loopBody_zero_rate m st :
  isRegularClosed st = false ->
  isRegularClosed (loopBody input st m) = false
  /\ balanceRegular (loopBody input st m) = NaN.
Proof.
  intros Hc. pose proof (loopBody_regularLoan input st m) as H.
  unfold regularLoan in H. injection H as Hb _ Hcl _. rewrite Hb, Hcl.
  now apply regularLoanPart_zero_rate.
Qed.

Lemma runMonths_zero_rate ms st :
  isRegularClosed st = false ->
  Forall (fun d => MonthlyData.loanBalanceRegular d = NaN) (data st) ->
  isRegularClosed (runMonths input st ms) = false
  /\ (ms <> [] -> balanceRegular (runMonths input st ms) = NaN)
  /\ Forall (fun d => MonthlyData.loanBalanceRegular d = NaN)
       (data (runMonths input st ms)).
Proof.
  revert st. induction ms as [|m ms IH]; intros st Hc Hd.
  - cbn. repeat split; [assumption | congruence | assumption].
  - rewrite runMonths_cons.
    destruct (loopBody_zero_rate m st Hc) as [Hc' Hb'].
    destruct (IH (loopBody input st m) Hc') as (H1 & H2 & H3).
    + rewrite loopBody_data. apply Forall_app. split; [assumption|].
      constructor; [|constructor]. cbn. now rewrite Hb'.
    + repeat split; [assumption | | assumption].
      intros _. destruct ms as [|m' ms]; [exact Hb'|]. apply H2. discriminate.
Qed.

End ZeroRate.

(** C1: what the code does where the claim asks for [principal / n].  At
    [interestRate = 0] the closed form is evaluated as it stands, there is no
    special case: the installment is [0 / 0 = NaN], not
    [principal / (tenureYears * 12)], and the [NaN] spreads: every snapshot's
    regular loan balance and the regular final wealth are [NaN]. *)
Theorem zero_rate_installment_is_NaN (input : LoanInput) :
  interestRate input = zero ->
  isFinite (principal input) = true ->
  (0 < tenureYears input)%Z ->
  baseEmi input = NaN
  /\ baseEmi input <> principal input / ofZ (tenureYears input * 12)
  /\ Forall (fun d => MonthlyData.loanBalanceRegular d = NaN)
       (monthlyData (calculateScenario input))
  /\ Summary.finalWealthRegular (summary (calculateScenario input)) = NaN.
Proof.
  intros Hr Hp Ht.
  pose proof (baseEmi_zero_rate input Hr Hp) as HE.
  destruct (runMonths_zero_rate input Hr Hp (monthsUpTo (totalMonths input))
              (initialState input) eq_refl (Forall_nil _)) as (_ & Hb & Hd).
  repeat split.
  - exact HE.
  - rewrite HE. destruct (principal input) as [| |p|]; try discriminate.
    assert (Hs : sgn (Q2Qc (inject_Z (tenureYears input * 12))) = Gt).
    { apply Qcgt_alt. qc2q. unfold Qlt. cbn. lia. }
    unfold ofZ, div. rewrite Hs. discriminate.
  - exact Hd.
  - cbn [summary calculateScenario summaryOf Summary.finalWealthRegular].
    unfold finalState. rewrite Hb; [apply sub_NaN_r|].
    unfold monthsUpTo, totalMonths.
    destruct (Z.to_nat (tenureYears input * 12)) eqn:E; [lia|discriminate].
Qed.

Lemma zero_rate_installment_is_NaN_witness :
  baseEmi zeroRateInput = NaN
  /\ baseEmi zeroRateInput <> principal zeroRateInput / ofZ (tenureYears zeroRateInput * 12)
  /\ Forall (fun d => MonthlyData.loanBalanceRegular d = NaN)
       (monthlyData (calculateScenario zeroRateInput))
  /\ Summary.finalWealthRegular (summary (calculateScenario zeroRateInput)) = NaN.
Proof.
  apply (zero_rate_installment_is_NaN zeroRateInput).
  - reflexivity.
  - reflexivity.
  - reflexivity.
Defined.

(** *** The budget schedule *)

Lemma loopBody_surplusRegular input st m :
  totalInvestedRegular (loopBody input st m)
  = snd (sipGrowth input (sipValueRegular st) (totalInvestedRegular st)
           (surplusRegular input m (regularLoanPart input m st)))
  /\ sipValueRegular (loopBody input st m)
  = fst (sipGrowth input (sipValueRegular st) (totalInvestedRegular st)
           (surplusRegular input m (regularLoanPart input m st))).
Proof.
  pose proof (loopBody_regularSip input st m) as H. unfold regularSip in H.
  rewrite <- H. split; reflexivity.
Qed.

Lemma loopBody_amountForSip input st m :
  totalInvestedAggressive (loopBody input st m)
  = snd (sipGrowth input (sipValueAggressive st) (totalInvestedAggressive st)
           (snd (aggressiveLoanPart input m st)))
  /\ sipValueAggressive (loopBody input st m)
  = fst (sipGrowth input (sipValueAggressive st) (totalInvestedAggressive st)
           (snd (aggressiveLoanPart input m st))).
Proof.
  pose proof (loopBody_aggressiveSip input st m) as H. unfold aggressiveSip in H.
  rewrite <- H. split; reflexivity.
Qed.

(** C5: for a month [m >= 1] of year [y = ceil(m / 12)], the budget is
    [E * (1 + stepUpPercentage / 100) ^ (y - 1)], which is [E] itself in year
    1, plus [E * extraEmiPerYear] exactly when [extraEmiPerYear > 0] and
    [m mod 12 = 0]; Strategy A takes its surplus from this value and Strategy
    B pays or invests this same value. *)
Theorem totalBudgetThisMonth_schedule (input : LoanInput) (m : Z) :
  (1 <= m)%Z ->
  let y := yearOf m in
  let E := baseEmi input in
  (12 * (y - 1) < m <= 12 * y)%Z
  /\ totalBudgetThisMonth input m
     = E * pow (one + stepUpPercentage input / ofZ 100) (y - 1)
       + (if (extraEmiPerYear input >? zero) && (m mod 12 =? 0)%Z
          then E * extraEmiPerYear input else zero)
  /\ (y = 1%Z -> currentMonthlyBudget input m = E)
  /\ (forall st,
        surplusRegular input m st
        = totalBudgetThisMonth input m - (if isRegularClosed st then zero else E))
  /\ (forall st,
        isAggressiveClosed st = true ->
        snd (aggressiveLoanPart input m st) = totalBudgetThisMonth input m)
  /\ (forall st,
        isAggressiveClosed st = false ->
        (balanceAggressive st
         - (totalBudgetThisMonth input m - balanceAggressive st * monthlyRate input)
         <? zero) = false ->
        balanceAggressive (fst (aggressiveLoanPart input m st))
        = balanceAggressive st
          - (totalBudgetThisMonth input m - balanceAggressive st * monthlyRate input)).
Proof.
  intros Hm y E.
  pose proof (ceilDiv_12_bounds m) as Hy. fold (yearOf m) in Hy. fold y in Hy.
  split; [exact Hy|]. split; [|split; [|split; [|split]]].
  - unfold totalBudgetThisMonth, currentMonthlyBudget, extraPaymentBudget.
    fold y. fold E.
    replace (Z.rem m 12) with (m mod 12)%Z by (symmetry; apply Z.rem_mod_nonneg; lia).
    f_equal.
    destruct (1 <? y)%Z eqn:Hlt; [reflexivity|].
    apply Z.ltb_ge in Hlt. replace (y - 1)%Z with 0%Z by lia.
    cbn [pow]. now rewrite mul_one_r.
  - intros Hy1. unfold currentMonthlyBudget. fold y. now rewrite Hy1.
  - reflexivity.
  - intros st Hc. unfold aggressiveLoanPart. now rewrite Hc.
  - intros st Hc Hlt. unfold aggressiveLoanPart. rewrite Hc. cbn [negb].
    now rewrite Hlt.
Qed.

Lemma totalBudgetThisMonth_schedule_witness :
  totalBudgetThisMonth stepUpInput 24
  = baseEmi stepUpInput
    * pow (one + stepUpPercentage stepUpInput / ofZ 100) (yearOf 24 - 1)
    + (if (extraEmiPerYear stepUpInput >? zero) && (24 mod 12 =? 0)%Z
       then baseEmi stepUpInput * extraEmiPerYear stepUpInput else zero).
Proof.
  assert (H24 : (1 <= 24)%Z) by lia.
  destruct (totalBudgetThisMonth_schedule stepUpInput 24 H24) as (_ & H & _).
  exact H.
Defined.

(** *** The accumulation step *)

Lemma add_Fin_zero_r a q : (q ?= 0)%Qc = Eq -> a + Fin q = a.
Proof. intros H. apply Qceq_alt in H. subst. apply add_zero_r. Qed.

(** C6: one month of an accumulation track with a contribution [c >= 0]
    turns the value into [(value + c) * (1 + s)], the contribution being added
    before the growth, and adds [c] to the total contributed; at [c = 0] the
    value becomes [value * (1 + s)] and the total is unchanged.  Both
    strategies' tracks take this step inside the loop body. *)
Theorem sipGrowth_contribution (input : LoanInput) (value total c : num) :
  (zero <=? c) = true ->
  sipGrowth input value total c
  = ((value + c) * (one + sipMonthlyRate input), total + c)
  /\ (c = zero ->
      sipGrowth input value total c = (value * (one + sipMonthlyRate input), total))
  /\ (forall st m,
        surplusRegular input m (regularLoanPart input m st) = c ->
        sipValueRegular st = value -> totalInvestedRegular st = total ->
        sipValueRegular (loopBody input st m)
        = (value + c) * (one + sipMonthlyRate input)
        /\ totalInvestedRegular (loopBody input st m) = total + c)
  /\ (forall st m,
        snd (aggressiveLoanPart input m st) = c ->
        sipValueAggressive st = value -> totalInvestedAggressive st = total ->
        sipValueAggressive (loopBody input st m)
        = (value + c) * (one + sipMonthlyRate input)
        /\ totalInvestedAggressive (loopBody input st m) = total + c).
Proof.
  intros Hc.
  assert (H1 : sipGrowth input value total c
               = ((value + c) * (one + sipMonthlyRate input), total + c)).
  { unfold sipGrowth. destruct (c >? zero) eqn:Hgt; [reflexivity|].
    destruct c as [| |q|]; try discriminate.
    assert (Hq : (q ?= 0)%Qc = Eq).
    { apply Qceq_alt. apply Qcle_antisym.
      - now apply lt_Fin_false in Hgt.
      - now apply le_Fin in Hc. }
    now rewrite !(add_Fin_zero_r _ q Hq). }
  split; [exact H1|]. split; [|split].
  - intros ->. reflexivity.
  - intros st m Hs <- <-.
    destruct (loopBody_surplusRegular input st m) as [Ht Hv].
    rewrite Ht, Hv, Hs, H1. split; reflexivity.
  - intros st m Hs <- <-.
    destruct (loopBody_amountForSip input st m) as [Ht Hv].
    rewrite Ht, Hv, Hs, H1. split; reflexivity.
Qed.

Lemma sipGrowth_contribution_witness :
  sipGrowth flatYearInput (ofZ 100) (ofZ 100) (ofZ 50)
  = ((ofZ 100 + ofZ 50) * (one + sipMonthlyRate flatYearInput), ofZ 100 + ofZ 50).
Proof.
  exact (proj1 (sipGrowth_contribution flatYearInput (ofZ 100) (ofZ 100) (ofZ 50) eq_refl)).
Defined.

(** *** A closed loan's part of the month *)

Lemma regularLoanPart_closed input m st :
  isRegularClosed st = true -> regularLoanPart input m st = st.
Proof. intros H. unfold regularLoanPart. now rewrite H. Qed.

(* ================================================================== *)
(** ** The schedule in exact arithmetic *)
(* ================================================================== *)

(** What follows, up to the input fields, is about the algorithm in exact
    arithmetic: a valid input with a positive rate keeps every figure
    finite, the installment repays the loan with its last payment and the
    clamp of the regular loan never runs.  Binary64 rounds each step, so the
    program itself can leave the schedule, as the run of a flat year shows
    at the end of this file. *)

(** *** Rational arithmetic *)

Local Open Scope Qc_scope.

(** Powers are opaque to the linear solvers: name them before translating. *)
Ltac qc_atoms :=
  repeat match goal with
         | |- context [Qcpower ?x ?k] =>
             let v := fresh "pw" in set (v := Qcpower x k) in *; clearbody v
         | H : context [Qcpower ?x ?k] |- _ =>
             let v := fresh "pw" in set (v := Qcpower x k) in *; clearbody v
         end.

Lemma Qc_eq_Q (a b : Qc) : a = b -> (this a == this b)%Q.
Proof. intros ->. reflexivity. Qed.

Lemma Qc_inv_pos (a : Qc) : 0 < a -> 0 < / a.
Proof.
  intros H. qc2q. now apply Qinv_lt_0_compat.
Qed.

Lemma Qc_div_pos (a b : Qc) : 0 < a -> 0 < b -> 0 < a / b.
Proof.
  intros Ha Hb. pose proof (Qc_inv_pos b Hb) as Hi.
  unfold Qcdiv. qc2q. nra.
Qed.

Lemma Qc_div_nonneg (a b : Qc) : 0 <= a -> 0 < b -> 0 <= a / b.
Proof.
  intros Ha Hb. pose proof (Qc_inv_pos b Hb) as Hi.
  unfold Qcdiv. qc2q. nra.
Qed.

Lemma Qcpower_ge_1 (x : Qc) (n : nat) : 1 <= x -> 1 <= x ^ n.
Proof.
  intros Hx. induction n as [|n IH]; cbn [Qcpower].
  - apply Qcle_refl.
  - qc2q. nra.
Qed.

Lemma Qcpower_gt_1 (x : Qc) (n : nat) : 1 < x -> (0 < n)%nat -> 1 < x ^ n.
Proof.
  intros Hx Hn. destruct n as [|n]; [lia|]. cbn [Qcpower].
  pose proof (Qcpower_ge_1 x n (Qclt_le_weak _ _ Hx)) as H.
  qc2q. nra.
Qed.

Lemma sgn_pos (a : Qc) : 0 < a -> sgn a = Gt.
Proof. intros H. now apply Qcgt_alt. Qed.

Lemma div_Fin_pos (a b : Qc) : 0 < b -> (Fin a / Fin b)%num = Fin (a / b).
Proof. intros H. unfold div. now rewrite (sgn_pos b H). Qed.

(** *** One month of a loan track on finite values *)

Section FiniteTracks.

Variable input : LoanInput.
Variables r E : Qc.
Hypothesis Hrate : monthlyRate input = Fin r.
Hypothesis HE : baseEmi input = Fin E.

Lemma lt_zero_Fin (a : Qc) : (Fin a <? zero)%num = true <-> a < 0.
Proof. apply lt_Fin. Qed.

Lemma lt_zero_Fin_false (a : Qc) : (Fin a <? zero)%num = false <-> 0 <= a.
Proof. apply lt_Fin_false. Qed.

(** The regular loan part, when the variables it reads are finite: either the
    installment overpays and the loan closes at 0, or the balance becomes
    [b * (1 + r) - E]. *)
Lemma regularLoanPart_finite m st b i :
  isRegularClosed st = false ->
  balanceRegular st = Fin b ->
  totalInterestRegular st = Fin i ->
  let st' := regularLoanPart input m st in
  totalInterestRegular st' = Fin (i + b * r)
  /\ ((b * (1 + r) - E < 0
       /\ balanceRegular st' = Fin 0
       /\ isRegularClosed st' = true
       /\ regularClosedMonth st' = m)
      \/ (0 <= b * (1 + r) - E
          /\ balanceRegular st' = Fin (b * (1 + r) - E)
          /\ isRegularClosed st' = false
          /\ regularClosedMonth st' = regularClosedMonth st)).
Proof.
  intros Hc Hb Hi st'. subst st'. unfold regularLoanPart.
  rewrite Hc, Hb, Hi, Hrate, HE. cbn [negb].
  cbn [sub add neg mul].
  replace (b + - (E + - (b * r))) with (b * (1 + r) - E) by ring.
  destruct (Fin (b * (1 + r) - E) <? zero)%num eqn:Hlt.
  - apply lt_zero_Fin in Hlt. cbn. split; [reflexivity|]. left.
    repeat split; [assumption|]. f_equal. ring.
  - apply lt_zero_Fin_false in Hlt. cbn. split; [reflexivity|]. right.
    repeat split; assumption.
Qed.

(** The aggressive loan part, likewise, paying the month's budget [B]; on
    closure the rest of the budget is handed to the investment. *)
Lemma aggressiveLoanPart_finite m st b i B :
  totalBudgetThisMonth input m = Fin B ->
  isAggressiveClosed st = false ->
  balanceAggressive st = Fin b ->
  totalInterestAggressive st = Fin i ->
  let st' := fst (aggressiveLoanPart input m st) in
  totalInterestAggressive st' = Fin (i + b * r)
  /\ ((b * (1 + r) - B < 0
       /\ balanceAggressive st' = Fin 0
       /\ isAggressiveClosed st' = true
       /\ aggressiveClosedMonth st' = m
       /\ snd (aggressiveLoanPart input m st) = Fin (B - b * (1 + r)))
      \/ (0 <= b * (1 + r) - B
          /\ balanceAggressive st' = Fin (b * (1 + r) - B)
          /\ isAggressiveClosed st' = false
          /\ aggressiveClosedMonth st' = aggressiveClosedMonth st
          /\ snd (aggressiveLoanPart input m st) = zero)).
Proof.
  intros HB Hc Hb Hi st'. subst st'. unfold aggressiveLoanPart.
  rewrite Hc, Hb, Hi, Hrate, HB. cbn [negb].
  cbn [sub add neg mul].
  replace (b + - (B + - (b * r))) with (b * (1 + r) - B) by ring.
  destruct (Fin (b * (1 + r) - B) <? zero)%num eqn:Hlt.
  - apply lt_zero_Fin in Hlt. cbn. split; [reflexivity|]. left.
    repeat split; [assumption| |]; f_equal; ring.
  - apply lt_zero_Fin_false in Hlt. cbn. split; [reflexivity|]. right.
    repeat split; assumption.
Qed.

End FiniteTracks.

(** *** One month of both tracks, for a positive rate *)

Section OrderedTracks.

Variable input : LoanInput.
Variables P r E : Qc.
Hypothesis Hrate : monthlyRate input = Fin r.
Hypothesis HE : baseEmi input = Fin E.
Hypothesis Hr : 0 < r.
Hypothesis HP : 0 <= P.
Hypothesis HPr : P * r < E.

Lemma installment_pos : 0 < E.
Proof. qc2q. nra. Qed.

Lemma loopBody_regular_finite st m b i :
  finiteTrack (regularLoan st) b i ->
  b <= P ->
  exists b',
    finiteTrack (regularLoan (loopBody input st m)) b' (i + b * r)
    /\ nextBalance b r E b'
    /\ b' <= b
    /\ loanTrackStep m (regularLoan st) (regularLoan (loopBody input st m)).
Proof.
  intros (Hb & Hi & Hb0 & Hcl) HbP. pose proof installment_pos as HE0.
  rewrite loopBody_regularLoan.
  destruct (isRegularClosed st) eqn:Hc.
  - specialize (Hcl eq_refl). subst b.
    rewrite (regularLoanPart_closed input m st Hc).
    exists 0. unfold finiteTrack, regularLoan, loanTrackStep, nextBalance.
    rewrite Hb, Hi, Hc.
    replace (i + 0 * r) with i by ring.
    repeat split; try reflexivity; try apply Qcle_refl; try discriminate.
    + left. split; [reflexivity|]. qc2q. lra.
    + apply le_Fin, Qcle_refl.
  - destruct (regularLoanPart_finite input r E Hrate HE m st b i Hc Hb Hi)
      as (Hi' & [(Hlt & Hb' & Hc' & Hm') | (Hge & Hb' & Hc' & Hm')]).
    + exists 0. unfold finiteTrack, regularLoan, loanTrackStep, nextBalance.
      rewrite Hb, Hi, Hc, Hi', Hb', Hc', Hm'.
      repeat split; try reflexivity; try apply Qcle_refl; try discriminate; try assumption.
      * left. split; [reflexivity|]. now apply Qclt_le_weak.
      * now apply le_Fin.
      * apply le_Fin. qc2q. nra.
    + exists (b * (1 + r) - E).
      unfold finiteTrack, regularLoan, loanTrackStep, nextBalance.
      rewrite Hb, Hi, Hc, Hi', Hb', Hc', Hm'.
      assert (Hle : b * (1 + r) - E <= b) by (qc2q; nra).
      repeat split; try reflexivity; try discriminate; try assumption.
      * right. split; [reflexivity|assumption].
      * now apply le_Fin.
      * now apply le_Fin.
      * apply le_Fin. qc2q. nra.
Qed.

Lemma loopBody_aggressive_finite st m b i B :
  totalBudgetThisMonth input m = Fin B ->
  E <= B ->
  finiteTrack (aggressiveLoan st) b i ->
  b <= P ->
  exists b',
    finiteTrack (aggressiveLoan (loopBody input st m)) b' (i + b * r)
    /\ nextBalance b r B b'
    /\ b' <= b
    /\ loanTrackStep m (aggressiveLoan st) (aggressiveLoan (loopBody input st m)).
Proof.
  intros HB HEB (Hb & Hi & Hb0 & Hcl) HbP. pose proof installment_pos as HE0.
  rewrite loopBody_aggressiveLoan.
  destruct (isAggressiveClosed st) eqn:Hc.
  - specialize (Hcl eq_refl). subst b.
    assert (Hst : fst (aggressiveLoanPart input m st) = st).
    { unfold aggressiveLoanPart. now rewrite Hc. }
    rewrite Hst.
    exists 0. unfold finiteTrack, aggressiveLoan, loanTrackStep, nextBalance.
    rewrite Hb, Hi, Hc.
    replace (i + 0 * r) with i by ring.
    repeat split; try reflexivity; try apply Qcle_refl; try discriminate.
    + left. split; [reflexivity|]. qc2q. lra.
    + apply le_Fin, Qcle_refl.
  - destruct (aggressiveLoanPart_finite input r Hrate m st b i B HB Hc Hb Hi)
      as (Hi' & [(Hlt & Hb' & Hc' & Hm' & _) | (Hge & Hb' & Hc' & Hm' & _)]).
    + exists 0. unfold finiteTrack, aggressiveLoan, loanTrackStep, nextBalance.
      rewrite Hb, Hi, Hc, Hi', Hb', Hc', Hm'.
      repeat split; try reflexivity; try apply Qcle_refl; try discriminate; try assumption.
      * left. split; [reflexivity|]. now apply Qclt_le_weak.
      * now apply le_Fin.
      * apply le_Fin. qc2q. nra.
    + exists (b * (1 + r) - B).
      unfold finiteTrack, aggressiveLoan, loanTrackStep, nextBalance.
      rewrite Hb, Hi, Hc, Hi', Hb', Hc', Hm'.
      assert (Hle : b * (1 + r) - B <= b) by (qc2q; nra).
      repeat split; try reflexivity; try discriminate; try assumption.
      * right. split; [reflexivity|assumption].
      * now apply le_Fin.
      * now apply le_Fin.
      * apply le_Fin. qc2q. nra.
Qed.

End OrderedTracks.

Section OrderedRun.

Variable input : LoanInput.
Variables P r E : Qc.
Hypothesis Hrate : monthlyRate input = Fin r.
Hypothesis HE : baseEmi input = Fin E.
Hypothesis Hr : 0 < r.
Hypothesis HP : 0 <= P.
Hypothesis HPr : P * r < E.
Hypothesis Hbudget :
  forall m, (1 <= m)%Z -> exists B, totalBudgetThisMonth input m = Fin B /\ E <= B.

Lemma loopBody_tracksOrdered st m :
  (1 <= m)%Z ->
  tracksOrdered P st ->
  tracksOrdered P (loopBody input st m)
  /\ loanTrackStep m (regularLoan st) (regularLoan (loopBody input st m))
  /\ loanTrackStep m (aggressiveLoan st) (aggressiveLoan (loopBody input st m)).
Proof.
  intros Hm (bR & bA & iR & iA & HR & HA & Hba & HbP & Hia).
  destruct (Hbudget m Hm) as (B & HB & HEB).
  destruct (loopBody_regular_finite input P r E Hrate HE Hr HP HPr st m bR iR HR HbP)
    as (bR' & HR' & HnR & HleR & HsR).
  assert (HbAP : bA <= P) by (eapply Qcle_trans; eassumption).
  destruct (loopBody_aggressive_finite input P r E Hrate Hr HP HPr st m bA iA B
              HB HEB HA HbAP) as (bA' & HA' & HnA & HleA & HsA).
  split; [|split; assumption].
  exists bR', bA', (iR + bR * r), (iA + bA * r).
  split; [exact HR'|]. split; [exact HA'|]. split; [|split].
  - assert (H0 : 0 <= bR').
    { unfold finiteTrack, regularLoan in HR'. tauto. }
    destruct HnA as [[-> HA1] | [-> HA1]]; [assumption|].
    destruct HnR as [[-> HR1] | [-> HR1]]; qc2q; nra.
  - eapply Qcle_trans; eassumption.
  - qc2q. nra.
Qed.

Lemma runMonths_tracksOrdered ms st :
  Forall (fun m => (1 <= m)%Z) ms ->
  tracksOrdered P st ->
  tracksOrdered P (runMonths input st ms).
Proof.
  revert st. induction ms as [|m ms IH]; intros st Hms Hst; [exact Hst|].
  rewrite runMonths_cons. inversion Hms; subst.
  apply IH; [assumption|]. now apply loopBody_tracksOrdered.
Qed.

End OrderedRun.

Lemma monthsUpTo_pos n : Forall (fun m => (1 <= m)%Z) (monthsUpTo n).
Proof.
  unfold monthsUpTo. apply Forall_forall. intros m Hin.
  apply in_map_iff in Hin. destruct Hin as (k & <- & Hk).
  apply in_seq in Hk. lia.
Qed.

Lemma monthsUpTo_succ k :
  (0 <= k)%Z -> monthsUpTo (k + 1) = monthsUpTo k ++ [(k + 1)%Z].
Proof.
  intros Hk. unfold monthsUpTo.
  replace (Z.to_nat (k + 1)) with (S (Z.to_nat k)) by lia.
  rewrite seq_S, map_app. cbn. do 2 f_equal. lia.
Qed.

(** *** The constants of a valid input *)

Lemma finite_nonneg a : isFinite a = true -> (zero <=? a)%num = true ->
  exists q, a = Fin q /\ 0 <= q.
Proof.
  destruct a; try discriminate. intros _ H. exists q. split; [reflexivity|].
  now apply le_Fin.
Qed.

Lemma validInput_finite input :
  validInput input = true ->
  exists P R S X U,
    input = finiteInput P R (tenureYears input) S X U
    /\ 0 < P /\ 0 <= R /\ (0 < tenureYears input)%Z /\ 0 <= S /\ 0 <= X /\ 0 <= U.
Proof.
  unfold validInput. rewrite !andb_true_iff.
  intros ((((((((((HfP & HP) & HfR) & HR) & HT) & HfS) & HS) & HfX) & HX) & HfU) & HU).
  destruct (finite_nonneg _ HfR HR) as (R & ER & HR0).
  destruct (finite_nonneg _ HfS HS) as (S & ES & HS0).
  destruct (finite_nonneg _ HfX HX) as (X & EX & HX0).
  destruct (finite_nonneg _ HfU HU) as (U & EU & HU0).
  destruct input as [p ir t sr ex su].
  cbn [principal interestRate tenureYears sipReturnRate extraEmiPerYear
       stepUpPercentage] in *.
  subst.
  destruct p as [| |P|]; try discriminate.
  exists P, R, S, X, U. repeat split; try assumption.
  - now apply gt_Fin in HP.
  - now apply Z.ltb_lt.
Qed.

Section Installment.

Variables P R : Qc.
Variable T : Z.
Hypothesis HP : 0 < P.
Hypothesis HR : 0 < R.
Hypothesis HT : (0 < T)%Z.

Local Notation "'r'" := (rateOf R).
Local Notation "'n'" := (Z.to_nat (T * 12)).
Local Notation "'E'" := (installmentOf P (rateOf R) (Z.to_nat (T * 12))).

Lemma rateOf_pos : 0 < r.
Proof.
  clear HP HT.
  unfold rateOf. apply Qc_div_pos; [apply Qc_div_pos|]; try assumption; reflexivity.
Qed.

Lemma growth_gt_1 : 1 < (1 + r) ^ n.
Proof.
  clear HP. pose proof rateOf_pos as Hr. clear HR.
  apply Qcpower_gt_1; [qc2q; lra | lia].
Qed.

(** The installment amortizes the principal in [n] months. *)
Lemma installment_amortizes : E * ((1 + r) ^ n - 1) = P * r * (1 + r) ^ n.
Proof.
  pose proof growth_gt_1 as Hx. unfold installmentOf. field.
  intros H0. apply Qclt_not_eq in Hx. apply Hx.
  set (xn := (1 + r) ^ n) in *. change (xn - 1 = 0) in H0.
  assert (H1 : xn = (xn - 1) + 1) by ring.
  rewrite H0 in H1. rewrite H1. ring.
Qed.

Lemma installment_above_interest : P * r < E.
Proof.
  pose proof growth_gt_1 as Hx. pose proof rateOf_pos as Hr.
  pose proof installment_amortizes as Ha.
  set (e := E) in *. set (xn := (1 + r) ^ n) in *. clearbody e xn.
  set (rr := r) in *. clearbody rr.
  apply Qc_eq_Q in Ha. qc2q. nra.
Qed.

Lemma installmentOf_pos : 0 < E.
Proof.
  pose proof installment_above_interest as H. pose proof rateOf_pos as Hr.
  set (e := E) in *. set (rr := r) in *. clearbody e rr. qc2q. nra.
Qed.

Variables S X U : Qc.
Hypothesis HX : 0 <= X.
Hypothesis HU : 0 <= U.

Local Notation "'input'" := (finiteInput P R T S X U).

Lemma monthlyRate_finite : monthlyRate input = Fin r.
Proof. reflexivity. Qed.

Lemma baseEmi_finite : baseEmi input = Fin E.
Proof.
  clear HX HU.
  pose proof growth_gt_1 as Hx.
  unfold baseEmi. rewrite monthlyRate_finite.
  change (one + Fin r)%num with (Fin (1 + r)).
  unfold totalMonths. cbn [tenureYears finiteInput mkInput principal].
  rewrite pow_Fin_pos by lia.
  cbn [mul sub add neg one].
  rewrite div_Fin_pos; [reflexivity|]. qc_atoms. qc2q. lra.
Qed.

Lemma currentMonthlyBudget_finite m :
  (1 <= m)%Z -> exists C, currentMonthlyBudget input m = Fin C /\ E <= C.
Proof.
  clear HX.
  intros Hm. pose proof installmentOf_pos as HE0.
  unfold currentMonthlyBudget. rewrite baseEmi_finite.
  destruct (1 <? yearOf m)%Z eqn:Hy; [|exists E; split; [reflexivity|apply Qcle_refl]].
  apply Z.ltb_lt in Hy.
  cbn [stepUpPercentage finiteInput mkInput].
  change (one + Fin U / ofZ 100)%num
    with (Fin (1 + U / Q2Qc (inject_Z 100))).
  rewrite pow_Fin_pos by lia. cbn [mul].
  eexists. split; [reflexivity|].
  assert (Hf : 1 <= 1 + U / Q2Qc (inject_Z 100)).
  { pose proof (Qc_div_nonneg U (Q2Qc (inject_Z 100)) HU eq_refl) as Hd.
    set (d := U / _) in *. clearbody d. qc2q. lra. }
  pose proof (Qcpower_ge_1 _ (Z.to_nat (yearOf m - 1)) Hf) as Hp.
  set (e := E) in *. clearbody e. qc_atoms. qc2q. nra.
Qed.

Lemma extraPaymentBudget_finite m :
  exists X', extraPaymentBudget input m = Fin X' /\ 0 <= X'.
Proof.
  clear HU.
  pose proof installmentOf_pos as HE0.
  unfold extraPaymentBudget.
  destruct (_ && _); [|exists 0; split; [reflexivity|apply Qcle_refl]].
  rewrite baseEmi_finite. cbn [extraEmiPerYear finiteInput mkInput mul].
  eexists. split; [reflexivity|].
  set (e := E) in *. clearbody e. qc2q. nra.
Qed.

Lemma totalBudgetThisMonth_finite m :
  (1 <= m)%Z -> exists B, totalBudgetThisMonth input m = Fin B /\ E <= B.
Proof.
  intros Hm. unfold totalBudgetThisMonth.
  destruct (currentMonthlyBudget_finite m Hm) as (C & -> & HC).
  destruct (extraPaymentBudget_finite m) as (X' & -> & HX').
  cbn [add]. eexists. split; [reflexivity|].
  set (e := E) in *. clearbody e. clear HP HR HT HX HU. qc2q. lra.
Qed.

Lemma initialState_tracksOrdered : tracksOrdered P (initialState input).
Proof.
  clear HR HT HX HU.
  exists P, P, 0, 0. unfold finiteTrack, regularLoan, aggressiveLoan. cbn.
  repeat split; try reflexivity; try discriminate; try apply Qcle_refl;
    now apply Qclt_le_weak.
Qed.

End Installment.

Lemma max_zero_nonneg (b : Qc) : 0 <= b -> max zero (Fin b) = Fin b.
Proof.
  intros Hb. unfold max, zero.
  destruct (Fin 0 <? Fin b)%num eqn:Hlt; [reflexivity|].
  apply lt_Fin_false in Hlt. f_equal. now apply Qcle_antisym.
Qed.

(** *** Snapshots and states *)

Section Snapshots.
Variable input : LoanInput.

Lemma stateAfter_succ k :
  (0 <= k)%Z -> stateAfter input (k + 1) = loopBody input (stateAfter input k) (k + 1).
Proof.
  intros Hk. unfold stateAfter. now rewrite monthsUpTo_succ, runMonths_app.
Qed.

Lemma finalState_stateAfter : finalState input = stateAfter input (totalMonths input).
Proof. reflexivity. Qed.

Lemma data_stateAfter_length k :
  length (data (stateAfter input k)) = Z.to_nat k.
Proof.
  rewrite <- (length_map MonthlyData.month). unfold stateAfter.
  rewrite runMonths_months. cbn. unfold monthsUpTo.
  now rewrite length_map, length_seq.
Qed.

Lemma data_stateAfter_prefix k (j : nat) :
  (0 <= k)%Z ->
  exists rest,
    data (stateAfter input (k + Z.of_nat j)) = data (stateAfter input k) ++ rest.
Proof.
  intros Hk. induction j as [|j (rest & IH)].
  - exists []. rewrite Z.add_0_r. now rewrite app_nil_r.
  - replace (k + Z.of_nat (S j))%Z with ((k + Z.of_nat j) + 1)%Z by lia.
    rewrite stateAfter_succ by lia. rewrite loopBody_data, IH.
    eexists. rewrite <- app_assoc. reflexivity.
Qed.

(** The snapshot of month [k + 1] records the state after [k + 1] months. *)
Lemma monthlyData_nth k :
  (0 <= k < totalMonths input)%Z ->
  nth_error (monthlyData (calculateScenario input)) (Z.to_nat k)
  = Some (snapshot (k + 1) (stateAfter input (k + 1))).
Proof.
  intros Hk. cbn [monthlyData calculateScenario]. rewrite finalState_stateAfter.
  destruct (data_stateAfter_prefix (k + 1) (Z.to_nat (totalMonths input - (k + 1))))
    as (rest & Hrest); [lia|].
  replace (k + 1 + Z.of_nat (Z.to_nat (totalMonths input - (k + 1))))%Z
    with (totalMonths input) in Hrest by lia.
  rewrite Hrest. rewrite (stateAfter_succ k) at 1 by lia.
  rewrite loopBody_data, <- stateAfter_succ by lia.
  rewrite <- app_assoc.
  rewrite nth_error_app2; rewrite data_stateAfter_length; [|lia].
  now rewrite Nat.sub_diag.
Qed.

End Snapshots.

(** *** Both tracks under a positive rate *)

Lemma validInput_positive_rate input :
  validInput input = true ->
  (zero <? interestRate input)%num = true ->
  exists P R S X U,
    input = finiteInput P R (tenureYears input) S X U
    /\ 0 < P /\ 0 < R /\ (0 < tenureYears input)%Z /\ 0 <= S /\ 0 <= X /\ 0 <= U.
Proof.
  intros Hv Hr. destruct (validInput_finite input Hv) as (P & R & S & X & U & Hi & H).
  exists P, R, S, X, U. split; [exact Hi|].
  rewrite Hi in Hr. cbn [interestRate finiteInput mkInput] in Hr.
  apply lt_Fin in Hr. tauto.
Qed.

Lemma stateAfter_tracksOrdered input k :
  validInput input = true ->
  (zero <? interestRate input)%num = true ->
  exists P, principal input = Fin P /\ tracksOrdered P (stateAfter input k)
    /\ forall m, (1 <= m)%Z ->
         tracksOrdered P (loopBody input (stateAfter input k) m)
         /\ loanTrackStep m (regularLoan (stateAfter input k))
              (regularLoan (loopBody input (stateAfter input k) m))
         /\ loanTrackStep m (aggressiveLoan (stateAfter input k))
              (aggressiveLoan (loopBody input (stateAfter input k) m)).
Proof.
  intros Hv Hr.
  destruct (validInput_positive_rate input Hv Hr)
    as (P & R & S & X & U & Hi & HP & HR & HT & HS & HX & HU).
  set (T := tenureYears input) in *. clearbody T. subst input.
  exists P. split; [reflexivity|].
  pose proof (rateOf_pos R HR) as Hr0.
  pose proof (installment_above_interest P R T HP HR HT) as HPr.
  pose proof (totalBudgetThisMonth_finite P R T HP HR HT S X U HX HU) as HB.
  assert (Hst : tracksOrdered P (stateAfter (finiteInput P R T S X U) k)).
  { unfold stateAfter.
    eapply runMonths_tracksOrdered;
      [apply monthlyRate_finite | apply baseEmi_finite; assumption | exact Hr0
      | now apply Qclt_le_weak | exact HPr | exact HB | apply monthsUpTo_pos
      | now apply initialState_tracksOrdered ]. }
  split; [exact Hst|]. intros m Hm.
  eapply loopBody_tracksOrdered;
    [apply monthlyRate_finite | apply baseEmi_finite; assumption | exact Hr0
    | now apply Qclt_le_weak | exact HPr | exact HB | exact Hm | exact Hst ].
Qed.

(** In exact arithmetic: for a valid input with a positive interest rate
    the aggressive strategy never pays more interest than the regular one. *)
Theorem interest_ordered_positive_rate (input : LoanInput) :
  validInput input = true ->
  (zero <? interestRate input)%num = true ->
  (Summary.aggressiveTotalInterest (summary (calculateScenario input))
   <=? Summary.regularTotalInterest (summary (calculateScenario input)))%num = true.
Proof.
  intros Hv Hr.
  destruct (stateAfter_tracksOrdered input (totalMonths input) Hv Hr)
    as (P & _ & (bR & bA & iR & iA & HR & HA & _ & _ & Hi) & _).
  cbn [summary calculateScenario summaryOf Summary.aggressiveTotalInterest
       Summary.regularTotalInterest].
  rewrite finalState_stateAfter.
  destruct HR as (_ & -> & _). destruct HA as (_ & -> & _).
  now apply le_Fin.
Qed.

(** In exact arithmetic: for a valid input with a positive interest rate,
    every month of the run takes both loan tracks through a [loanTrackStep]:
    no balance or interest total falls or goes negative, a loan that closes
    is at 0 and stays closed with nothing more accruing, and the month's
    snapshot records the two balances as they are. *)
Theorem loan_tracks_positive_rate (input : LoanInput) (k : Z) :
  validInput input = true ->
  (zero <? interestRate input)%num = true ->
  (0 <= k < tenureYears input * 12)%Z ->
  let before := stateAfter input k in
  let after := stateAfter input (k + 1) in
  loanTrackStep (k + 1) (regularLoan before) (regularLoan after)
  /\ loanTrackStep (k + 1) (aggressiveLoan before) (aggressiveLoan after)
  /\ exists d,
       nth_error (monthlyData (calculateScenario input)) (Z.to_nat k) = Some d
       /\ MonthlyData.month d = (k + 1)%Z
       /\ MonthlyData.loanBalanceRegular d = balanceRegular after
       /\ MonthlyData.loanBalanceAggressive d = balanceAggressive after.
Proof.
  intros Hv Hr Hk before after.
  destruct (stateAfter_tracksOrdered input k Hv Hr) as (P & _ & _ & Hstep).
  destruct (Hstep (k + 1)%Z ltac:(lia)) as (Hord & HsR & HsA).
  subst before after. rewrite stateAfter_succ by lia.
  split; [exact HsR|]. split; [exact HsA|].
  exists (snapshot (k + 1) (stateAfter input (k + 1))).
  split; [now apply monthlyData_nth|]. split; [reflexivity|].
  rewrite stateAfter_succ by lia.
  destruct Hord as (bR & bA & iR & iA & HR & HA & _).
  destruct HR as (HbR & _ & HR0 & _). destruct HA as (HbA & _ & HA0 & _).
  cbn [snapshot MonthlyData.loanBalanceRegular MonthlyData.loanBalanceAggressive].
  rewrite HbR, HbA. now rewrite !max_zero_nonneg.
Qed.

(** *** The regular loan follows its schedule *)

Local Open Scope Qc_scope.

Section Schedule.

Variable input : LoanInput.
Variables r E : Qc.
Hypothesis Hrate : monthlyRate input = Fin r.
Hypothesis HE : baseEmi input = Fin E.
Hypothesis Hr : 0 < r.
Hypothesis HE0 : 0 < E.

Lemma onSchedule_step j st m :
  onSchedule r E (S j) st -> onSchedule r E j (loopBody input st m).
Proof.
  intros (Hc & b & i & Hb & Hi & Ha).
  pose proof (loopBody_regularLoan input st m) as HL. unfold regularLoan in HL.
  injection HL as Hb' Hi' Hc' _.
  unfold onSchedule. rewrite Hb', Hi', Hc'.
  cbn [Qcpower] in Ha.
  assert (Hx : 1 <= (1 + r) ^ j) by (apply Qcpower_ge_1; qc2q; lra).
  set (X := (1 + r) ^ j) in *. clearbody X.
  assert (Hnext : (b * (1 + r) - E) * r * X = E * (X - 1)).
  { replace ((b * (1 + r) - E) * r * X) with (b * r * ((1 + r) * X) - E * r * X) by ring.
    rewrite Ha. ring. }
  destruct (regularLoanPart_finite input r E Hrate HE m st b i Hc Hb Hi)
    as (Hi2 & [(Hlt & _) | (Hge & Hb2 & Hc2 & _)]).
  - exfalso. apply Qc_eq_Q in Hnext. clear Ha. qc2q.
    assert (0 < r * X)%Q by nra. nra.
  - split; [exact Hc2|]. exists (b * (1 + r) - E), (i + b * r).
    repeat split; assumption.
Qed.

Lemma onSchedule_run ms st :
  onSchedule r E (length ms) st -> onSchedule r E 0 (runMonths input st ms).
Proof.
  revert st. induction ms as [|m ms IH]; intros st H; [exact H|].
  rewrite runMonths_cons. apply IH. now apply onSchedule_step.
Qed.

(** At the end of its schedule the loan is still open, with balance 0: the
    last installment is never an overpayment. *)
Lemma onSchedule_end st :
  onSchedule r E 0 st -> isRegularClosed st = false /\ balanceRegular st = Fin 0.
Proof.
  intros (Hc & b & i & Hb & _ & Ha). split; [exact Hc|]. rewrite Hb. f_equal.
  cbn [Qcpower] in Ha. apply Qc_is_canon. apply Qc_eq_Q in Ha. clear HE0. qc2q. nra.
Qed.

End Schedule.

(** For a valid input with a positive rate the regular loan is repaid by the
    last installment exactly: it ends at balance 0 and its clamp never runs. *)
Lemma regular_loan_never_clamps input :
  validInput input = true ->
  (zero <? interestRate input)%num = true ->
  isRegularClosed (finalState input) = false
  /\ balanceRegular (finalState input) = zero.
Proof.
  intros Hv Hr.
  destruct (validInput_positive_rate input Hv Hr)
    as (P & R & S & X & U & Hi & HP & HR & HT & HS & HX & HU).
  set (T := tenureYears input) in *. clearbody T. subst input.
  apply (onSchedule_end (rateOf R) (installmentOf P (rateOf R) (Z.to_nat (T * 12)))
           (rateOf_pos R HR)).
  unfold finalState.
  apply (onSchedule_run _ _ _ (monthlyRate_finite P R T S X U)
           (baseEmi_finite P R T HP HR HT S X U) (rateOf_pos R HR)
           (installmentOf_pos P R T HP HR HT)).
  unfold monthsUpTo. rewrite length_map, length_seq.
  change (totalMonths (finiteInput P R T S X U)) with (T * 12)%Z.
  split; [reflexivity|]. exists P, 0.
  split; [reflexivity|]. split; [reflexivity|].
  symmetry. apply installment_amortizes; assumption.
Qed.

(** *** A year without extra capacity *)

Local Open Scope num_scope.

Lemma sub_self_not_pos a : (a - a >? zero) = false.
Proof.
  destruct a; try reflexivity. cbn [sub add neg]. apply lt_Fin_false.
  replace (q + - q)%Qc with 0%Qc by ring. apply Qcle_refl.
Qed.

Section FlatBudget.

Variable input : LoanInput.

Lemma loopBody_tracksEqual st m :
  totalBudgetThisMonth input m = baseEmi input ->
  tracksEqual st ->
  isRegularClosed (loopBody input st m) = false ->
  tracksEqual (loopBody input st m).
Proof.
  intros HB [HL HS] Hopen.
  rewrite isRegularClosed_loopBody in Hopen.
  destruct (regularLoanPart_open input m st Hopen) as [Hc _].
  unfold tracksEqual.
  rewrite loopBody_regularLoan, loopBody_aggressiveLoan,
    loopBody_regularSip, loopBody_aggressiveSip.
  unfold surplusRegular. rewrite Hopen, HB.
  unfold regularLoan, aggressiveLoan, regularSip, aggressiveSip in HL, HS.
  injection HL as Hb Hi Hcl Hm. injection HS as Hv Ht.
  rewrite <- Hv, <- Ht.
  unfold regularLoanPart in *. unfold aggressiveLoanPart.
  rewrite <- Hcl, <- Hb, <- Hi, <- Hm, HB.
  rewrite Hc in Hopen. rewrite !Hc. cbn [negb] in *.
  destruct (_ <? zero) eqn:Hlt; [discriminate Hopen|].
  cbn [fst snd]. split.
  - reflexivity.
  - unfold sipGrowth. now rewrite sub_self_not_pos.
Qed.

Lemma runMonths_tracksEqual ms st :
  (forall m, In m ms -> totalBudgetThisMonth input m = baseEmi input) ->
  tracksEqual st ->
  Forall strategiesAgree (data st) ->
  isRegularClosed (runMonths input st ms) = false ->
  tracksEqual (runMonths input st ms)
  /\ Forall strategiesAgree (data (runMonths input st ms)).
Proof.
  revert st. induction ms as [|m ms IH]; intros st HB Hst Hd Hopen; [now split|].
  rewrite runMonths_cons in *.
  assert (Hopen1 : isRegularClosed (loopBody input st m) = false)
    by apply (runMonths_regular_open input _ _ Hopen).
  assert (Hst1 : tracksEqual (loopBody input st m)).
  { apply loopBody_tracksEqual; [apply HB; now left | exact Hst | exact Hopen1]. }
  apply IH; [intros k Hk; apply HB; now right | exact Hst1 | | exact Hopen].
  rewrite loopBody_data. apply Forall_app. split; [exact Hd|].
  constructor; [|constructor].
  destruct Hst1 as [HL HS]. unfold regularLoan, aggressiveLoan in HL.
  unfold regularSip, aggressiveSip in HS.
  injection HL as Hb Hi _ _. injection HS as Hv Ht.
  unfold strategiesAgree. cbn. now rewrite Hb, Hi, Hv, Ht.
Qed.

Lemma flat_budget m :
  tenureYears input = 1%Z ->
  extraEmiPerYear input = zero ->
  In m (monthsUpTo (totalMonths input)) ->
  totalBudgetThisMonth input m = baseEmi input.
Proof.
  intros HT HX Hin. unfold totalMonths in Hin. rewrite HT in Hin.
  assert (Hm : (1 <= m <= 12)%Z).
  { unfold monthsUpTo in Hin. apply in_map_iff in Hin.
    destruct Hin as (k & <- & Hk). apply in_seq in Hk. cbn in Hk. lia. }
  unfold totalBudgetThisMonth, currentMonthlyBudget, extraPaymentBudget, yearOf.
  rewrite (yearOf_first m Hm), HX. cbn. apply add_zero_r.
Qed.

End FlatBudget.

(** In a flat year neither loan is closed by the clamp. *)
Lemma flat_year_never_closes input :
  validInput input = true ->
  tenureYears input = 1%Z ->
  extraEmiPerYear input = zero ->
  isRegularClosed (finalState input) = false
  /\ isAggressiveClosed (finalState input) = false.
Proof.
  intros Hv HT HX.
  assert (Hopen : isRegularClosed (finalState input) = false).
  { destruct (validInput_finite input Hv) as (P & R & S & X & U & Hi & _ & HR & _).
    destruct (Qcle_lt_or_eq _ _ HR) as [Hpos | Hz].
    - apply regular_loan_never_clamps; [exact Hv|].
      rewrite Hi. now apply lt_Fin.
    - unfold finalState.
      apply (runMonths_zero_rate input); [| |reflexivity|constructor].
      + rewrite Hi. cbn. now rewrite <- Hz.
      + rewrite Hi. reflexivity. }
  split; [exact Hopen|].
  destruct (runMonths_tracksEqual input (monthsUpTo (totalMonths input))
              (initialState input)) as [[HL _] _].
  - intros m Hm. now apply flat_budget.
  - split; reflexivity.
  - constructor.
  - exact Hopen.
  - fold (finalState input) in HL. unfold regularLoan, aggressiveLoan in HL.
    injection HL as _ _ Hc _. now rewrite <- Hc.
Qed.

(** In a flat year nothing is ever invested: the regular investment stays at 0
    as long as the loan stays open. *)
Lemma loopBody_flat_nothing_invested input st m s :
  one + sipMonthlyRate input = Fin s ->
  totalBudgetThisMonth input m = baseEmi input ->
  isRegularClosed (loopBody input st m) = false ->
  sipValueRegular st = zero ->
  sipValueRegular (loopBody input st m) = zero.
Proof.
  intros Hs HB Hopen Hv.
  destruct (loopBody_surplusRegular input st m) as [_ Hv'].
  rewrite isRegularClosed_loopBody in Hopen.
  rewrite Hv'. unfold surplusRegular. rewrite Hopen, HB.
  unfold sipGrowth. rewrite sub_self_not_pos. cbn [fst]. rewrite Hv, Hs.
  unfold zero. cbn [mul]. f_equal. apply Qcmult_0_l.
Qed.

Lemma runMonths_flat_nothing_invested input ms st s :
  one + sipMonthlyRate input = Fin s ->
  (forall m, In m ms -> totalBudgetThisMonth input m = baseEmi input) ->
  isRegularClosed (runMonths input st ms) = false ->
  sipValueRegular st = zero ->
  sipValueRegular (runMonths input st ms) = zero.
Proof.
  intros Hs. revert st. induction ms as [|m ms IH]; intros st HB Hopen Hv; [exact Hv|].
  rewrite runMonths_cons in *.
  apply IH; [intros k Hk; apply HB; now right | exact Hopen |].
  apply (loopBody_flat_nothing_invested input st m s Hs);
    [apply HB; now left | apply (runMonths_regular_open input _ _ Hopen) | exact Hv].
Qed.

Lemma flat_year_wealth_zero input :
  validInput input = true ->
  (zero <? interestRate input)%num = true ->
  tenureYears input = 1%Z ->
  extraEmiPerYear input = zero ->
  Summary.finalWealthRegular (summary (calculateScenario input)) = zero.
Proof.
  intros Hv Hr HT HX.
  destruct (regular_loan_never_clamps input Hv Hr) as [Hopen Hb].
  destruct (validInput_finite input Hv) as (P & R & S & X & U & Hi & _).
  assert (Hs : exists s, one + sipMonthlyRate input = Fin s).
  { rewrite Hi. eexists. reflexivity. }
  destruct Hs as (s & Hs).
  cbn [summary calculateScenario summaryOf Summary.finalWealthRegular].
  rewrite Hb.
  unfold finalState in *.
  rewrite (runMonths_flat_nothing_invested input _ _ s Hs); [reflexivity| |exact Hopen|reflexivity].
  intros m Hm. now apply flat_budget.
Qed.

(** In exact arithmetic: with [tenureYears = 1], [extraEmiPerYear = 0] and
    [stepUpPercentage = 0] on a valid input, the budget of every month is the
    installment itself, the two strategies pay and invest the same amounts
    every month (every snapshot shows the same figures for both), and
    [finalWealthRegular] and [finalWealthAggressive] are the same value; for
    a positive interest rate that value is 0, nothing having been invested
    and the loan being repaid by the twelfth installment.  In binary64 the
    twelfth installment can overpay by a rounding error, and the two
    strategies then part. *)
Theorem flat_year_strategies_agree (input : LoanInput) :
  validInput input = true ->
  tenureYears input = 1%Z ->
  extraEmiPerYear input = zero ->
  stepUpPercentage input = zero ->
  Summary.finalWealthRegular (summary (calculateScenario input))
  = Summary.finalWealthAggressive (summary (calculateScenario input))
  /\ Forall strategiesAgree (monthlyData (calculateScenario input))
  /\ Summary.totalAmountInvestedRegular (summary (calculateScenario input))
     = Summary.totalAmountInvestedAggressive (summary (calculateScenario input))
  /\ ((zero <? interestRate input) = true ->
      Summary.finalWealthRegular (summary (calculateScenario input)) = zero
      /\ Summary.finalWealthAggressive (summary (calculateScenario input)) = zero).
Proof.
  intros Hv HT HX _.
  destruct (flat_year_never_closes input Hv HT HX) as [Hopen _].
  destruct (runMonths_tracksEqual input (monthsUpTo (totalMonths input))
              (initialState input)) as [[HL HS] Hd].
  - intros m Hm. now apply flat_budget.
  - split; reflexivity.
  - constructor.
  - exact Hopen.
  - fold (finalState input) in HL, HS, Hd.
    unfold regularLoan, aggressiveLoan in HL. unfold regularSip, aggressiveSip in HS.
    injection HL as Hb _ _ _. injection HS as Hv' Ht.
    assert (Hfw : Summary.finalWealthRegular (summary (calculateScenario input))
                  = Summary.finalWealthAggressive (summary (calculateScenario input))).
    { cbn [summary calculateScenario summaryOf Summary.finalWealthRegular
           Summary.finalWealthAggressive].
      now rewrite Hb, Hv'. }
    split; [exact Hfw|]. split; [exact Hd|]. split; [exact Ht|].
    intros Hr. pose proof (flat_year_wealth_zero input Hv Hr HT HX) as H0.
    split; [exact H0 | now rewrite <- Hfw].
Qed.

(** *** Tenure months of a flat year *)

Lemma tenureMonths_default_when_never_closed_witness :
  Summary.regularTenureMonths (summary (calculateScenario flatYearInput)) = 12%Z
  /\ Summary.aggressiveTenureMonths (summary (calculateScenario flatYearInput)) = 12%Z.
Proof.
  destruct (flat_year_never_closes flatYearInput eq_refl eq_refl eq_refl) as [HR HA].
  destruct (tenureMonths_default_when_never_closed flatYearInput) as [H1 H2].
  split; [exact (H1 HR) | exact (H2 HA)].
Defined.

(** *** What a zero interest rate does to the loan tracks *)

(** C7: what the code does on a valid input where the claim asks for
    non-increasing balances.  At [interestRate = 0] (1,200,000 over 10 years)
    the installment is [NaN], so all 120 snapshots carry [NaN] as the regular
    and as the aggressive loan balance; no balance is [<=] the one before it,
    and neither sequence is non-increasing.  In exact arithmetic the claim
    holds for positive rates: [loan_tracks_positive_rate]. *)
Theorem zero_rate_balances_are_NaN :
  validInput zeroRateInput = true
  /\ length (monthlyData (calculateScenario zeroRateInput)) = 120%nat
  /\ forallb (fun d => isNaN (MonthlyData.loanBalanceRegular d)
                       && isNaN (MonthlyData.loanBalanceAggressive d))
       (monthlyData (calculateScenario zeroRateInput)) = true
  /\ nonIncreasingFrom (principal zeroRateInput)
       (map MonthlyData.loanBalanceRegular (monthlyData (calculateScenario zeroRateInput)))
     = false
  /\ nonIncreasingFrom (principal zeroRateInput)
       (map MonthlyData.loanBalanceAggressive (monthlyData (calculateScenario zeroRateInput)))
     = false
  /\ (NaN <=? NaN) = false.
Proof. vm_compute. repeat split. Qed.

(** C8: what the code does on a valid input where the claim asks for
    [aggressiveTotalInterest <= regularTotalInterest].  At [interestRate = 0]
    both totals are [NaN] and the comparison is false.  In exact arithmetic
    the claim holds for positive rates: [interest_ordered_positive_rate]. *)
Theorem zero_rate_interest_is_NaN :
  validInput zeroRateInput = true
  /\ Summary.regularTotalInterest (summary (calculateScenario zeroRateInput)) = NaN
  /\ Summary.aggressiveTotalInterest (summary (calculateScenario zeroRateInput)) = NaN
  /\ (Summary.aggressiveTotalInterest (summary (calculateScenario zeroRateInput))
      <=? Summary.regularTotalInterest (summary (calculateScenario zeroRateInput)))
     = false.
Proof. vm_compute. repeat split. Qed.

(** *** The snapshots, one per state *)


Lemma stateAfter_nonpos input k : (k <= 0)%Z -> stateAfter input k = initialState input.
Proof.
  intros Hk. unfold stateAfter, monthsUpTo.
  replace (Z.to_nat k) with 0%nat by lia. reflexivity.
Qed.




(** *** Both investments, for a positive rate *)

Local Open Scope Qc_scope.


Section Cash.

Variable input : LoanInput.
Variables r E s : Qc.
Hypothesis Hrate : monthlyRate input = Fin r.
Hypothesis HE : baseEmi input = Fin E.
Hypothesis Hsip : sipMonthlyRate input = Fin s.
Hypothesis Hr : 0 < r.
Hypothesis HE0 : 0 < E.
Hypothesis Hs : 0 <= s.


End Cash.






(** *** A tenure of no months *)

Local Open Scope num_scope.

(** X4: with [tenureYears <= 0] the loop body never runs: the result has no
    snapshot, no interest and nothing invested, both tenures are the
    non-positive [tenureYears * 12], both final wealths are
    [0 - Math.max(0, principal)], and the verdict is "Invest". *)
Theorem no_months_result (input : LoanInput) :
  (tenureYears input <= 0)%Z ->
  let r := calculateScenario input in
  monthlyData r = []
  /\ Summary.regularTotalInterest (summary r) = zero
  /\ Summary.aggressiveTotalInterest (summary r) = zero
  /\ Summary.totalAmountInvestedRegular (summary r) = zero
  /\ Summary.totalAmountInvestedAggressive (summary r) = zero
  /\ Summary.regularTenureMonths (summary r) = (tenureYears input * 12)%Z
  /\ Summary.aggressiveTenureMonths (summary r) = (tenureYears input * 12)%Z
  /\ Summary.finalWealthRegular (summary r) = zero - max zero (principal input)
  /\ Summary.finalWealthAggressive (summary r) = zero - max zero (principal input)
  /\ Summary.winningStrategy (summary r) = Invest.
Proof.
  intros HT r. subst r.
  assert (Hfin : finalState input = initialState input).
  { rewrite finalState_stateAfter. apply stateAfter_nonpos. unfold totalMonths. lia. }
  unfold calculateScenario. rewrite Hfin.
  cbn [monthlyData summary summaryOf initialState data
       Summary.regularTotalInterest Summary.aggressiveTotalInterest
       Summary.totalAmountInvestedRegular Summary.totalAmountInvestedAggressive
       Summary.regularTenureMonths Summary.aggressiveTenureMonths
       Summary.finalWealthRegular Summary.finalWealthAggressive Summary.winningStrategy
       totalInterestRegular totalInterestAggressive totalInvestedRegular
       totalInvestedAggressive regularClosedMonth aggressiveClosedMonth
       sipValueRegular sipValueAggressive balanceRegular balanceAggressive].
  repeat split. unfold gt. now rewrite lt_irrefl.
Qed.

Lemma no_months_result_witness :
  monthlyData (calculateScenario invalidInput) = []
  /\ Summary.winningStrategy (summary (calculateScenario invalidInput)) = Invest.
Proof.
  assert (HT : (tenureYears invalidInput <= 0)%Z) by (cbn; lia).
  destruct (no_months_result invalidInput HT) as (H1 & _ & _ & _ & _ & _ & _ & _ & _ & H2).
  split; [exact H1 | exact H2].
Defined.

(** *** The run of a valid input with a positive rate, snapshot by snapshot *)

Local Open Scope Qc_scope.





Local Open Scope num_scope.



(** In that run both strategies do invest: at the end of the year each has
    put in one installment and the investment has grown by the month's 1 %. *)
Example bonusYearInput_invests :
  option_map Qred (view (Summary.totalAmountInvestedRegular
                           (summary (calculateScenario bonusYearInput))))
  = option_map Qred (view (baseEmi bonusYearInput))
  /\ option_map Qred (view (Summary.totalAmountInvestedAggressive
                              (summary (calculateScenario bonusYearInput))))
     = option_map Qred (view (baseEmi bonusYearInput))
  /\ (zero <? baseEmi bonusYearInput)%num = true
  /\ (Summary.totalAmountInvestedRegular (summary (calculateScenario bonusYearInput))
      <? Summary.finalWealthRegular (summary (calculateScenario bonusYearInput)))%num
     = true.
Proof.
  split; [vm_compute; reflexivity|]. split; [vm_compute; reflexivity|].
  split; vm_compute; reflexivity.
Qed.

(* ================================================================== *)
(** ** The input fields of [App.tsx] *)
(* ================================================================== *)

(** *** What an input field reports *)

Local Open Scope num_scope.

Example handleChange_12_5 :
  option_map view (reported (handleChange zero text_12_5)) = Some (Some (25 # 2)%Q).
Proof. vm_compute. reflexivity. Qed.

Example handleChange_dot :
  handleChange zero text_dot = {| displayed := Some text_dot; reported := None |}.
Proof. reflexivity. Qed.

Lemma digitsValue_nonneg_from ds acc :
  Forall (fun c => isDigit c = true) ds -> (0 <= acc)%Z ->
  (0 <= fold_left (fun a c => (10 * a + (c - 48))%Z) ds acc)%Z.
Proof.
  intros H. revert acc. induction H as [|c ds Hc _ IH]; intros acc Hacc; [exact Hacc|].
  cbn [fold_left]. apply IH. unfold isDigit in Hc. apply andb_true_iff in Hc.
  destruct Hc as [H1 H2]. apply Z.leb_le in H1. lia.
Qed.

Lemma takeDigits_digits s : Forall (fun c => isDigit c = true) (takeDigits s).
Proof.
  induction s as [|c s IH]; cbn; [constructor|].
  destruct (isDigit c) eqn:Hc; constructor; assumption.
Qed.

Lemma digitsValue_takeDigits s : (0 <= digitsValue (takeDigits s))%Z.
Proof.
  unfold digitsValue. apply digitsValue_nonneg_from; [apply takeDigits_digits|lia].
Qed.

(** Whatever [parseFloat] returns here is [NaN] or a number that is not
    negative. *)
Lemma parseFloatDecimal_nonneg s v :
  parseFloatDecimal s = v -> isNaN v = false -> (zero <=? v) = true.
Proof.
  intros <-. unfold parseFloatDecimal.
  set (whole := takeDigits s).
  set (fraction := match dropDigits s with [] => [] | _ :: rest => takeDigits rest end).
  assert (Hw : (0 <= digitsValue whole)%Z) by apply digitsValue_takeDigits.
  assert (Hf : (0 <= digitsValue fraction)%Z).
  { subst fraction. destruct (dropDigits s); [cbn; lia|apply digitsValue_takeDigits]. }
  assert (Hval : (0 <= Q2Qc (inject_Z (digitsValue whole))
                  + Q2Qc (inject_Z (digitsValue fraction))
                    / Q2Qc (inject_Z (10 ^ Z.of_nat (length fraction))))%Qc).
  { assert (H10 : (0 < Q2Qc (inject_Z (10 ^ Z.of_nat (length fraction))))%Qc).
    { pose proof (Z.pow_pos_nonneg 10 (Z.of_nat (length fraction)) ltac:(lia) ltac:(lia)).
      unfold Qclt, Q2Qc. cbn [this]. rewrite !Qred_correct. unfold Qlt. cbn. lia. }
    assert (Hfq : (0 <= Q2Qc (inject_Z (digitsValue fraction)))%Qc).
    { unfold Qcle, Q2Qc. cbn [this]. rewrite !Qred_correct. unfold Qle. cbn. lia. }
    assert (Hwq : (0 <= Q2Qc (inject_Z (digitsValue whole)))%Qc).
    { unfold Qcle, Q2Qc. cbn [this]. rewrite !Qred_correct. unfold Qle. cbn. lia. }
    pose proof (Qc_div_nonneg _ _ Hfq H10) as Hd.
    set (a := Q2Qc (inject_Z (digitsValue whole))) in *.
    set (b := (Q2Qc (inject_Z (digitsValue fraction)) / _)%Qc) in *.
    clearbody a b. clear - Hwq Hd. qc2q. lra. }
  intros Hn. destruct whole, fraction; try discriminate Hn; now apply le_Fin.
Qed.

Lemma matchesDecimal_chars s c :
  matchesDecimal s = true -> In c s -> isDigit c = true \/ isDot c = true.
Proof.
  unfold matchesDecimal. induction s as [|c' s IH]; [intros _ []|].
  cbn [dropDigits]. destruct (isDigit c') eqn:Hd.
  - intros Hm [<- | Hin]; [now left | now apply IH].
  - intros Hm Hin. apply andb_true_iff in Hm. destruct Hm as [Hdot Hrest].
    destruct Hin as [<- | Hin]; [now right|].
    left. rewrite forallb_forall in Hrest. now apply Hrest.
Qed.

(** X16: whatever text a field holds, the value it reports is never [NaN]
    and never negative: it is 0 when the field is empty, without regard to
    the field's lower bound, and otherwise a number the text denotes that is
    at least the lower bound. *)
Theorem handleChange_reports_valid_numbers (min : num) (rawVal : JsString) (v : num) :
  reported (handleChange min rawVal) = Some v ->
  isNaN v = false
  /\ (zero <=? v) = true
  /\ (rawVal = [] -> v = zero)
  /\ (rawVal <> [] ->
      (min <=? v) = true /\ v = parseFloatDecimal rawVal
      /\ displayed (handleChange min rawVal) = Some rawVal).
Proof.
  unfold handleChange. destruct rawVal as [|c s].
  - cbn [reported]. intros [= <-].
    split; [reflexivity|]. split; [reflexivity|]. split; [reflexivity|].
    intros Hne. now destruct Hne.
  - destruct (matchesDecimal (c :: s)); cbn [negb]; [|discriminate].
    cbn [reported displayed].
    destruct (isNaN (parseFloatDecimal (c :: s))) eqn:Hn; cbn [negb andb]; [discriminate|].
    destruct (min <=? parseFloatDecimal (c :: s)) eqn:Hmin; [|discriminate].
    intros [= <-]. split; [exact Hn|]. split.
    + now apply (parseFloatDecimal_nonneg (c :: s)).
    + split; [discriminate|]. intros _. repeat split. exact Hmin.
Qed.

Lemma handleChange_reports_valid_numbers_witness :
  exists v,
    reported (handleChange zero text_12_5) = Some v
    /\ isNaN v = false /\ (zero <=? v) = true.
Proof.
  assert (H : reported (handleChange zero text_12_5)
              = Some (parseFloatDecimal text_12_5)) by reflexivity.
  exists (parseFloatDecimal text_12_5). split; [exact H|].
  destruct (handleChange_reports_valid_numbers zero text_12_5 _ H) as (H1 & H2 & _).
  split; [exact H1 | exact H2].
Defined.

(** X17: a text with any character other than a digit or a dot is ignored:
    the field keeps what it displays and reports nothing, so a sign, an
    exponent or a letter can never reach the calculator. *)
Theorem handleChange_ignores_other_characters (min : num) (rawVal : JsString) (c : Z) :
  In c rawVal ->
  isDigit c = false ->
  isDot c = false ->
  handleChange min rawVal = {| displayed := None; reported := None |}.
Proof.
  intros Hin Hd Hdot. unfold handleChange.
  destruct rawVal as [|c' s]; [destruct Hin|].
  destruct (matchesDecimal (c' :: s)) eqn:Hm; [|reflexivity].
  destruct (matchesDecimal_chars _ c Hm Hin) as [H | H]; congruence.
Qed.

Lemma handleChange_ignores_other_characters_witness :
  handleChange zero text_minus_5 = {| displayed := None; reported := None |}.
Proof.
  assert (Hin : In 45%Z text_minus_5) by (left; reflexivity).
  exact (handleChange_ignores_other_characters zero text_minus_5 45%Z Hin eq_refl eq_refl).
Defined.

(* ================================================================== *)
(** ** Properties of the binary64 engine *)
(* ================================================================== *)

Import Floats.
Import Binary64.
Local Open Scope float_scope.

(** *** Binary64 arithmetic *)

Lemma sub_zero_r64 (x : float) : x - 0 = x.
Proof.
  apply Prim2SF_inj. rewrite sub_spec. unfold SF64sub.
  change (Prim2SF 0) with (S754_zero false).
  destruct (Prim2SF x) as [[]|[]| |[] m e]; reflexivity.
Qed.

Lemma SFcompare_refl (p : spec_float) :
  SFcompare p p = None \/ SFcompare p p = Some Eq.
Proof.
  destruct p as [s|s| |s m e]; cbn; auto.
  - destruct s; auto.
  - right. destruct s; rewrite Z.compare_refl, Pos.compare_cont_refl; reflexivity.
Qed.

Lemma ltb_irrefl64 (x : float) : (x <? x) = false.
Proof.
  rewrite ltb_spec. unfold SFltb.
  destruct (SFcompare_refl (Prim2SF x)) as [-> | ->]; reflexivity.
Qed.

(** *** The loop *)

Lemma monthsFrom_cons first count :
  monthsFrom first (S count) = first :: monthsFrom (first + 1) count.
Proof.
  unfold monthsFrom. cbn [seq map]. f_equal; [lia|].
  rewrite <- seq_shift, map_map. apply map_ext. intros i. lia.
Qed.

Lemma monthsFrom_snoc first count :
  monthsFrom first (S count) = monthsFrom first count ++ [(first + Z.of_nat count)%Z].
Proof. unfold monthsFrom. now rewrite seq_S, map_app. Qed.

Lemma length_monthsFrom first count : length (monthsFrom first count) = count.
Proof. unfold monthsFrom. now rewrite length_map, length_seq. Qed.

Lemma in_monthsFrom first count m :
  In m (monthsFrom first count) <-> (first <= m < first + Z.of_nat count)%Z.
Proof.
  unfold monthsFrom. rewrite in_map_iff. split.
  - intros (i & <- & Hi). apply in_seq in Hi. lia.
  - intros H. exists (Z.to_nat (m - first)). split; [lia|]. apply in_seq. lia.
Qed.

Section Loop64.

Variable Math_pow : float -> float -> float.
Variable input : LoanInput.

(** Each part of the loop body writes the variables of its own track. *)
Lemma regularLoanPart_rest month st :
  aggressiveLoan (regularLoanPart Math_pow input month st) = aggressiveLoan st
  /\ regularSip (regularLoanPart Math_pow input month st) = regularSip st
  /\ aggressiveSip (regularLoanPart Math_pow input month st) = aggressiveSip st
  /\ data (regularLoanPart Math_pow input month st) = data st.
Proof.
  unfold regularLoanPart. destruct (negb (isRegularClosed st)); [|now repeat split].
  destruct (_ <? _); now repeat split.
Qed.

Lemma regularInvestmentPart_rest month st :
  regularLoan (regularInvestmentPart Math_pow input month st) = regularLoan st
  /\ aggressiveLoan (regularInvestmentPart Math_pow input month st) = aggressiveLoan st
  /\ aggressiveSip (regularInvestmentPart Math_pow input month st) = aggressiveSip st
  /\ data (regularInvestmentPart Math_pow input month st) = data st.
Proof.
  unfold regularInvestmentPart, sipGrowth. destruct (0 <? _); now repeat split.
Qed.

Lemma aggressiveLoanPart_rest month st :
  regularLoan (fst (aggressiveLoanPart Math_pow input month st)) = regularLoan st
  /\ regularSip (fst (aggressiveLoanPart Math_pow input month st)) = regularSip st
  /\ aggressiveSip (fst (aggressiveLoanPart Math_pow input month st)) = aggressiveSip st
  /\ data (fst (aggressiveLoanPart Math_pow input month st)) = data st.
Proof.
  unfold aggressiveLoanPart. destruct (negb (isAggressiveClosed st)); [|now repeat split].
  destruct (_ <? _); now repeat split.
Qed.

Lemma aggressiveInvestmentPart_rest amount st :
  regularLoan (aggressiveInvestmentPart input amount st) = regularLoan st
  /\ aggressiveLoan (aggressiveInvestmentPart input amount st) = aggressiveLoan st
  /\ regularSip (aggressiveInvestmentPart input amount st) = regularSip st
  /\ data (aggressiveInvestmentPart input amount st) = data st.
Proof.
  unfold aggressiveInvestmentPart, sipGrowth. destruct (0 <? _); now repeat split.
Qed.

(** The body of the loop, part after part. *)
Lemma loopBody_parts st month :
  loopBody Math_pow input st month
  = let st2 := regularInvestmentPart Math_pow input month
                 (regularLoanPart Math_pow input month st) in
    let st4 := aggressiveInvestmentPart input
                 (snd (aggressiveLoanPart Math_pow input month st2))
                 (fst (aggressiveLoanPart Math_pow input month st2)) in
    withData st4 (data st4 ++ [snapshot month st4]).
Proof. unfold loopBody. now destruct (aggressiveLoanPart _ _ _ _). Qed.

(** The body of the loop pushes one snapshot, that of the variables it
    leaves, and does nothing else to [data]. *)
Lemma loopBody_data64 st month :
  data (loopBody Math_pow input st month)
  = data st ++ [snapshot month (loopBody Math_pow input st month)].
Proof.
  rewrite loopBody_parts. cbv zeta. cbn [data withData].
  destruct (aggressiveInvestmentPart_rest
              (snd (aggressiveLoanPart Math_pow input month
                      (regularInvestmentPart Math_pow input month
                         (regularLoanPart Math_pow input month st))))
              (fst (aggressiveLoanPart Math_pow input month
                      (regularInvestmentPart Math_pow input month
                         (regularLoanPart Math_pow input month st)))))
    as (_ & _ & _ & ->).
  destruct (aggressiveLoanPart_rest month
              (regularInvestmentPart Math_pow input month
                 (regularLoanPart Math_pow input month st))) as (_ & _ & _ & ->).
  destruct (regularInvestmentPart_rest month (regularLoanPart Math_pow input month st))
    as (_ & _ & _ & ->).
  destruct (regularLoanPart_rest month st) as (_ & _ & _ & ->).
  reflexivity.
Qed.

(** The regular loan's variables after the body are those its loan part
    leaves; the aggressive loan's are those its own loan part leaves. *)
Lemma loopBody_regularLoan64 st month :
  regularLoan (loopBody Math_pow input st month)
  = regularLoan (regularLoanPart Math_pow input month st).
Proof.
  rewrite loopBody_parts. cbv zeta.
  change (regularLoan (withData ?s ?d)) with (regularLoan s).
  rewrite (proj1 (aggressiveInvestmentPart_rest _ _)).
  rewrite (proj1 (aggressiveLoanPart_rest _ _)).
  now rewrite (proj1 (regularInvestmentPart_rest _ _)).
Qed.

Lemma loopBody_aggressiveLoan64 st month :
  aggressiveLoan (loopBody Math_pow input st month)
  = aggressiveLoan
      (fst (aggressiveLoanPart Math_pow input month
              (regularInvestmentPart Math_pow input month
                 (regularLoanPart Math_pow input month st)))).
Proof.
  rewrite loopBody_parts. cbv zeta.
  change (aggressiveLoan (withData ?s ?d)) with (aggressiveLoan s).
  now rewrite (proj1 (proj2 (aggressiveInvestmentPart_rest _ _))).
Qed.

Lemma loopBody_length st month :
  length (data (loopBody Math_pow input st month)) = S (length (data st)).
Proof. rewrite loopBody_data64, length_app. cbn. lia. Qed.

Lemma runMonths_snoc st months month :
  runMonths Math_pow input st (months ++ [month])
  = loopBody Math_pow input (runMonths Math_pow input st months) month.
Proof. unfold runMonths. now rewrite fold_left_app. Qed.

Lemma runMonths_length st months :
  length (data (runMonths Math_pow input st months))
  = (length (data st) + length months)%nat.
Proof.
  revert st. induction months as [|m months IH]; intros st; cbn [runMonths fold_left length].
  - lia.
  - unfold runMonths in IH. rewrite IH, loopBody_length. lia.
Qed.

Lemma stateAfter_succ64 k :
  stateAfter Math_pow input (S k)
  = loopBody Math_pow input (stateAfter Math_pow input k) (Z.of_nat (S k)).
Proof.
  unfold stateAfter. rewrite monthsFrom_snoc, runMonths_snoc.
  now replace (1 + Z.of_nat k)%Z with (Z.of_nat (S k)) by lia.
Qed.

Lemma stateAfter_length k : length (data (stateAfter Math_pow input k)) = k.
Proof. unfold stateAfter. now rewrite runMonths_length, length_monthsFrom. Qed.

(** A loop that returns has run its body for the months [month],
    [month + 1], ... up to the first one that fails the test, and the array
    had room for their snapshots. *)
Lemma runLoop_returns fuel : forall month st st',
  (Z.of_nat (length (data st)) <= maxArrayLength)%Z ->
  runLoop Math_pow input fuel month st = Returns st' ->
  exists k : nat,
    (k < fuel)%nat
    /\ st' = runMonths Math_pow input st (monthsFrom month k)
    /\ (forall i, (i < k)%nat ->
          (Z2F (month + Z.of_nat i) <=? totalMonths input) = true)
    /\ (Z2F (month + Z.of_nat k) <=? totalMonths input) = false
    /\ (Z.of_nat (length (data st)) + Z.of_nat k <= maxArrayLength)%Z.
Proof.
  induction fuel as [|fuel IH]; intros month st st' Hlen; cbn [runLoop]; [discriminate|].
  destruct (Z2F month <=? totalMonths input) eqn:Htest.
  - destruct (Z.of_nat (length (data st)) <? maxArrayLength)%Z eqn:Hroom; [|discriminate].
    apply Z.ltb_lt in Hroom.
    intros H. apply IH in H; [|rewrite loopBody_length; lia].
    destruct H as (k & Hk & Hst & Htrue & Hfalse & Hmax).
    rewrite loopBody_length in Hmax.
    exists (S k). split; [lia|]. split; [now rewrite monthsFrom_cons|]. split; [|split].
    + intros [|i] Hi.
      * now replace (month + Z.of_nat 0)%Z with month by lia.
      * replace (month + Z.of_nat (S i))%Z with (month + 1 + Z.of_nat i)%Z by lia.
        apply Htrue. lia.
    + now replace (month + Z.of_nat (S k))%Z with (month + 1 + Z.of_nat k)%Z by lia.
    + lia.
  - intros [= <-]. exists 0%nat. split; [lia|]. split; [reflexivity|]. split; [|split].
    + intros i Hi. lia.
    + now replace (month + Z.of_nat 0)%Z with month by lia.
    + lia.
Qed.




(** What a call that returns has done. *)
Lemma calculateScenario_returns fuel result :
  calculateScenario Math_pow input fuel = Returns result ->
  exists k : nat,
    (k < fuel)%nat
    /\ result = resultOf (stateAfter Math_pow input k)
    /\ (forall i, (i < k)%nat ->
          (Z2F (1 + Z.of_nat i) <=? totalMonths input) = true)
    /\ (Z2F (1 + Z.of_nat k) <=? totalMonths input) = false
    /\ (Z.of_nat k <= maxArrayLength)%Z.
Proof.
  unfold calculateScenario.
  destruct (runLoop Math_pow input fuel 1 (initialState input)) as [st| |] eqn:Hrun;
    try discriminate.
  intros [= <-]. apply runLoop_returns in Hrun; [|cbn; unfold maxArrayLength; lia].
  destruct Hrun as (k & Hk & -> & Htrue & Hfalse & Hmax).
  cbn [initialState data length] in Hmax.
  exists k. split; [exact Hk|]. split; [reflexivity|]. split; [exact Htrue|].
  split; [exact Hfalse|lia].
Qed.


(** The snapshots are those of the states the loop went through. *)
Lemma stateAfter_data k :
  data (stateAfter Math_pow input k)
  = map (fun m => snapshot m (stateAfter Math_pow input (Z.to_nat m))) (monthsFrom 1 k).
Proof.
  induction k as [|k IH]; [reflexivity|].
  rewrite monthsFrom_snoc, map_app. cbn [map]. rewrite <- IH.
  replace (Z.to_nat (1 + Z.of_nat k)) with (S k) by lia.
  rewrite stateAfter_succ64 at 1. rewrite loopBody_data64. rewrite <- stateAfter_succ64.
  now replace (Z.of_nat (S k)) with (1 + Z.of_nat k)%Z by lia.
Qed.

End Loop64.

(** *** No validation *)




(** *** Strategy A's surplus in the month its loan closes *)

(** C3: in the month the regular loan closes, the loan part pays off the
    balance and sets [isRegularClosed] before line 76 reads it, so the
    surplus is that month's whole budget and not the budget minus [E]: the
    month's installment is both paid to the loan and invested. *)
Theorem surplusRegular_closing_month
    (Math_pow : float -> float -> float) (input : LoanInput)
    (st : LoopState) (month : Z) :
  isRegularClosed st = false ->
  (balanceRegular st
   - (baseEmi Math_pow input - balanceRegular st * monthlyRate input) <? 0) = true ->
  isRegularClosed (regularLoanPart Math_pow input month st) = true
  /\ regularClosedMonth (regularLoanPart Math_pow input month st) = Z2F month
  /\ balanceRegular (regularLoanPart Math_pow input month st)
     = balanceRegular st - balanceRegular st
  /\ surplusRegular Math_pow input month (regularLoanPart Math_pow input month st)
     = totalBudgetThisMonth Math_pow input month
  /\ totalInvestedRegular (loopBody Math_pow input st month)
     = (if 0 <? totalBudgetThisMonth Math_pow input month
        then totalInvestedRegular st + totalBudgetThisMonth Math_pow input month
        else totalInvestedRegular st)
  /\ sipValueRegular (loopBody Math_pow input st month)
     = (if 0 <? totalBudgetThisMonth Math_pow input month
        then (sipValueRegular st + totalBudgetThisMonth Math_pow input month)
             * (1 + sipMonthlyRate input)
        else sipValueRegular st * (1 + sipMonthlyRate input)).
Proof.
  intros Hopen Hclamp.
  assert (Hpart : regularLoanPart Math_pow input month st
                  = withRegularLoan st (balanceRegular st - balanceRegular st)
                      (totalInterestRegular st + balanceRegular st * monthlyRate input)
                      true (Z2F month)).
  { unfold regularLoanPart. rewrite Hopen. cbn [negb]. now rewrite Hclamp. }
  assert (Hsurplus : surplusRegular Math_pow input month
                       (regularLoanPart Math_pow input month st)
                     = totalBudgetThisMonth Math_pow input month).
  { rewrite Hpart. unfold surplusRegular. cbn [isRegularClosed withRegularLoan].
    apply sub_zero_r64. }
  split; [now rewrite Hpart|]. split; [now rewrite Hpart|]. split; [now rewrite Hpart|].
  split; [exact Hsurplus|].
  unfold loopBody, regularInvestmentPart, sipGrowth. rewrite Hsurplus.
  rewrite Hpart. cbn [sipValueRegular totalInvestedRegular withRegularLoan].
  unfold aggressiveInvestmentPart, aggressiveLoanPart, sipGrowth.
  repeat match goal with
         | |- context [if ?c then _ else _] => destruct c
         end; split; reflexivity.
Qed.

Lemma surplusRegular_closing_month_witness :
  isRegularClosed (regularLoanPart powInt flatYearInput 12 flatYearMonth11) = true
  /\ regularClosedMonth (regularLoanPart powInt flatYearInput 12 flatYearMonth11) = Z2F 12
  /\ balanceRegular (regularLoanPart powInt flatYearInput 12 flatYearMonth11)
     = balanceRegular flatYearMonth11 - balanceRegular flatYearMonth11
  /\ surplusRegular powInt flatYearInput 12
       (regularLoanPart powInt flatYearInput 12 flatYearMonth11)
     = totalBudgetThisMonth powInt flatYearInput 12
  /\ totalInvestedRegular (loopBody powInt flatYearInput flatYearMonth11 12)
     = (if 0 <? totalBudgetThisMonth powInt flatYearInput 12
        then totalInvestedRegular flatYearMonth11 + totalBudgetThisMonth powInt flatYearInput 12
        else totalInvestedRegular flatYearMonth11)
  /\ sipValueRegular (loopBody powInt flatYearInput flatYearMonth11 12)
     = (if 0 <? totalBudgetThisMonth powInt flatYearInput 12
        then (sipValueRegular flatYearMonth11 + totalBudgetThisMonth powInt flatYearInput 12)
             * (1 + sipMonthlyRate flatYearInput)
        else sipValueRegular flatYearMonth11 * (1 + sipMonthlyRate flatYearInput)).
Proof.
  assert (Hopen : isRegularClosed flatYearMonth11 = false) by (vm_compute; reflexivity).
  assert (Hclamp : (balanceRegular flatYearMonth11
                    - (baseEmi powInt flatYearInput
                       - balanceRegular flatYearMonth11 * monthlyRate flatYearInput) <? 0)
                   = true) by (vm_compute; reflexivity).
  exact (surplusRegular_closing_month powInt flatYearInput flatYearMonth11 12 Hopen Hclamp).
Defined.

(** The run in which this happens: 1,000 over one year at 10 %.  After
    eleven installments the balance is below what the twelfth repays by
    4e-12, the rounding of the schedule; the twelfth month closes the loan
    and then invests the whole budget of 87.92, where the budget minus [E] is
    0 and nothing had been invested before. *)
Lemma flat_year_closing_month :
  stateAfter powInt flatYearInput 12 = loopBody powInt flatYearInput flatYearMonth11 12
  /\ isRegularClosed flatYearMonth11 = false
  /\ isRegularClosed (stateAfter powInt flatYearInput 12) = true
  /\ baseEmi powInt flatYearInput = 0x1.5fa9de578eddcp+6
  /\ totalBudgetThisMonth powInt flatYearInput 12 = 0x1.5fa9de578eddcp+6
  /\ totalBudgetThisMonth powInt flatYearInput 12 - baseEmi powInt flatYearInput = 0
  /\ totalInvestedRegular flatYearMonth11 = 0
  /\ totalInvestedRegular (stateAfter powInt flatYearInput 12) = 0x1.5fa9de578eddcp+6.
Proof.
  split; [vm_compute; reflexivity|]. split; [vm_compute; reflexivity|].
  split; [vm_compute; reflexivity|]. split; [vm_compute; reflexivity|].
  split; [vm_compute; reflexivity|]. split; [vm_compute; reflexivity|].
  split; vm_compute; reflexivity.
Qed.

(** *** A year without extra capacity *)

(** The loop body takes from [Math.pow] the installment and the month's
    stepped-up capacity, and nothing else. *)
Lemma loopBody_pow_ext (pow1 pow2 : float -> float -> float) input st month :
  baseEmi pow1 input = baseEmi pow2 input ->
  currentMonthlyBudget pow1 input month = currentMonthlyBudget pow2 input month ->
  loopBody pow1 input st month = loopBody pow2 input st month.
Proof.
  intros HE HB.
  unfold loopBody, regularInvestmentPart, aggressiveInvestmentPart, aggressiveLoanPart,
    regularLoanPart, surplusRegular, totalBudgetThisMonth, extraPaymentBudget.
  now rewrite HE, HB.
Qed.

Lemma runLoop_pow_ext (pow1 pow2 : float -> float -> float) input fuel :
  forall month st,
    (forall m st', (month <= m < month + Z.of_nat fuel)%Z ->
       (Z2F m <=? totalMonths input) = true ->
       loopBody pow1 input st' m = loopBody pow2 input st' m) ->
    runLoop pow1 input fuel month st = runLoop pow2 input fuel month st.
Proof.
  induction fuel as [|fuel IH]; intros month st Hbody; cbn [runLoop]; [reflexivity|].
  destruct (Z2F month <=? totalMonths input) eqn:Htest; [|reflexivity].
  destruct (Z.of_nat (length (data st)) <? maxArrayLength)%Z; [|reflexivity].
  rewrite (Hbody month st) by (assumption || lia).
  apply IH. intros m st' Hm. apply Hbody. lia.
Qed.

(** With no step-up the first year's budget is the installment. *)
Lemma currentMonthlyBudget_first_year (Math_pow : float -> float -> float) input month :
  (1 <= month <= 12)%Z ->
  currentMonthlyBudget Math_pow input month = baseEmi Math_pow input.
Proof.
  intros Hm. unfold currentMonthlyBudget.
  assert (H : (1 <? yearOf month)%Z = false).
  { apply Z.ltb_ge. unfold yearOf.
    pose proof (Z.div_mod (month + 11) 12 ltac:(lia)).
    pose proof (Z.mod_pos_bound (month + 11) 12 ltac:(lia)). lia. }
  now rewrite H.
Qed.

(** C9: for 1,000 over one year at 10 % with no extra installment and no
    step-up, a valid input of the boundary case, the two strategies do not
    end with the same wealth.  The eleventh balance is below what the twelfth
    installment repays by the rounding of the schedule, so in month 12 both
    loans close by their clamp; Strategy A then invests the month's whole
    budget (C3) and Strategy B the 4e-12 it has left.  This holds for every
    [Math.pow] that returns the correctly rounded power at the one pair of
    arguments the run passes to it:
    [Math.pow(1.0083333333333333, 12) = 1.1047130674412968]. *)
Theorem flat_year_strategies_differ (Math_pow : float -> float -> float) :
  Math_pow 0x1.0222222222222p+0 12 = 0x1.1ace79c01fcc6p+0 ->
  validInput flatYearInput = true
  /\ tenureYears flatYearInput = 1
  /\ extraEmiPerYear flatYearInput = 0
  /\ stepUpPercentage flatYearInput = 0
  /\ exists result,
       calculateScenario Math_pow flatYearInput 13 = Returns result
       /\ length (monthlyData result) = 12%nat
       /\ Summary.regularTenureMonths (summary result) = 12
       /\ Summary.aggressiveTenureMonths (summary result) = 12
       /\ Summary.totalAmountInvestedRegular (summary result) = 0x1.5fa9de578eddcp+6
       /\ Summary.totalAmountInvestedAggressive (summary result) = 0x1.1ap-38
       /\ Summary.finalWealthRegular (summary result) = 0x1.632e2090c0ef5p+6
       /\ Summary.finalWealthAggressive (summary result) = 0x1.1cd1eb851eb85p-38
       /\ (Summary.finalWealthRegular (summary result)
           =? Summary.finalWealthAggressive (summary result)) = false
       /\ Summary.netWealthDifference (summary result) = 0x1.632e2090c0dd8p+6.
Proof.
  intros Hpow.
  split; [reflexivity|]. split; [reflexivity|]. split; [reflexivity|].
  split; [reflexivity|].
  assert (HE : baseEmi Math_pow flatYearInput = baseEmi powInt flatYearInput).
  { unfold baseEmi.
    change (1 + monthlyRate flatYearInput) with 0x1.0222222222222p+0.
    change (totalMonths flatYearInput) with 12.
    rewrite Hpow.
    replace (powInt 0x1.0222222222222p+0 12) with 0x1.1ace79c01fcc6p+0
      by (vm_compute; reflexivity).
    reflexivity. }
  assert (Hrun : calculateScenario Math_pow flatYearInput 13
                 = calculateScenario powInt flatYearInput 13).
  { unfold calculateScenario. rewrite (runLoop_pow_ext Math_pow powInt); [reflexivity|].
    intros m st' Hm Htest.
    assert (Hm12 : (m <= 12)%Z).
    { destruct (Z_le_gt_dec m 12) as [H|H]; [exact H|exfalso].
      replace m with 13%Z in Htest by lia. discriminate Htest. }
    apply loopBody_pow_ext; [exact HE|].
    rewrite !currentMonthlyBudget_first_year by lia. exact HE. }
  rewrite Hrun. eexists. split; [vm_compute; reflexivity|].
  split; [reflexivity|]. split; [reflexivity|]. split; [reflexivity|].
  split; [reflexivity|]. split; [reflexivity|]. split; [reflexivity|].
  split; [reflexivity|]. split; reflexivity.
Qed.

Lemma flat_year_strategies_differ_witness :
  validInput flatYearInput = true
  /\ tenureYears flatYearInput = 1
  /\ extraEmiPerYear flatYearInput = 0
  /\ stepUpPercentage flatYearInput = 0
  /\ exists result,
       calculateScenario powInt flatYearInput 13 = Returns result
       /\ length (monthlyData result) = 12%nat
       /\ Summary.regularTenureMonths (summary result) = 12
       /\ Summary.aggressiveTenureMonths (summary result) = 12
       /\ Summary.totalAmountInvestedRegular (summary result) = 0x1.5fa9de578eddcp+6
       /\ Summary.totalAmountInvestedAggressive (summary result) = 0x1.1ap-38
       /\ Summary.finalWealthRegular (summary result) = 0x1.632e2090c0ef5p+6
       /\ Summary.finalWealthAggressive (summary result) = 0x1.1cd1eb851eb85p-38
       /\ (Summary.finalWealthRegular (summary result)
           =? Summary.finalWealthAggressive (summary result)) = false
       /\ Summary.netWealthDifference (summary result) = 0x1.632e2090c0dd8p+6.
Proof.
  assert (Hpow : powInt 0x1.0222222222222p+0 12 = 0x1.1ace79c01fcc6p+0)
    by (vm_compute; reflexivity).
  exact (flat_year_strategies_differ powInt Hpow).
Defined.

(** *** The shape of a result, for every input *)

Lemma yearOf_bounds m : (12 * (yearOf m - 1) < m <= 12 * yearOf m)%Z.
Proof.
  unfold yearOf.
  pose proof (Z.div_mod (m + 11) 12 ltac:(lia)).
  pose proof (Z.mod_pos_bound (m + 11) 12 ltac:(lia)). lia.
Qed.

(** X1: whatever the input, a result holds one snapshot per month 1, 2, ...
    in order, as many as there are months that pass the test
    [month <= tenureYears * 12] before the first that fails it; each
    snapshot's year is the year its month falls in,
    [12 * (year - 1) < month <= 12 * year]. *)
Theorem snapshot_month_and_year
    (Math_pow : float -> float -> float) (input : LoanInput) (fuel : nat)
    (result : SimulationResult) :
  calculateScenario Math_pow input fuel = Returns result ->
  map MonthlyData.month (monthlyData result)
  = monthsFrom 1 (length (monthlyData result))
  /\ Forall (fun d =>
       (12 * (MonthlyData.year d - 1) < MonthlyData.month d <= 12 * MonthlyData.year d)%Z
       /\ (Z2F (MonthlyData.month d) <=? totalMonths input) = true)
       (monthlyData result)
  /\ (Z2F (Z.of_nat (length (monthlyData result)) + 1) <=? totalMonths input) = false
  /\ (Z.of_nat (length (monthlyData result)) <= maxArrayLength)%Z.
Proof.
  intros Hcall. apply calculateScenario_returns in Hcall.
  destruct Hcall as (k & _ & -> & Htrue & Hfalse & Hmax).
  cbn [resultOf monthlyData]. rewrite stateAfter_length.
  rewrite stateAfter_data. split; [|split; [|split]].
  - rewrite map_map. cbn [snapshot MonthlyData.month]. apply map_id.
  - apply Forall_forall. intros d Hd. apply in_map_iff in Hd.
    destruct Hd as (m & <- & Hm). apply in_monthsFrom in Hm.
    cbn [snapshot MonthlyData.month MonthlyData.year]. split; [apply yearOf_bounds|].
    replace m with (1 + Z.of_nat (Z.to_nat (m - 1)))%Z by lia. apply Htrue. lia.
  - now replace (Z.of_nat k + 1)%Z with (1 + Z.of_nat k)%Z by lia.
  - exact Hmax.
Qed.

Lemma snapshot_month_and_year_witness :
  exists result,
    calculateScenario powInt flatYearInput 13 = Returns result
    /\ map MonthlyData.month (monthlyData result)
       = monthsFrom 1 (length (monthlyData result))
    /\ length (monthlyData result) = 12%nat.
Proof.
  assert (H : calculateScenario powInt flatYearInput 13
              = Returns (resultOf (stateAfter powInt flatYearInput 12)))
    by (vm_compute; reflexivity).
  exists (resultOf (stateAfter powInt flatYearInput 12)). split; [exact H|].
  split; [|vm_compute; reflexivity].
  exact (proj1 (snapshot_month_and_year powInt flatYearInput 13 _ H)).
Defined.

(** X2: whatever the input, when the result has snapshots its summary
    repeats the last of them: the interest totals and the invested totals
    are its cumulative figures, the interest saved is the difference of its
    two interest figures, and each final wealth is its investment value
    minus its loan balance. *)
Theorem summary_is_last_snapshot
    (Math_pow : float -> float -> float) (input : LoanInput) (fuel : nat)
    (result : SimulationResult) (rows : list MonthlyData.t) (d : MonthlyData.t) :
  calculateScenario Math_pow input fuel = Returns result ->
  monthlyData result = rows ++ [d] ->
  Summary.regularTotalInterest (summary result) = MonthlyData.cumulativeInterestRegular d
  /\ Summary.aggressiveTotalInterest (summary result)
     = MonthlyData.cumulativeInterestAggressive d
  /\ Summary.interestSaved (summary result)
     = MonthlyData.cumulativeInterestRegular d - MonthlyData.cumulativeInterestAggressive d
  /\ Summary.totalAmountInvestedRegular (summary result) = MonthlyData.totalInvestedRegular d
  /\ Summary.totalAmountInvestedAggressive (summary result)
     = MonthlyData.totalInvestedAggressive d
  /\ Summary.finalWealthRegular (summary result)
     = MonthlyData.sipValueRegular d - MonthlyData.loanBalanceRegular d
  /\ Summary.finalWealthAggressive (summary result)
     = MonthlyData.sipValueAggressive d - MonthlyData.loanBalanceAggressive d.
Proof.
  intros Hcall Hrows. apply calculateScenario_returns in Hcall.
  destruct Hcall as (k & _ & -> & _). cbn [resultOf monthlyData summary] in *.
  destruct k as [|k]; [destruct rows; discriminate Hrows|].
  rewrite stateAfter_data, monthsFrom_snoc, map_app in Hrows. cbn [map] in Hrows.
  apply app_inj_tail in Hrows. destruct Hrows as [_ <-].
  replace (Z.to_nat (1 + Z.of_nat k)) with (S k) by lia.
  repeat split.
Qed.

Lemma summary_is_last_snapshot_witness :
  exists result rows d,
    calculateScenario powInt flatYearInput 13 = Returns result
    /\ monthlyData result = rows ++ [d]
    /\ Summary.finalWealthRegular (summary result)
       = MonthlyData.sipValueRegular d - MonthlyData.loanBalanceRegular d.
Proof.
  assert (H : calculateScenario powInt flatYearInput 13
              = Returns (resultOf (stateAfter powInt flatYearInput 12)))
    by (vm_compute; reflexivity).
  assert (Hrows : monthlyData (resultOf (stateAfter powInt flatYearInput 12))
                  = data (stateAfter powInt flatYearInput 11)
                    ++ [snapshot 12 (stateAfter powInt flatYearInput 12)])
    by (vm_compute; reflexivity).
  exists (resultOf (stateAfter powInt flatYearInput 12)),
    (data (stateAfter powInt flatYearInput 11)),
    (snapshot 12 (stateAfter powInt flatYearInput 12)).
  split; [exact H|]. split; [exact Hrows|].
  destruct (summary_is_last_snapshot powInt flatYearInput 13 _ _ _ H Hrows)
    as (_ & _ & _ & _ & _ & Hw & _).
  exact Hw.
Defined.

(** *** Tenure months *)

Section ClosedMonths64.

Variable Math_pow : float -> float -> float.
Variable input : LoanInput.

Lemma closedMonthRecorded_succ k c :
  closedMonthRecorded input k c -> closedMonthRecorded input (S k) c.
Proof.
  intros [H | (m & Hm & H)]; [now left|]. right. exists m. split; [lia|exact H].
Qed.

Lemma loopBody_closedMonths st month :
  (regularClosedMonth (loopBody Math_pow input st month) = regularClosedMonth st
   \/ regularClosedMonth (loopBody Math_pow input st month) = Z2F month)
  /\ (aggressiveClosedMonth (loopBody Math_pow input st month) = aggressiveClosedMonth st
      \/ aggressiveClosedMonth (loopBody Math_pow input st month) = Z2F month).
Proof.
  split.
  - change (regularClosedMonth (loopBody Math_pow input st month))
      with (snd (regularLoan (loopBody Math_pow input st month))).
    rewrite loopBody_regularLoan64. unfold regularLoanPart.
    destruct (negb (isRegularClosed st)); [|now left].
    destruct (_ <? _); cbn; auto.
  - change (aggressiveClosedMonth (loopBody Math_pow input st month))
      with (snd (aggressiveLoan (loopBody Math_pow input st month))).
    rewrite loopBody_aggressiveLoan64.
    change (aggressiveClosedMonth st) with (snd (aggressiveLoan st)).
    rewrite <- (proj1 (regularLoanPart_rest Math_pow input month st)).
    rewrite <- (proj1 (proj2 (regularInvestmentPart_rest Math_pow input month
                                (regularLoanPart Math_pow input month st)))).
    generalize (regularInvestmentPart Math_pow input month
                  (regularLoanPart Math_pow input month st)).
    intros st2. unfold aggressiveLoanPart.
    destruct (negb (isAggressiveClosed st2)); [|now left].
    destruct (_ <? _); cbn; auto.
Qed.

Lemma stateAfter_closedMonths k :
  closedMonthRecorded input k (regularClosedMonth (stateAfter Math_pow input k))
  /\ closedMonthRecorded input k (aggressiveClosedMonth (stateAfter Math_pow input k)).
Proof.
  induction k as [|k [IHr IHa]]; [split; now left|].
  rewrite stateAfter_succ64.
  destruct (loopBody_closedMonths (stateAfter Math_pow input k) (Z.of_nat (S k)))
    as [[-> | ->] [-> | ->]]; split;
    try (now apply closedMonthRecorded_succ);
    right; exists (Z.of_nat (S k)); (split; [lia|reflexivity]).
Qed.

End ClosedMonths64.

(** X3: whatever the input, each of the two tenure figures of the summary is
    either the initial [tenureYears * 12] or the number of a month of the
    run, one of 1 .. [length monthlyData], which then passes the test
    [month <= tenureYears * 12]. *)
Theorem tenureMonths_within_run
    (Math_pow : float -> float -> float) (input : LoanInput) (fuel : nat)
    (result : SimulationResult) :
  calculateScenario Math_pow input fuel = Returns result ->
  (Summary.regularTenureMonths (summary result) = totalMonths input
   \/ exists m : Z,
        (1 <= m <= Z.of_nat (length (monthlyData result)))%Z
        /\ Summary.regularTenureMonths (summary result) = Z2F m
        /\ (Summary.regularTenureMonths (summary result) <=? totalMonths input) = true)
  /\ (Summary.aggressiveTenureMonths (summary result) = totalMonths input
      \/ exists m : Z,
           (1 <= m <= Z.of_nat (length (monthlyData result)))%Z
           /\ Summary.aggressiveTenureMonths (summary result) = Z2F m
           /\ (Summary.aggressiveTenureMonths (summary result) <=? totalMonths input)
              = true).
Proof.
  intros Hcall. apply calculateScenario_returns in Hcall.
  destruct Hcall as (k & _ & -> & Htrue & _).
  cbn [resultOf monthlyData summary summaryOf Summary.regularTenureMonths
       Summary.aggressiveTenureMonths].
  rewrite stateAfter_length.
  assert (Htest : forall m, (1 <= m <= Z.of_nat k)%Z ->
                    (Z2F m <=? totalMonths input) = true).
  { intros m Hm. replace m with (1 + Z.of_nat (Z.to_nat (m - 1)))%Z by lia.
    apply Htrue. lia. }
  destruct (stateAfter_closedMonths Math_pow input k) as [Hr Ha].
  split.
  - destruct Hr as [Hr | (m & Hm & Hr)]; [now left|]. right. exists m.
    split; [exact Hm|]. split; [exact Hr|]. rewrite Hr. now apply Htest.
  - destruct Ha as [Ha | (m & Hm & Ha)]; [now left|]. right. exists m.
    split; [exact Hm|]. split; [exact Ha|]. rewrite Ha. now apply Htest.
Qed.

Lemma tenureMonths_within_run_witness :
  exists result,
    calculateScenario powInt flatYearInput 13 = Returns result
    /\ Summary.regularTenureMonths (summary result) = 12
    /\ length (monthlyData result) = 12%nat
    /\ (Summary.regularTenureMonths (summary result) = totalMonths flatYearInput
        \/ exists m : Z,
             (1 <= m <= Z.of_nat (length (monthlyData result)))%Z
             /\ Summary.regularTenureMonths (summary result) = Z2F m
             /\ (Summary.regularTenureMonths (summary result)
                 <=? totalMonths flatYearInput) = true).
Proof.
  assert (H : calculateScenario powInt flatYearInput 13
              = Returns (resultOf (stateAfter powInt flatYearInput 12)))
    by (vm_compute; reflexivity).
  exists (resultOf (stateAfter powInt flatYearInput 12)). split; [exact H|].
  split; [vm_compute; reflexivity|]. split; [vm_compute; reflexivity|].
  exact (proj1 (tenureMonths_within_run powInt flatYearInput 13 _ H)).
Defined.

(** *** A tenure without a whole month *)

(** X19: when [1 <= tenureYears * 12] is false (a tenure of zero or less, a
    fraction of a month, or [NaN]) the loop body never runs, whatever the
    other inputs: the call returns at once with no snapshot, zero interest
    and zero invested, both tenure figures equal to [tenureYears * 12]
    itself, both final wealths equal to [0 - Math.max(0, principal)] and the
    verdict 'Invest'. *)
Theorem no_whole_month_result
    (Math_pow : float -> float -> float) (input : LoanInput) (fuel : nat) :
  (1 <=? totalMonths input) = false ->
  exists result,
    calculateScenario Math_pow input (S fuel) = Returns result
    /\ monthlyData result = []
    /\ Summary.regularTotalInterest (summary result) = 0
    /\ Summary.aggressiveTotalInterest (summary result) = 0
    /\ Summary.interestSaved (summary result) = 0
    /\ Summary.regularTenureMonths (summary result) = totalMonths input
    /\ Summary.aggressiveTenureMonths (summary result) = totalMonths input
    /\ Summary.totalAmountInvestedRegular (summary result) = 0
    /\ Summary.totalAmountInvestedAggressive (summary result) = 0
    /\ Summary.finalWealthRegular (summary result) = 0 - Math_max 0 (principal input)
    /\ Summary.finalWealthAggressive (summary result) = 0 - Math_max 0 (principal input)
    /\ Summary.winningStrategy (summary result) = Invest.
Proof.
  intros Htest. exists (resultOf (initialState input)). split.
  - unfold calculateScenario. cbn [runLoop]. change (Z2F 1) with 1. now rewrite Htest.
  - cbn. unfold gtb. rewrite ltb_irrefl64. repeat split.
Qed.

Lemma no_whole_month_result_witness :
  exists result,
    calculateScenario powInt partMonthInput 1 = Returns result
    /\ monthlyData result = []
    /\ Summary.regularTenureMonths (summary result) = 0x1.8p-1.
Proof.
  destruct (no_whole_month_result powInt partMonthInput 0 eq_refl)
    as (result & Hcall & Hdata & _ & _ & _ & Hten & _).
  exists result. split; [exact Hcall|]. split; [exact Hdata|]. exact Hten.
Defined.

(** *** A tenure without end *)

(** Rounding a positive integer never gives [NaN] or a negative number: the
    mantissa stays non-negative through the shifts. *)
Lemma shr_1_nonneg mrs : (0 <= shr_m mrs)%Z -> (0 <= shr_m (shr_1 mrs))%Z.
Proof.
  destruct mrs as [m r s]. cbn [shr_m]. intros Hm. unfold shr_1.
  destruct m as [|[p|p|]|p]; cbn [shr_m]; lia.
Qed.

Lemma iter_pos_shr_1_nonneg p : forall mrs,
  (0 <= shr_m mrs)%Z -> (0 <= shr_m (iter_pos shr_1 p mrs))%Z.
Proof.
  induction p as [p IH|p IH|]; intros mrs Hm; cbn [iter_pos].
  - apply IH, IH, shr_1_nonneg, Hm.
  - apply IH, IH, Hm.
  - apply shr_1_nonneg, Hm.
Qed.

Lemma shr_fexp_nonneg m e l :
  (0 <= m)%Z -> (0 <= shr_m (fst (shr_fexp prec emax m e l)))%Z.
Proof.
  intros Hm. unfold shr_fexp, shr.
  assert (H0 : (0 <= shr_m (shr_record_of_loc m l))%Z)
    by (destruct l as [|[]]; exact Hm).
  destruct (fexp prec emax (Zdigits2 m + e) - e)%Z; cbn [fst];
    [exact H0 | now apply iter_pos_shr_1_nonneg | exact H0].
Qed.

Lemma round_nearest_even_nonneg m l : (0 <= m)%Z -> (0 <= round_nearest_even m l)%Z.
Proof.
  intros Hm. unfold round_nearest_even.
  destruct l as [|[]]; try destruct (Z.even m); lia.
Qed.

Lemma binary_round_aux_le_infinity m e l :
  (0 <= m)%Z ->
  SFleb (binary_round_aux prec emax false m e l) (S754_infinity false) = true.
Proof.
  intros Hm. unfold binary_round_aux.
  pose proof (shr_fexp_nonneg m e l Hm) as H1.
  destruct (shr_fexp prec emax m e l) as [mrs' e']. cbn [fst] in H1.
  pose proof (shr_fexp_nonneg (round_nearest_even (shr_m mrs') (loc_of_shr_record mrs'))
                e' loc_Exact (round_nearest_even_nonneg _ _ H1)) as H2.
  destruct (shr_fexp prec emax _ e' loc_Exact) as [mrs'' e'']. cbn [fst] in H2.
  destruct (shr_m mrs'') as [|p|p]; [reflexivity| |lia].
  destruct (e'' <=? emax - prec)%Z; reflexivity.
Qed.

(** Every month counted is below [Infinity]. *)
Lemma Z2F_le_infinity m : (0 < m)%Z -> (Z2F m <=? infinity) = true.
Proof.
  intros Hm. destruct m as [|p|p]; try lia. unfold Z2F.
  rewrite leb_spec, of_uint63_spec. change (Prim2SF infinity) with (S754_infinity false).
  pose proof (Uint63.to_Z_bounded (Uint63.of_Z (Zpos p))) as Hb.
  destruct (Uint63.to_Z (Uint63.of_Z (Zpos p))) as [|q|q]; [reflexivity| |lia].
  unfold binary_normalize, binary_round.
  destruct (shl_align q 0 _) as [mz ez]. apply binary_round_aux_le_infinity. lia.
Qed.

(** X20: with [tenureYears = Infinity], a Number above 0 that the tenure
    field can send, the call never returns: every month passes the test of
    the loop, whatever the other inputs and however many turns it is
    given. *)
Theorem infinite_tenure_never_returns
    (Math_pow : float -> float -> float) (input : LoanInput) (fuel : nat)
    (result : SimulationResult) :
  tenureYears input = infinity ->
  calculateScenario Math_pow input fuel <> Returns result.
Proof.
  intros Hinf Hcall. apply calculateScenario_returns in Hcall.
  destruct Hcall as (k & _ & _ & _ & Hfalse & _).
  unfold totalMonths in Hfalse. rewrite Hinf in Hfalse.
  change (infinity * 12) with infinity in Hfalse.
  rewrite Z2F_le_infinity in Hfalse by lia. discriminate.
Qed.

Lemma infinite_tenure_never_returns_witness :
  (0 <? tenureYears endlessInput) = true
  /\ forall result, calculateScenario powInt endlessInput 1000 <> Returns result.
Proof.
  split; [reflexivity|]. intros result.
  exact (infinite_tenure_never_returns powInt endlessInput 1000 result eq_refl).
Defined.

(** *** A closed loan *)

Section Closed64.

Variable Math_pow : float -> float -> float.
Variable input : LoanInput.

Lemma loopBody_regular_closed st month :
  isRegularClosed st = true ->
  regularLoan (loopBody Math_pow input st month) = regularLoan st.
Proof.
  intros Hc. rewrite loopBody_regularLoan64. unfold regularLoanPart. now rewrite Hc.
Qed.

Lemma loopBody_aggressive_closed st month :
  isAggressiveClosed st = true ->
  aggressiveLoan (loopBody Math_pow input st month) = aggressiveLoan st.
Proof.
  intros Hc. rewrite loopBody_aggressiveLoan64.
  rewrite <- (proj1 (regularLoanPart_rest Math_pow input month st)).
  rewrite <- (proj1 (proj2 (regularInvestmentPart_rest Math_pow input month
                              (regularLoanPart Math_pow input month st)))).
  assert (Hc2 : isAggressiveClosed
                  (regularInvestmentPart Math_pow input month
                     (regularLoanPart Math_pow input month st)) = true).
  { change (isAggressiveClosed ?s) with (snd (fst (aggressiveLoan s))).
    rewrite (proj1 (proj2 (regularInvestmentPart_rest Math_pow input month _))).
    rewrite (proj1 (regularLoanPart_rest Math_pow input month st)). exact Hc. }
  revert Hc2.
  generalize (regularInvestmentPart Math_pow input month
                (regularLoanPart Math_pow input month st)).
  intros st2 Hc2. unfold aggressiveLoanPart. now rewrite Hc2.
Qed.

Lemma runMonths_regular_closed months : forall st,
  isRegularClosed st = true ->
  regularLoan (runMonths Math_pow input st months) = regularLoan st.
Proof.
  induction months as [|m months IH]; intros st Hc; [reflexivity|].
  cbn [runMonths fold_left]. unfold runMonths in IH. rewrite IH.
  - now apply loopBody_regular_closed.
  - change (isRegularClosed ?s) with (snd (fst (regularLoan s))).
    now rewrite loopBody_regular_closed.
Qed.

Lemma runMonths_aggressive_closed months : forall st,
  isAggressiveClosed st = true ->
  aggressiveLoan (runMonths Math_pow input st months) = aggressiveLoan st.
Proof.
  induction months as [|m months IH]; intros st Hc; [reflexivity|].
  cbn [runMonths fold_left]. unfold runMonths in IH. rewrite IH.
  - now apply loopBody_aggressive_closed.
  - change (isAggressiveClosed ?s) with (snd (fst (aggressiveLoan s))).
    now rewrite loopBody_aggressive_closed.
Qed.

End Closed64.

(** X21: closing a loan is one-way, under every arithmetic and for every
    input: once a strategy's loan is closed, however many more months the
    loop runs, the loan stays closed, its balance and its interest total do
    not change and its closing month is kept, so every later snapshot shows
    the same balance and the same cumulative interest for it. *)
Theorem closed_loan_is_frozen
    (Math_pow : float -> float -> float) (input : LoanInput)
    (st : LoopState) (months : list Z) (month : Z) :
  (isRegularClosed st = true ->
     regularLoan (runMonths Math_pow input st months) = regularLoan st
     /\ MonthlyData.loanBalanceRegular
          (snapshot month (runMonths Math_pow input st months))
        = MonthlyData.loanBalanceRegular (snapshot month st)
     /\ MonthlyData.cumulativeInterestRegular
          (snapshot month (runMonths Math_pow input st months))
        = MonthlyData.cumulativeInterestRegular (snapshot month st))
  /\ (isAggressiveClosed st = true ->
      aggressiveLoan (runMonths Math_pow input st months) = aggressiveLoan st
      /\ MonthlyData.loanBalanceAggressive
           (snapshot month (runMonths Math_pow input st months))
         = MonthlyData.loanBalanceAggressive (snapshot month st)
      /\ MonthlyData.cumulativeInterestAggressive
           (snapshot month (runMonths Math_pow input st months))
         = MonthlyData.cumulativeInterestAggressive (snapshot month st)).
Proof.
  split; intros Hc.
  - pose proof (runMonths_regular_closed Math_pow input months st Hc) as H.
    split; [exact H|]. unfold regularLoan in H. injection H as Hb Hi _ _.
    cbn [snapshot MonthlyData.loanBalanceRegular MonthlyData.cumulativeInterestRegular].
    now rewrite Hb, Hi.
  - pose proof (runMonths_aggressive_closed Math_pow input months st Hc) as H.
    split; [exact H|]. unfold aggressiveLoan in H. injection H as Hb Hi _ _.
    cbn [snapshot MonthlyData.loanBalanceAggressive
         MonthlyData.cumulativeInterestAggressive].
    now rewrite Hb, Hi.
Qed.

Lemma closed_loan_is_frozen_witness :
  isRegularClosed flatYearMonth12 = true
  /\ isAggressiveClosed flatYearMonth12 = true
  /\ regularLoan (runMonths powInt flatYearInput flatYearMonth12 [13; 14]%Z)
     = regularLoan flatYearMonth12
  /\ aggressiveLoan (runMonths powInt flatYearInput flatYearMonth12 [13; 14]%Z)
     = aggressiveLoan flatYearMonth12.
Proof.
  assert (HR : isRegularClosed flatYearMonth12 = true) by (vm_compute; reflexivity).
  assert (HA : isAggressiveClosed flatYearMonth12 = true) by (vm_compute; reflexivity).
  destruct (closed_loan_is_frozen powInt flatYearInput flatYearMonth12 [13; 14]%Z 14)
    as [H1 H2].
  split; [exact HR|]. split; [exact HA|].
  split; [exact (proj1 (H1 HR)) | exact (proj1 (H2 HA))].
Defined.

(** *** Figures that are never negative *)

Lemma notNegative_SF (x : float) : notNegative x <-> notNegativeSF (Prim2SF x).
Proof.
  unfold notNegative. rewrite ltb_spec. change (Prim2SF 0) with (S754_zero false).
  destruct (Prim2SF x) as [s|[]| |[] m e]; cbn; intuition discriminate.
Qed.

Lemma binary_round_aux_notNegative m e l :
  (0 <= m)%Z -> notNegativeSF (binary_round_aux prec emax false m e l).
Proof.
  intros Hm. unfold binary_round_aux.
  pose proof (shr_fexp_nonneg m e l Hm) as H1.
  destruct (shr_fexp prec emax m e l) as [mrs' e']. cbn [fst] in H1.
  pose proof (shr_fexp_nonneg (round_nearest_even (shr_m mrs') (loc_of_shr_record mrs'))
                e' loc_Exact (round_nearest_even_nonneg _ _ H1)) as H2.
  destruct (shr_fexp prec emax _ e' loc_Exact) as [mrs'' e'']. cbn [fst] in H2.
  destruct (shr_m mrs'') as [|p|p]; [exact I| |lia].
  destruct (e'' <=? emax - prec)%Z; exact I.
Qed.

Lemma binary_normalize_notNegative m e :
  (0 <= m)%Z -> notNegativeSF (binary_normalize prec emax m e false).
Proof.
  intros Hm. unfold binary_normalize. destruct m as [|p|p]; [exact I| |lia].
  unfold binary_round. destruct (shl_align p _ _) as [mz ez].
  apply binary_round_aux_notNegative. lia.
Qed.

Lemma add_notNegative (a b : float) :
  notNegative a -> notNegative b -> notNegative (a + b).
Proof.
  rewrite !notNegative_SF, add_spec. unfold SF64add.
  destruct (Prim2SF a) as [sa|sa| |sa ma ea]; destruct (Prim2SF b) as [sb|sb| |sb mb eb];
    try destruct sa; try destruct sb; cbn [notNegativeSF SFadd]; intros Ha Hb;
    try exact I; try contradiction.
  apply binary_normalize_notNegative. cbn [cond_Zopp]. lia.
Qed.

Lemma mul_notNegative (a b : float) :
  notNegative a -> notNegative b -> notNegative (a * b).
Proof.
  rewrite !notNegative_SF, mul_spec. unfold SF64mul.
  destruct (Prim2SF a) as [sa|sa| |sa ma ea]; destruct (Prim2SF b) as [sb|sb| |sb mb eb];
    try destruct sa; try destruct sb; cbn [notNegativeSF SFmul xorb]; intros Ha Hb;
    try exact I; try contradiction.
  apply binary_round_aux_notNegative. lia.
Qed.

(** Dividing by a positive number. *)
Lemma div_notNegative (a c : float) :
  notNegative a -> (0 <? c) = true -> notNegative (a / c).
Proof.
  rewrite !notNegative_SF, ltb_spec, div_spec. change (Prim2SF 0) with (S754_zero false).
  unfold SF64div.
  destruct (Prim2SF a) as [sa|sa| |sa ma ea]; destruct (Prim2SF c) as [sc|sc| |sc mc ec];
    try destruct sa; try destruct sc; cbn [notNegativeSF SFdiv xorb SFltb SFcompare];
    intros Ha Hc; try exact I; try contradiction; try discriminate.
  destruct (SFdiv_core_binary prec emax (Z.pos ma) ea (Z.pos mc) ec) as [[mz ez] lz] eqn:Hcore.
  apply binary_round_aux_notNegative.
  unfold SFdiv_core_binary in Hcore.
  set (m' := match (ea - ec - _)%Z with Z.pos _ => _ | _ => _ end) in Hcore.
  assert (Hm' : (0 <= m')%Z).
  { subst m'. destruct (ea - ec - _)%Z; try lia. apply Z.shiftl_nonneg. lia. }
  pose proof (Z_div_mod m' (Z.pos mc) ltac:(lia)) as Hdm.
  destruct (Z.div_eucl m' (Z.pos mc)) as [q r]. injection Hcore as <- _ _.
  nia.
Qed.

Lemma sub_diag_notNegative (b : float) : notNegative (b - b).
Proof.
  rewrite notNegative_SF, sub_spec. unfold SF64sub.
  destruct (Prim2SF b) as [s|s| |s m e]; try destruct s; cbn [notNegativeSF SFsub];
    try exact I; apply binary_normalize_notNegative; cbn [cond_Zopp]; lia.
Qed.

Lemma Math_max_zero_notNegative (b : float) : notNegative (Math_max 0 b).
Proof.
  unfold notNegative, Math_max.
  destruct (is_nan 0 || is_nan b); [reflexivity|].
  destruct (0 <? b) eqn:Hpos.
  - rewrite ltb_spec in *. change (Prim2SF 0) with (S754_zero false) in *.
    destruct (Prim2SF b) as [s|[]| |[] m e]; try discriminate; reflexivity.
  - destruct (b <? 0) eqn:Hneg; [reflexivity|].
    change (get_sign 0) with false. cbv iota. reflexivity.
Qed.

Lemma positive_notNegative (c : float) : (0 <? c) = true -> notNegative c.
Proof.
  rewrite notNegative_SF, ltb_spec. change (Prim2SF 0) with (S754_zero false).
  destruct (Prim2SF c) as [s|[]| |[] m e]; cbn; intros H; try exact I; discriminate.
Qed.

Lemma one_notNegative : notNegative 1.
Proof. reflexivity. Qed.

Lemma zero_notNegative : notNegative 0.
Proof. reflexivity. Qed.

Section NotNegative.

Variable Math_pow : float -> float -> float.
Variable input : LoanInput.
Hypothesis Hrate : notNegative (interestRate input).
Hypothesis Hsip : notNegative (sipReturnRate input).

Lemma monthlyRate_notNegative : notNegative (monthlyRate input).
Proof. unfold monthlyRate. repeat apply div_notNegative; try reflexivity. exact Hrate. Qed.

Lemma growth_notNegative : notNegative (1 + sipMonthlyRate input).
Proof.
  apply add_notNegative; [apply one_notNegative|].
  unfold sipMonthlyRate. repeat apply div_notNegative; try reflexivity. exact Hsip.
Qed.

Lemma sipGrowth_notNegative v t amount :
  notNegative v -> notNegative t ->
  notNegative (fst (sipGrowth input v t amount))
  /\ notNegative (snd (sipGrowth input v t amount)).
Proof.
  intros Hv Ht. unfold sipGrowth. destruct (0 <? amount) eqn:Hpos; cbn [fst snd].
  - pose proof (positive_notNegative _ Hpos) as Ha. split.
    + apply mul_notNegative; [now apply add_notNegative | apply growth_notNegative].
    + now apply add_notNegative.
  - split; [|exact Ht]. apply mul_notNegative; [exact Hv | apply growth_notNegative].
Qed.

Lemma loopBody_figuresNotNegative st month :
  figuresNotNegative st -> figuresNotNegative (loopBody Math_pow input st month).
Proof.
  intros (HbR & HiR & HvR & HtR & HbA & HiA & HvA & HtA).
  pose proof monthlyRate_notNegative as Hr.
  rewrite loopBody_parts. cbv zeta. unfold figuresNotNegative.
  cbn [withData balanceRegular totalInterestRegular sipValueRegular totalInvestedRegular
       balanceAggressive totalInterestAggressive sipValueAggressive totalInvestedAggressive].
  set (st1 := regularLoanPart Math_pow input month st).
  set (st2 := regularInvestmentPart Math_pow input month st1).
  set (st3 := fst (aggressiveLoanPart Math_pow input month st2)).
  set (amount := snd (aggressiveLoanPart Math_pow input month st2)).
  set (st4 := aggressiveInvestmentPart input amount st3).
  (* the regular loan *)
  assert (H1 : notNegative (balanceRegular st1) /\ notNegative (totalInterestRegular st1)).
  { subst st1. unfold regularLoanPart. destruct (negb (isRegularClosed st)); [|now split].
    destruct (_ <? 0) eqn:Hclamp; cbn [withRegularLoan balanceRegular totalInterestRegular].
    - split; [apply sub_diag_notNegative|].
      apply add_notNegative; [exact HiR | now apply mul_notNegative].
    - split; [exact Hclamp|].
      apply add_notNegative; [exact HiR | now apply mul_notNegative]. }
  destruct (regularLoanPart_rest Math_pow input month st) as (EA1 & ES1 & ET1 & _).
  fold st1 in EA1, ES1, ET1.
  (* the regular investment *)
  assert (H2 : notNegative (sipValueRegular st2) /\ notNegative (totalInvestedRegular st2)).
  { subst st2. unfold regularInvestmentPart.
    unfold regularSip in ES1. injection ES1 as Ev Et.
    pose proof (sipGrowth_notNegative (sipValueRegular st1) (totalInvestedRegular st1)
                  (surplusRegular Math_pow input month st1)
                  ltac:(now rewrite Ev) ltac:(now rewrite Et)) as Hg.
    destruct (sipGrowth input _ _ _) as [v t]. exact Hg. }
  destruct (regularInvestmentPart_rest Math_pow input month st1) as (ER2 & EA2 & ET2 & _).
  fold st2 in ER2, EA2, ET2.
  (* the aggressive loan *)
  assert (H3 : notNegative (balanceAggressive st3)
               /\ notNegative (totalInterestAggressive st3)).
  { assert (Hb2 : notNegative (balanceAggressive st2)
                  /\ notNegative (totalInterestAggressive st2)).
    { unfold aggressiveLoan in EA1, EA2. injection EA1 as E1 E2 _ _.
      injection EA2 as E3 E4 _ _. now rewrite E3, E4, E1, E2. }
    destruct Hb2 as [Hb2 Hi2].
    subst st3. unfold aggressiveLoanPart.
    destruct (negb (isAggressiveClosed st2)); [|now split].
    destruct (_ <? 0) eqn:Hclamp;
      cbn [fst withAggressiveLoan balanceAggressive totalInterestAggressive].
    - split; [apply sub_diag_notNegative|].
      apply add_notNegative; [exact Hi2 | now apply mul_notNegative].
    - split; [exact Hclamp|].
      apply add_notNegative; [exact Hi2 | now apply mul_notNegative]. }
  destruct (aggressiveLoanPart_rest Math_pow input month st2) as (ER3 & ES3 & ET3 & _).
  fold st3 in ER3, ES3, ET3.
  (* the aggressive investment *)
  assert (H4 : notNegative (sipValueAggressive st4)
               /\ notNegative (totalInvestedAggressive st4)).
  { assert (Hs3 : notNegative (sipValueAggressive st3)
                  /\ notNegative (totalInvestedAggressive st3)).
    { unfold aggressiveSip in ET1, ET2, ET3. injection ET1 as E1 E2.
      injection ET2 as E3 E4. injection ET3 as E5 E6.
      now rewrite E5, E6, E3, E4, E1, E2. }
    destruct Hs3 as [Hv3 Ht3].
    subst st4. unfold aggressiveInvestmentPart.
    pose proof (sipGrowth_notNegative (sipValueAggressive st3) (totalInvestedAggressive st3)
                  amount Hv3 Ht3) as Hg.
    destruct (sipGrowth input _ _ _) as [v t]. exact Hg. }
  destruct (aggressiveInvestmentPart_rest input amount st3) as (ER4 & EA4 & ES4 & _).
  fold st4 in ER4, EA4, ES4.
  unfold regularLoan in ER2, ER3, ER4. unfold aggressiveLoan in EA4.
  unfold regularSip in ES3, ES4.
  injection ER2 as R1 R2 _ _. injection ER3 as R3 R4 _ _. injection ER4 as R5 R6 _ _.
  injection EA4 as A1 A2 _ _. injection ES3 as S1 S2. injection ES4 as S3 S4.
  destruct H1 as [H1b H1i]. destruct H2 as [H2v H2t]. destruct H3 as [H3b H3i].
  destruct H4 as [H4v H4t].
  repeat split.
  - now rewrite R5, R3, R1.
  - now rewrite R6, R4, R2.
  - now rewrite S3, S1.
  - now rewrite S4, S2.
  - now rewrite A1.
  - now rewrite A2.
  - exact H4v.
  - exact H4t.
Qed.

Lemma stateAfter_figuresNotNegative k :
  notNegative (principal input) ->
  figuresNotNegative (stateAfter Math_pow input k).
Proof.
  intros HP. induction k as [|k IH].
  - unfold figuresNotNegative. cbn. repeat split; exact HP.
  - rewrite stateAfter_succ64. now apply loopBody_figuresNotNegative.
Qed.

End NotNegative.

(** X22: for every input whose [principal], [interestRate] and
    [sipReturnRate] are not negative, whatever the other inputs and
    [Math.pow], no figure of a snapshot is ever negative: the balance owed,
    the interest paid, the amount invested and the value of the investment,
    for both strategies.  A figure may be [NaN], as at a zero rate, never
    below 0: each balance is guarded by its clamp, each contribution by its
    test [> 0]. *)
Theorem figures_never_negative
    (Math_pow : float -> float -> float) (input : LoanInput) (fuel : nat)
    (result : SimulationResult) :
  (principal input <? 0) = false ->
  (interestRate input <? 0) = false ->
  (sipReturnRate input <? 0) = false ->
  calculateScenario Math_pow input fuel = Returns result ->
  Forall snapshotNotNegative (monthlyData result)
  /\ (Summary.regularTotalInterest (summary result) <? 0) = false
  /\ (Summary.aggressiveTotalInterest (summary result) <? 0) = false
  /\ (Summary.totalAmountInvestedRegular (summary result) <? 0) = false
  /\ (Summary.totalAmountInvestedAggressive (summary result) <? 0) = false.
Proof.
  intros HP HR HS Hcall. apply calculateScenario_returns in Hcall.
  destruct Hcall as (k & _ & -> & _).
  cbn [resultOf monthlyData summary summaryOf Summary.regularTotalInterest
       Summary.aggressiveTotalInterest Summary.totalAmountInvestedRegular
       Summary.totalAmountInvestedAggressive].
  split.
  - rewrite stateAfter_data. apply Forall_forall. intros d Hd.
    apply in_map_iff in Hd. destruct Hd as (m & <- & _).
    destruct (stateAfter_figuresNotNegative Math_pow input HR HS (Z.to_nat m) HP)
      as (HbR & HiR & HvR & HtR & HbA & HiA & HvA & HtA).
    unfold snapshotNotNegative. cbn [snapshot MonthlyData.loanBalanceRegular
      MonthlyData.cumulativeInterestRegular MonthlyData.sipValueRegular
      MonthlyData.totalInvestedRegular MonthlyData.loanBalanceAggressive
      MonthlyData.cumulativeInterestAggressive MonthlyData.sipValueAggressive
      MonthlyData.totalInvestedAggressive].
    repeat split; try assumption; apply Math_max_zero_notNegative.
  - destruct (stateAfter_figuresNotNegative Math_pow input HR HS k HP)
      as (_ & HiR & _ & HtR & _ & HiA & _ & HtA).
    repeat split; assumption.
Qed.

Lemma figures_never_negative_witness :
  exists result,
    calculateScenario powInt flatYearInput 13 = Returns result
    /\ Forall snapshotNotNegative (monthlyData result).
Proof.
  assert (H : calculateScenario powInt flatYearInput 13
              = Returns (resultOf (stateAfter powInt flatYearInput 12)))
    by (vm_compute; reflexivity).
  exists (resultOf (stateAfter powInt flatYearInput 12)). split; [exact H|].
  exact (proj1 (figures_never_negative powInt flatYearInput 13 _
                  eq_refl eq_refl eq_refl H)).
Defined.

(** *** A zero interest rate *)

Lemma SF2Prim_nan (x : float) : Prim2SF x = S754_nan -> x = nan.
Proof. intros H. apply Prim2SF_inj. rewrite H. reflexivity. Qed.

Lemma add_nan_l (x : float) : nan + x = nan.
Proof. apply SF2Prim_nan. rewrite add_spec. reflexivity. Qed.

Lemma add_nan_r (x : float) : x + nan = nan.
Proof.
  apply SF2Prim_nan. rewrite add_spec. change (Prim2SF nan) with S754_nan.
  unfold SF64add. now destruct (Prim2SF x).
Qed.

Lemma sub_nan_l (x : float) : nan - x = nan.
Proof. apply SF2Prim_nan. rewrite sub_spec. reflexivity. Qed.

Lemma sub_nan_r (x : float) : x - nan = nan.
Proof.
  apply SF2Prim_nan. rewrite sub_spec. change (Prim2SF nan) with S754_nan.
  unfold SF64sub. now destruct (Prim2SF x).
Qed.

Lemma mul_nan_l (x : float) : nan * x = nan.
Proof. apply SF2Prim_nan. rewrite mul_spec. reflexivity. Qed.

Lemma ltb_nan_l (x : float) : (nan <? x) = false.
Proof. rewrite ltb_spec. reflexivity. Qed.

(** A rate of 0, of either sign, leaves the monthly rate 0 and the growth
    factor 1. *)
Lemma zero_rate_monthlyRate r :
  (r =? 0) = true -> (r / 12 / 100 =? 0) = true /\ 1 + r / 12 / 100 = 1.
Proof.
  intros Hr. rewrite eqb_spec in Hr. change (Prim2SF 0) with (S754_zero false) in Hr.
  assert (Hz : exists s, Prim2SF (r / 12 / 100) = S754_zero s).
  { rewrite !div_spec. unfold SF64div.
    destruct (Prim2SF r) as [s|s| |s m e]; try destruct s; try discriminate;
      eexists; reflexivity. }
  destruct Hz as [s Hz]. split.
  - rewrite eqb_spec, Hz. reflexivity.
  - apply Prim2SF_inj. rewrite add_spec, Hz. reflexivity.
Qed.

(** The closed form at a monthly rate of 0: [P * 0 * 1 / (1 - 1)]. *)
Lemma zero_over_zero64 (P r : float) : (r =? 0) = true -> P * r * 1 / (1 - 1) = nan.
Proof.
  intros Hr. rewrite eqb_spec in Hr. change (Prim2SF 0) with (S754_zero false) in Hr.
  apply SF2Prim_nan. rewrite div_spec, !mul_spec.
  change (Prim2SF (1 - 1)) with (S754_zero false).
  change (Prim2SF 1) with (S754_finite false 4503599627370496 (-52)).
  unfold SF64div, SF64mul.
  destruct (Prim2SF r) as [sr|sr| |sr mr er]; try destruct sr; try discriminate;
    destruct (Prim2SF P) as [sp|sp| |sp mp ep]; try destruct sp; reflexivity.
Qed.

Section ZeroRate64.

Variable Math_pow : float -> float -> float.
Variable input : LoanInput.
Hypothesis Hrate : (interestRate input =? 0) = true.
Hypothesis Hpow : Math_pow 1 (totalMonths input) = 1.

Lemma baseEmi_zero_rate64 : baseEmi Math_pow input = nan.
Proof.
  unfold baseEmi. destruct (zero_rate_monthlyRate _ Hrate) as [Hr0 Hr1].
  fold (monthlyRate input) in Hr0, Hr1. rewrite Hr1, Hpow.
  now apply zero_over_zero64.
Qed.

Lemma totalBudgetThisMonth_zero_rate64 month :
  totalBudgetThisMonth Math_pow input month = nan.
Proof.
  unfold totalBudgetThisMonth, currentMonthlyBudget. rewrite baseEmi_zero_rate64.
  destruct (1 <? yearOf month)%Z; [rewrite mul_nan_l|]; apply add_nan_l.
Qed.

(** An open loan stays open, with a balance of [NaN]. *)
Lemma loopBody_zero_rate64 st month :
  isRegularClosed st = false ->
  isAggressiveClosed st = false ->
  isRegularClosed (loopBody Math_pow input st month) = false
  /\ isAggressiveClosed (loopBody Math_pow input st month) = false
  /\ balanceRegular (loopBody Math_pow input st month) = nan
  /\ balanceAggressive (loopBody Math_pow input st month) = nan
  /\ regularClosedMonth (loopBody Math_pow input st month) = regularClosedMonth st
  /\ aggressiveClosedMonth (loopBody Math_pow input st month)
     = aggressiveClosedMonth st.
Proof.
  intros HR HA.
  assert (H1 : regularLoanPart Math_pow input month st
               = withRegularLoan st nan
                   (totalInterestRegular st + balanceRegular st * monthlyRate input)
                   false (regularClosedMonth st)).
  { unfold regularLoanPart. rewrite HR, baseEmi_zero_rate64. cbn [negb].
    rewrite sub_nan_l, sub_nan_r, ltb_nan_l. reflexivity. }
  pose proof (loopBody_regularLoan64 Math_pow input st month) as ER.
  rewrite H1 in ER. unfold regularLoan in ER. cbn [withRegularLoan balanceRegular
    totalInterestRegular isRegularClosed regularClosedMonth] in ER.
  injection ER as Eb _ Ec Em.
  pose proof (loopBody_aggressiveLoan64 Math_pow input st month) as EA.
  set (st2 := regularInvestmentPart Math_pow input month
                (regularLoanPart Math_pow input month st)) in EA.
  assert (HA2 : aggressiveLoan st2 = aggressiveLoan st).
  { subst st2. rewrite (proj1 (proj2 (regularInvestmentPart_rest Math_pow input month _))).
    apply (proj1 (regularLoanPart_rest Math_pow input month st)). }
  unfold aggressiveLoan in HA2. injection HA2 as _ _ Hc2 Hm2. rewrite HA in Hc2.
  unfold aggressiveLoanPart in EA. rewrite Hc2, totalBudgetThisMonth_zero_rate64 in EA.
  cbn [negb] in EA. rewrite sub_nan_l, sub_nan_r, ltb_nan_l in EA.
  cbn [fst] in EA. unfold aggressiveLoan in EA. cbn [withAggressiveLoan balanceAggressive
    totalInterestAggressive isAggressiveClosed aggressiveClosedMonth] in EA.
  injection EA as Eb' _ Ec' Em'.
  rewrite Hm2 in Em'. now rewrite Eb, Ec, Em, Eb', Ec', Em'.
Qed.

Lemma stateAfter_zero_rate64 k :
  isRegularClosed (stateAfter Math_pow input k) = false
  /\ isAggressiveClosed (stateAfter Math_pow input k) = false
  /\ regularClosedMonth (stateAfter Math_pow input k) = totalMonths input
  /\ aggressiveClosedMonth (stateAfter Math_pow input k) = totalMonths input
  /\ (k <> O ->
      balanceRegular (stateAfter Math_pow input k) = nan
      /\ balanceAggressive (stateAfter Math_pow input k) = nan).
Proof.
  induction k as [|k (HR & HA & HmR & HmA & _)].
  - do 4 (split; [reflexivity|]). intros Hk; now destruct Hk.
  - rewrite stateAfter_succ64.
    destruct (loopBody_zero_rate64 (stateAfter Math_pow input k) (Z.of_nat (S k)) HR HA)
      as (-> & -> & -> & -> & -> & ->).
    do 4 (split; [first [assumption|reflexivity]|]). intros _. split; reflexivity.
Qed.

End ZeroRate64.

(** X23: the defect of a zero rate, in binary64.  For every input with
    [interestRate = 0], whatever its other fields, and every [Math.pow] that
    returns 1 for the base 1, the installment is [NaN], every snapshot
    carries [NaN] as both loan balances, neither loan ever closes, and with
    at least one month both final wealths are [NaN]. *)
Theorem zero_rate_is_NaN_in_binary64
    (Math_pow : float -> float -> float) (input : LoanInput) (fuel : nat)
    (result : SimulationResult) :
  (interestRate input =? 0) = true ->
  Math_pow 1 (totalMonths input) = 1 ->
  calculateScenario Math_pow input fuel = Returns result ->
  baseEmi Math_pow input = nan
  /\ Forall (fun d => MonthlyData.loanBalanceRegular d = nan
                      /\ MonthlyData.loanBalanceAggressive d = nan)
       (monthlyData result)
  /\ Summary.regularTenureMonths (summary result) = totalMonths input
  /\ Summary.aggressiveTenureMonths (summary result) = totalMonths input
  /\ (monthlyData result <> [] ->
      Summary.finalWealthRegular (summary result) = nan
      /\ Summary.finalWealthAggressive (summary result) = nan).
Proof.
  intros Hrate Hpow Hcall. apply calculateScenario_returns in Hcall.
  destruct Hcall as (k & _ & -> & _).
  split; [now apply baseEmi_zero_rate64|].
  cbn [resultOf monthlyData summary summaryOf Summary.regularTenureMonths
       Summary.aggressiveTenureMonths Summary.finalWealthRegular
       Summary.finalWealthAggressive].
  destruct (stateAfter_zero_rate64 Math_pow input Hrate Hpow k)
    as (_ & _ & HmR & HmA & Hbal).
  split; [|split; [exact HmR|split; [exact HmA|]]].
  - rewrite stateAfter_data. apply Forall_forall. intros d Hd.
    apply in_map_iff in Hd. destruct Hd as (m & <- & Hm). apply in_monthsFrom in Hm.
    cbn [snapshot MonthlyData.loanBalanceRegular MonthlyData.loanBalanceAggressive].
    destruct (stateAfter_zero_rate64 Math_pow input Hrate Hpow (Z.to_nat m))
      as (_ & _ & _ & _ & Hb).
    destruct Hb as [-> ->]; [lia|]. split; reflexivity.
  - intros Hne. destruct Hbal as [-> ->].
    + intros ->. now apply Hne.
    + change (Math_max 0 nan) with nan. now rewrite !sub_nan_r.
Qed.

Lemma zero_rate_is_NaN_in_binary64_witness :
  exists result,
    calculateScenario powInt zeroRateYearInput 13 = Returns result
    /\ baseEmi powInt zeroRateYearInput = nan.
Proof.
  assert (H : calculateScenario powInt zeroRateYearInput 13
              = Returns (resultOf (stateAfter powInt zeroRateYearInput 12)))
    by (vm_compute; reflexivity).
  exists (resultOf (stateAfter powInt zeroRateYearInput 12)). split; [exact H|].
  exact (proj1 (zero_rate_is_NaN_in_binary64 powInt zeroRateYearInput 13 _
                  eq_refl eq_refl H)).
Defined.

(** *** The yearly table *)

Lemma hasKey_app k o o' : hasKey k (o ++ o') = hasKey k o || hasKey k o'.
Proof. unfold hasKey. apply existsb_app. Qed.

Lemma hasKey_small k o :
  Forall (fun e => (fst e < k)%Z) o -> hasKey k o = false.
Proof.
  induction 1 as [|[k' v'] o Hk _ IH]; [reflexivity|].
  unfold hasKey in *. cbn in *. rewrite IH, orb_false_r. apply Z.eqb_neq. lia.
Qed.

Lemma replaceKey_last k v v0 o :
  hasKey k o = false -> replaceKey k v (o ++ [(k, v0)]) = o ++ [(k, v)].
Proof.
  unfold hasKey. induction o as [|[k' v'] o IH]; cbn.
  - intros _. now rewrite Z.eqb_refl.
  - intros H. apply orb_false_iff in H. destruct H as [Hk Ho].
    rewrite Hk. now rewrite IH.
Qed.

(** Assigning again to the key assigned last replaces the last property. *)
Lemma objSet_last k v v0 o :
  hasKey k o = false -> objSet k v (o ++ [(k, v0)]) = o ++ [(k, v)].
Proof.
  intros H. unfold objSet. rewrite hasKey_app.
  replace (hasKey k [(k, v0)]) with true
    by (unfold hasKey; cbn; now rewrite Z.eqb_refl).
  rewrite orb_true_r. now apply replaceKey_last.
Qed.

Lemma insertIndexKey_end k v o :
  Forall (fun e => (0 <= fst e < k)%Z) o ->
  isArrayIndex k = true ->
  insertIndexKey k v o = o ++ [(k, v)].
Proof.
  intros Ho Hk. induction Ho as [|[k' v'] o Hk' _ IH]; [reflexivity|].
  cbn in *. rewrite IH.
  assert (H : isArrayIndex k' && (k' <? k)%Z = true).
  { unfold isArrayIndex in *. apply andb_true_iff in Hk. destruct Hk as [_ Hlt].
    apply Z.ltb_lt in Hlt.
    rewrite !andb_true_iff, Z.leb_le, !Z.ltb_lt. lia. }
  now rewrite H.
Qed.

(** Assigning to a key above every key of the object adds the last property,
    whether or not the key is an array index. *)
Lemma objSet_new_largest k v o :
  Forall (fun e => (0 <= fst e < k)%Z) o ->
  objSet k v o = o ++ [(k, v)].
Proof.
  intros Ho. unfold objSet.
  rewrite hasKey_small by (eapply Forall_impl; [|exact Ho]; cbn; intros; lia).
  destruct (isArrayIndex k) eqn:Hk; [|reflexivity].
  now apply insertIndexKey_end.
Qed.

Lemma groupByYear_snoc rows d :
  groupByYear (rows ++ [d]) = objSet (MonthlyData.year d) d (groupByYear rows).
Proof. unfold groupByYear. now rewrite fold_left_app. Qed.

Lemma yearOf_unique m y : (12 * (y - 1) < m <= 12 * y)%Z -> yearOf m = y.
Proof.
  intros H. unfold yearOf.
  pose proof (Z.div_mod (m + 11) 12 ltac:(lia)).
  pose proof (Z.mod_pos_bound (m + 11) 12 ltac:(lia)). lia.
Qed.

Lemma yearOf_range m : (12 * (yearOf m - 1) < m <= 12 * yearOf m)%Z.
Proof.
  unfold yearOf.
  pose proof (Z.div_mod (m + 11) 12 ltac:(lia)).
  pose proof (Z.mod_pos_bound (m + 11) 12 ltac:(lia)). lia.
Qed.

Lemma yearsOf_spec n : Z.of_nat (yearsOf n) = yearOf (Z.of_nat n).
Proof. unfold yearsOf. pose proof (yearOf_range (Z.of_nat n)). lia. Qed.

Section YearlyTable.

Variable row : Z -> MonthlyData.t.
Hypothesis row_year : forall m, MonthlyData.year (row m) = yearOf m.

Lemma yearEnds_keys n : Forall (fun e => (0 <= fst e < Z.of_nat (yearsOf n) + 1)%Z) (yearEnds row n).
Proof.
  unfold yearEnds. apply Forall_forall. intros e He.
  apply in_map_iff in He. destruct He as (y & <- & Hy).
  apply in_monthsFrom in Hy. cbn [fst]. lia.
Qed.

(** After [n] months the grouping holds, for each year reached, the row of
    the last month the run has in it. *)
Lemma groupByYear_rows n :
  groupByYear (map row (monthsFrom 1 n)) = yearEnds row n.
Proof.
  induction n as [|n IH]; [reflexivity|].
  rewrite monthsFrom_snoc, map_app. cbn [map]. rewrite groupByYear_snoc, IH, row_year.
  pose proof (yearOf_range (Z.of_nat n)) as Hn.
  pose proof (yearOf_range (1 + Z.of_nat n)) as Hn1.
  pose proof (yearsOf_spec n) as Yn. pose proof (yearsOf_spec (S n)) as Yn1.
  replace (Z.of_nat (S n)) with (1 + Z.of_nat n)%Z in Yn1 by lia.
  destruct (Z.eq_dec (yearOf (1 + Z.of_nat n)) (yearOf (Z.of_nat n))) as [Hsame | Hnew].
  - (* the month stays in the year of the month before *)
    assert (Hy : yearsOf (S n) = yearsOf n) by lia.
    assert (Hpos : (0 < yearsOf n)%nat) by lia.
    unfold yearEnds. rewrite Hy.
    destruct (yearsOf n) as [|y] eqn:Ey; [lia|].
    rewrite !monthsFrom_snoc, !map_app. cbn [map].
    replace (yearOf (1 + Z.of_nat n)) with (1 + Z.of_nat y)%Z by lia.
    rewrite objSet_last.
    + f_equal.
      * apply map_ext_in. intros y' Hy'. apply in_monthsFrom in Hy'.
        unfold yearEndMonth. f_equal. f_equal. lia.
      * unfold yearEndMonth. do 3 f_equal. lia.
    + apply hasKey_small. apply Forall_forall. intros e He.
      apply in_map_iff in He. destruct He as (y' & <- & Hy').
      apply in_monthsFrom in Hy'. cbn [fst]. lia.
  - (* the month opens a new year *)
    assert (Hy : yearsOf (S n) = S (yearsOf n)).
    { assert (yearOf (1 + Z.of_nat n) = yearOf (Z.of_nat n) + 1)%Z; [|lia].
      apply yearOf_unique. 
      assert (yearOf (Z.of_nat n) <= yearOf (1 + Z.of_nat n))%Z.
      { unfold yearOf. apply Z.div_le_mono; lia. }
      lia. }
    assert (Hfull : Z.of_nat n = (12 * yearOf (Z.of_nat n))%Z).
    { assert (yearOf (1 + Z.of_nat n) = yearOf (Z.of_nat n) + 1)%Z by lia. lia. }
    rewrite objSet_new_largest.
    + unfold yearEnds at 2. rewrite Hy, monthsFrom_snoc, map_app. cbn [map].
      f_equal.
      * unfold yearEnds. apply map_ext_in. intros y' Hy'. apply in_monthsFrom in Hy'.
        unfold yearEndMonth. f_equal. f_equal. lia.
      * unfold yearEndMonth.
        replace (1 + Z.of_nat (yearsOf n))%Z with (yearOf (1 + Z.of_nat n)) by lia.
        do 3 f_equal. lia.
    + eapply Forall_impl; [|apply yearEnds_keys]. cbn beta. intros e He. lia.
Qed.

(** Rows already in year order are left as they are by the sort. *)
Lemma insertByYear_end d l :
  Forall (fun e => (MonthlyData.year e <= MonthlyData.year d)%Z) l ->
  insertByYear d l = l ++ [d].
Proof.
  induction 1 as [|e l He _ IH]; [reflexivity|].
  cbn. apply Z.leb_le in He. now rewrite He, IH.
Qed.

Lemma yearEndMonth_year n y :
  (1 <= y <= Z.of_nat (yearsOf n))%Z -> yearOf (yearEndMonth n y) = y.
Proof.
  intros Hy. pose proof (yearsOf_spec n) as Yn.
  pose proof (yearOf_range (Z.of_nat n)) as Hn.
  apply yearOf_unique. unfold yearEndMonth. lia.
Qed.

Lemma sortByYear_yearEnds n :
  sortByYear (objValues (yearEnds row n))
  = map (fun y => row (yearEndMonth n y)) (monthsFrom 1 (yearsOf n)).
Proof.
  unfold sortByYear, objValues, yearEnds. rewrite map_map. cbn [snd].
  assert (H : forall k, (k <= yearsOf n)%nat ->
            fold_left (fun sorted d => insertByYear d sorted)
              (map (fun y => row (yearEndMonth n y)) (monthsFrom 1 k)) []
            = map (fun y => row (yearEndMonth n y)) (monthsFrom 1 k)).
  { induction k as [|k IHk]; intros Hk; [reflexivity|].
    rewrite monthsFrom_snoc, map_app, fold_left_app, IHk by lia. cbn [map fold_left].
    apply insertByYear_end. apply Forall_forall. intros e He.
    apply in_map_iff in He. destruct He as (y' & <- & Hy'). apply in_monthsFrom in Hy'.
    rewrite !row_year, !yearEndMonth_year by lia. lia. }
  now apply H.
Qed.

End YearlyTable.

(** X15: whatever the input, the yearly table shows one row for each year
    the run reaches into, in ascending order, and the row of a year is the
    snapshot of the last month the run has in that year: month [12 * y], or
    the last month of all when the run ends inside the year, as it does for
    a tenure that is not a whole number of years. *)
Theorem yearlyBreakdown_is_year_ends
    (Math_pow : float -> float -> float) (input : LoanInput) (fuel : nat)
    (result : SimulationResult) :
  calculateScenario Math_pow input fuel = Returns result ->
  map Some (yearlyBreakdown (Some result))
  = map (fun y =>
           nth_error (monthlyData result)
             (Z.to_nat (yearEndMonth (length (monthlyData result)) y - 1)))
        (monthsFrom 1 (yearsOf (length (monthlyData result))))
  /\ length (yearlyBreakdown (Some result)) = yearsOf (length (monthlyData result)).
Proof.
  intros Hcall. apply calculateScenario_returns in Hcall.
  destruct Hcall as (k & _ & -> & _).
  cbn [resultOf monthlyData yearlyBreakdown]. rewrite stateAfter_length, stateAfter_data.
  set (row := fun m => snapshot m (stateAfter Math_pow input (Z.to_nat m))).
  assert (Hrow : forall m, MonthlyData.year (row m) = yearOf m) by reflexivity.
  rewrite (groupByYear_rows row Hrow), (sortByYear_yearEnds row Hrow).
  split; [|now rewrite length_map, length_monthsFrom].
  rewrite map_map. apply map_ext_in. intros y Hy. apply in_monthsFrom in Hy.
  pose proof (yearsOf_spec k) as Yk. pose proof (yearOf_range (Z.of_nat k)) as Hk.
  assert (Hm : (1 <= yearEndMonth k y <= Z.of_nat k)%Z) by (unfold yearEndMonth; lia).
  symmetry. rewrite nth_error_map.
  unfold monthsFrom. rewrite nth_error_map.
  rewrite nth_error_nth' with (d := 0%nat) by (rewrite length_seq; lia).
  rewrite seq_nth by lia. cbn [option_map]. do 2 f_equal. lia.
Qed.

Lemma yearlyBreakdown_is_year_ends_witness :
  exists result,
    calculateScenario powInt yearAndHalfInput 19 = Returns result
    /\ length (monthlyData result) = 18%nat
    /\ map MonthlyData.month (yearlyBreakdown (Some result)) = [12; 18]%Z
    /\ map Some (yearlyBreakdown (Some result))
       = map (fun y =>
                nth_error (monthlyData result)
                  (Z.to_nat (yearEndMonth (length (monthlyData result)) y - 1)))
             (monthsFrom 1 (yearsOf (length (monthlyData result)))).
Proof.
  assert (H : calculateScenario powInt yearAndHalfInput 19
              = Returns (resultOf (stateAfter powInt yearAndHalfInput 18)))
    by (vm_compute; reflexivity).
  exists (resultOf (stateAfter powInt yearAndHalfInput 18)). split; [exact H|].
  split; [vm_compute; reflexivity|]. split; [vm_compute; reflexivity|].
  exact (proj1 (yearlyBreakdown_is_year_ends powInt yearAndHalfInput 19 _ H)).
Defined.

Example yearlyBreakdown_before_first_result : yearlyBreakdown None = [].
Proof. reflexivity. Qed.

